(** * Disco worker-session runtime: packed-argument codec, message queue, sessions

    A shallow embedding of
    - [src/runtime/minrpc/rpc_reference.h]        (the packed-sequence codec),
    - [src/runtime/disco/threaded_session.cc]     (the in-process queue and session),
    - [src/runtime/disco/distributed/socket_session.cc] (controller and relay),
    together with the properties the design document states about them.

    Integers of a fixed width are values of [Z]; their byte image is the
    little-endian split of coqutil, which reduces modulo the width.  Byte
    strings are [list byte]. *)

From Stdlib Require Import ZArith List Lia Bool.
From Stdlib Require String.
From coqutil Require Import Byte Word.LittleEndianList.
From stdpp Require Import base numbers list list_numbers gmap.
Import ListNotations.
Import String.StringSyntax.
Delimit Scope string_scope with string.
Open Scope Z_scope.

(** ** Enumerations of rpc_reference.h *)

Inductive RPCCode :=
| kNone | kShutdown | kInitServer | kCallFunc | kReturn | kException
| kCopyFromRemote | kCopyToRemote | kCopyAck
| kGetGlobalFunc | kFreeHandle | kDevSetDevice | kDevGetAttr | kDevAllocData
| kDevFreeData | kDevStreamSync | kCopyAmongRemote | kDevAllocDataWithScope
| kDevCreateStream | kDevFreeStream | kDevSetStream | kDevGetCurrentStream.

(** The enumerators count from zero; [kGetGlobalFunc] is [kSyscallCodeStart]. *)
Definition RPCCode_value (c : RPCCode) : Z :=
  match c with
  | kNone => 0 | kShutdown => 1 | kInitServer => 2 | kCallFunc => 3
  | kReturn => 4 | kException => 5 | kCopyFromRemote => 6
  | kCopyToRemote => 7 | kCopyAck => 8 | kGetGlobalFunc => 9
  | kFreeHandle => 10 | kDevSetDevice => 11 | kDevGetAttr => 12
  | kDevAllocData => 13 | kDevFreeData => 14 | kDevStreamSync => 15
  | kCopyAmongRemote => 16 | kDevAllocDataWithScope => 17
  | kDevCreateStream => 18 | kDevFreeStream => 19 | kDevSetStream => 20
  | kDevGetCurrentStream => 21
  end.

Inductive RPCServerStatus :=
| kSuccess
| kInvalidTypeCodeObject
| kInvalidTypeCodeNDArray
| kInvalidDLTensorFieldStride
| kInvalidDLTensorFieldByteOffset
| kUnknownTypeIndex
| kUnknownRPCCode
| kRPCCodeNotSupported
| kUnknownRPCSyscall
| kCheckError
| kReadError
| kWriteError
| kAllocError.

(** ** The argument value

    [DLDevice], [DLDataType] and [DLTensor] are the DLPack structures the
    codec reads field by field. *)

Record DLDevice := { device_type : Z; device_id : Z }.

Record DLDataType := { code : Z; bits : Z; lanes : Z }.

Record DLTensor := {
  data : Z;                       (* void*, sent as a 64-bit handle *)
  device : DLDevice;
  ndim : Z;                       (* int32_t *)
  dtype : DLDataType;
  shape : list Z;                 (* the int64_t array [shape] points to *)
  strides : option (list Z);      (* [None] is the null pointer *)
  byte_offset : Z                 (* uint64_t *)
}.

Record TVMFFIByteArray := { ba_data : list byte; ba_size : Z }.

(** [TVMFFIAny] is a type index and an eight-byte union.  Each constructor is
    one case label of the [switch] in [SendPackedSeq]; [AOther] stands for
    every value whose index is none of the labels (the [default] branch).
    A float is carried as the 64-bit pattern of the union, the way the codec
    reads it ([v_int64]).  A raw string is the memory [v_c_str] points to. *)
Inductive TVMFFIAny :=
| ANone
| ABool (v_int64 : Z)
| AInt (v_int64 : Z)
| AFloat (v_int64 : Z)
| AOpaquePtr (v_ptr : Z)
| ADataType (v_dtype : DLDataType)
| ADevice (v_device : DLDevice)
| AFunction (v_obj : Z)
| AModule (v_obj : Z)
| ANDArray (v_obj : Z)
| ADLTensorPtr (arr : DLTensor)
| ARawStr (v_c_str : list byte)
| AByteArrayPtr (bytes : TVMFFIByteArray)
| AOther (index : Z) (v_obj : Z).

(** The numeric values of [ffi::TypeIndex] are declared outside the files
    modelled here, so they are a parameter.  What the codec relies on is
    that the labels of one [switch] are pairwise distinct (the compiler
    rejects a duplicate label) and that each is an [int32_t]. *)
Class TypeIndex := {
  kTVMFFINone : Z;
  kTVMFFIInt : Z;
  kTVMFFIBool : Z;
  kTVMFFIFloat : Z;
  kTVMFFIOpaquePtr : Z;
  kTVMFFIDataType : Z;
  kTVMFFIDevice : Z;
  kTVMFFIDLTensorPtr : Z;
  kTVMFFIRawStr : Z;
  kTVMFFIByteArrayPtr : Z;
  kTVMFFIStaticObjectBegin : Z;
  kTVMFFIFunction : Z;
  kTVMFFINDArray : Z;
  kTVMFFIModule : Z;
  case_labels :=
    [kTVMFFINone; kTVMFFIBool; kTVMFFIInt; kTVMFFIFloat; kTVMFFIOpaquePtr;
     kTVMFFIDataType; kTVMFFIDevice; kTVMFFIFunction; kTVMFFIModule;
     kTVMFFINDArray; kTVMFFIDLTensorPtr; kTVMFFIRawStr; kTVMFFIByteArrayPtr];
  case_labels_distinct : NoDup case_labels;
  case_labels_int32 : Forall (fun z => - 2 ^ 31 <= z < 2 ^ 31) case_labels
}.

Definition type_index `{TypeIndex} (a : TVMFFIAny) : Z :=
  match a with
  | ANone => kTVMFFINone
  | ABool _ => kTVMFFIBool
  | AInt _ => kTVMFFIInt
  | AFloat _ => kTVMFFIFloat
  | AOpaquePtr _ => kTVMFFIOpaquePtr
  | ADataType _ => kTVMFFIDataType
  | ADevice _ => kTVMFFIDevice
  | AFunction _ => kTVMFFIFunction
  | AModule _ => kTVMFFIModule
  | ANDArray _ => kTVMFFINDArray
  | ADLTensorPtr _ => kTVMFFIDLTensorPtr
  | ARawStr _ => kTVMFFIRawStr
  | AByteArrayPtr _ => kTVMFFIByteArrayPtr
  | AOther index _ => index
  end.

(** ** Object representations

    What [channel->Write(value)] and [channel->Read(&value)] move is the
    object representation of a C value: [sizeof(T)] bytes. *)

Inductive ctype :=
| t_int32 | t_int64 | t_uint64 | t_char | t_RPCCode | t_DLDevice | t_DLDataType.

Definition sizeof (t : ctype) : Z :=
  match t with
  | t_int32 => 4 | t_int64 => 8 | t_uint64 => 8 | t_char => 1
  | t_RPCCode => 4 | t_DLDevice => 8 | t_DLDataType => 4
  end.

Inductive cvalue :=
| v_int32 (z : Z)
| v_int64 (z : Z)
| v_uint64 (z : Z)
| v_char (b : byte)
| v_RPCCode (c : RPCCode)
| v_DLDevice (d : DLDevice)
| v_DLDataType (d : DLDataType).

Definition ctype_of (v : cvalue) : ctype :=
  match v with
  | v_int32 _ => t_int32 | v_int64 _ => t_int64 | v_uint64 _ => t_uint64
  | v_char _ => t_char | v_RPCCode _ => t_RPCCode
  | v_DLDevice _ => t_DLDevice | v_DLDataType _ => t_DLDataType
  end.

Definition object_repr (v : cvalue) : list byte :=
  match v with
  | v_int32 z => le_split 4 z
  | v_int64 z => le_split 8 z
  | v_uint64 z => le_split 8 z
  | v_char b => [b]
  | v_RPCCode c => le_split 4 (RPCCode_value c)
  | v_DLDevice d => le_split 4 (device_type d) ++ le_split 4 (device_id d)
  | v_DLDataType d =>
      le_split 1 (code d) ++ le_split 1 (bits d) ++ le_split 2 (lanes d)
  end.

(** Reading back: an unsigned field is the combined bytes, a signed one its
    two's-complement reading. *)
Definition sint (width : Z) (u : Z) : Z :=
  if u <? 2 ^ (width - 1) then u else u - 2 ^ width.

Definition to_int32 (bs : list byte) : Z := sint 32 (le_combine bs).
Definition to_int64 (bs : list byte) : Z := sint 64 (le_combine bs).
Definition to_uint64 (bs : list byte) : Z := le_combine bs.

Definition to_DLDevice (bs : list byte) : DLDevice :=
  {| device_type := to_int32 (take 4 bs);
     device_id := to_int32 (take 4 (drop 4 bs)) |}.

Definition to_DLDataType (bs : list byte) : DLDataType :=
  {| code := le_combine (take 1 bs);
     bits := le_combine (take 1 (drop 1 bs));
     lanes := le_combine (take 2 (drop 2 bs)) |}.

(** [num] consecutive [int64_t] out of a byte block. *)
Fixpoint to_int64_array (num : nat) (bs : list byte) : list Z :=
  match num with
  | O => []
  | S n => to_int64 (take 8 bs) :: to_int64_array n (drop 8 bs)
  end.

(** ** Control: a channel operation returns, or an error is raised

    [ThrowError], a failed [ICHECK] and a protocol extension that refuses a
    value all unwind the caller.  The channel state at that moment is kept,
    so that what had been written before the error can be inspected. *)

Inductive fatal :=
| RPCError (status : RPCServerStatus)
| CheckFailed
| Unsupported.

Inductive outcome (S A : Type) : Type :=
| Done (a : A) (s : S)
| Throw (e : fatal) (s : S).
Arguments Done {S A} a s.
Arguments Throw {S A} e s.

Definition M (S A : Type) : Type := S -> outcome S A.

Definition ret {S A} (a : A) : M S A := fun s => Done a s.

Definition bind {S A B} (c : M S A) (k : A -> M S B) : M S B :=
  fun s => match c s with
           | Done a s' => k a s'
           | Throw e s' => Throw e s'
           end.

Definition lift {S} (f : S -> S) : M S unit := fun s => Done tt (f s).

(** Every channel of the repository implements [ThrowError] as a fatal
    error that does not return. *)
Definition ThrowError {S A} (status : RPCServerStatus) : M S A :=
  fun s => Throw (RPCError status) s.

Declare Scope chan_scope.
Delimit Scope chan_scope with chan.
Notation "x <~ c ;; k" := (bind c (fun x => k))
  (at level 100, c at next level, right associativity) : chan_scope.
Notation "c ;;; k" := (bind c (fun _ => k))
  (at level 100, right associativity) : chan_scope.
Open Scope chan_scope.

(** ** Channels

    [SendPackedSeq] is a template over the channel; it needs [Write],
    [WriteArray] and [WriteFFIAny]. *)
Class TChannel (S : Type) : Type := {
  Write : cvalue -> S -> S;
  WriteArray : ctype -> list cvalue -> S -> S;
  WriteFFIAny : TVMFFIAny -> M S unit
}.

(** A byte stream ([dmlc::Stream]): the two virtual functions. *)
Class Stream (S : Type) : Type := {
  stream_Write : list byte -> S -> S;
  stream_Read : Z -> M S (list byte)
}.

(** The protocol extension a stream channel adds for values outside the
    built-in cases; its code is not part of the files modelled here. *)
Class Protocol (S : Type) : Type := {
  proto_WriteFFIAny : TVMFFIAny -> M S unit;
  proto_ReadFFIAny : Z -> M S TVMFFIAny;
  GetFFIAnyProtocolBytes : TVMFFIAny -> S -> Z
}.

(** [Write<T>] and [WriteArray<T>] of a stream write the object
    representation. *)
#[export] Instance stream_channel (S : Type) `{Stream S} `{Protocol S} : TChannel S := {
  Write v := stream_Write (object_repr v);
  WriteArray _ vs := stream_Write (concat (map object_repr vs));
  WriteFFIAny := proto_WriteFFIAny
}.

Definition wrap64 (z : Z) : Z := z mod 2 ^ 64.

(** [PackedSeqNumBytesGetter<TChannel>]: counts instead of writing. *)
Record PackedSeqNumBytesGetter (S : Type) : Type := {
  channel_ : S;
  num_bytes_ : Z
}.
Arguments channel_ {S} _.
Arguments num_bytes_ {S} _.

Definition getter_add {S} (n : Z) (g : PackedSeqNumBytesGetter S) :=
  {| channel_ := channel_ g; num_bytes_ := wrap64 (num_bytes_ g + n) |}.

#[export] Instance getter_channel (S : Type) `{Protocol S} :
  TChannel (PackedSeqNumBytesGetter S) := {
  Write v := getter_add (sizeof (ctype_of v));
  WriteArray t vs := getter_add (sizeof t * Z.of_nat (length vs));
  WriteFFIAny obj :=
    fun g => Done tt (getter_add (GetFFIAnyProtocolBytes obj (channel_ g)) g)
}.

(** Message boundaries, as [ReturnPackedSeq] and its siblings call them. *)
Class Framed (S : Type) : Type := {
  MessageStart : Z -> S -> S;
  MessageDone : S -> S
}.

(** ** rpc_reference.h: the codec *)

(** [StrLength]: the index of the first NUL in the memory at [str]. *)
Fixpoint StrLength (str : list byte) : Z :=
  match str with
  | [] => 0
  | c :: rest => if Byte.eqb c Byte.x00 then 0 else 1 + StrLength rest
  end.

(** An [int] or [uint64_t] count converted to [size_t]. *)
Definition size_t (n : Z) : Z := wrap64 n.

Section Encode.
Context `{TypeIndex} {Ch : Type} `{TChannel Ch}.

Definition SendDLTensor (arr : DLTensor) : M Ch unit :=
  lift (Write (v_uint64 (data arr))) ;;;
  lift (Write (v_DLDevice (device arr))) ;;;
  lift (Write (v_int32 (ndim arr))) ;;;
  lift (Write (v_DLDataType (dtype arr))) ;;;
  lift (WriteArray t_int64
          (map v_int64 (take (Z.to_nat (size_t (ndim arr))) (shape arr)))) ;;;
  match strides arr with
  | Some _ => ThrowError kInvalidDLTensorFieldStride
  | None => ret tt
  end ;;;
  lift (Write (v_uint64 (byte_offset arr))).

(** One iteration of the loop of [SendPackedSeq]. *)
Definition SendArg (client_mode : bool) (a : TVMFFIAny) : M Ch unit :=
  lift (Write (v_int32 (type_index a))) ;;;
  match a with
  | ANone => ret tt
  | ABool v | AInt v | AFloat v => lift (Write (v_int64 v))
  | AOpaquePtr handle => lift (Write (v_int64 handle))
  | ADataType d =>
      lift (Write (v_DLDataType d)) ;;;
      lift (Write (v_int32 0))
  | ADevice d => lift (Write (v_DLDevice d))
  | AFunction handle | AModule handle =>
      (if client_mode then ret tt
       else ThrowError kInvalidTypeCodeObject) ;;;
      lift (Write (v_uint64 handle))
  | ANDArray _ => ThrowError kInvalidTypeCodeNDArray
  | ADLTensorPtr arr => SendDLTensor arr
  | ARawStr s =>
      let len := StrLength s in
      lift (Write (v_uint64 len)) ;;;
      lift (WriteArray t_char (map v_char (take (Z.to_nat len) s)))
  | AByteArrayPtr b =>
      let len := ba_size b in
      lift (Write (v_uint64 len)) ;;;
      lift (WriteArray t_char
              (map v_char (take (Z.to_nat (size_t len)) (ba_data b))))
  | AOther _ _ => WriteFFIAny a
  end.

Fixpoint SendArgs (client_mode : bool) (args : list TVMFFIAny) : M Ch unit :=
  match args with
  | [] => ret tt
  | a :: rest => SendArg client_mode a ;;; SendArgs client_mode rest
  end.

(** [packed_args] is the array the pointer designates; the loop visits its
    first [num_args] elements. *)
Definition SendPackedSeq (packed_args : list TVMFFIAny) (num_args : Z)
    (client_mode : bool) : M Ch unit :=
  lift (Write (v_int32 num_args)) ;;;
  SendArgs client_mode (take (Z.to_nat num_args) packed_args).
End Encode.

Section Decode.
Context `{TypeIndex} {Ch : Type} `{Stream Ch} `{Protocol Ch}.

(** [Read<T>] and [ReadArray<T>] of a stream read [sizeof(T)] bytes per
    element. *)
Definition Read (t : ctype) : M Ch (list byte) := stream_Read (sizeof t).

Definition ReadArray (t : ctype) (num : Z) : M Ch (list byte) :=
  stream_Read (wrap64 (sizeof t * size_t num)).

Definition ReceiveDLTensor : M Ch DLTensor :=
  handle <~ Read t_uint64 ;;
  dev <~ Read t_DLDevice ;;
  nd <~ Read t_int32 ;;
  dt <~ Read t_DLDataType ;;
  sh <~ ReadArray t_int64 (to_int32 nd) ;;
  off <~ Read t_uint64 ;;
  ret {| data := to_uint64 handle;
         device := to_DLDevice dev;
         ndim := to_int32 nd;
         dtype := to_DLDataType dt;
         shape := to_int64_array (Z.to_nat (size_t (to_int32 nd))) sh;
         strides := None;
         byte_offset := to_uint64 off |}.

(** One iteration of the loop of [RecvPackedSeq]: the index read from the
    channel selects the branch. *)
Definition RecvArg : M Ch TVMFFIAny :=
  ti <~ Read t_int32 ;;
  let type_index := to_int32 ti in
  if type_index =? kTVMFFINone then ret ANone
  else if type_index =? kTVMFFIBool then
    v <~ Read t_int64 ;; ret (ABool (to_int64 v))
  else if type_index =? kTVMFFIInt then
    v <~ Read t_int64 ;; ret (AInt (to_int64 v))
  else if type_index =? kTVMFFIFloat then
    v <~ Read t_int64 ;; ret (AFloat (to_int64 v))
  else if type_index =? kTVMFFIOpaquePtr then
    handle <~ Read t_uint64 ;; ret (AOpaquePtr (to_uint64 handle))
  else if type_index =? kTVMFFIDataType then
    d <~ Read t_DLDataType ;;
    padding <~ Read t_int32 ;;
    ret (ADataType (to_DLDataType d))
  else if type_index =? kTVMFFIDevice then
    d <~ Read t_DLDevice ;; ret (ADevice (to_DLDevice d))
  else if type_index =? kTVMFFIFunction then
    handle <~ Read t_uint64 ;; ret (AFunction (to_uint64 handle))
  else if type_index =? kTVMFFIModule then
    handle <~ Read t_uint64 ;; ret (AModule (to_uint64 handle))
  else if type_index =? kTVMFFIRawStr then
    len <~ Read t_uint64 ;;
    str <~ ReadArray t_char (to_uint64 len) ;;
    ret (ARawStr (str ++ [Byte.x00]))
  else if type_index =? kTVMFFIByteArrayPtr then
    len <~ Read t_uint64 ;;
    dat <~ ReadArray t_char (to_uint64 len) ;;
    ret (AByteArrayPtr {| ba_data := dat; ba_size := to_uint64 len |})
  else if type_index =? kTVMFFIDLTensorPtr then
    arr <~ ReceiveDLTensor ;; ret (ADLTensorPtr arr)
  else if type_index >=? kTVMFFIStaticObjectBegin then
    proto_ReadFFIAny type_index
  else ThrowError kUnknownTypeIndex.

Fixpoint RecvArgs (n : nat) : M Ch (list TVMFFIAny) :=
  match n with
  | O => ret []
  | S n' =>
      a <~ RecvArg ;;
      rest <~ RecvArgs n' ;;
      ret (a :: rest)
  end.

(** The result is [( *out_num_args, *out_packed_args )]. *)
Definition RecvPackedSeq : M Ch (Z * list TVMFFIAny) :=
  na <~ Read t_int32 ;;
  let num_args := to_int32 na in
  if num_args =? 0 then ret (num_args, [])
  else
    packed_args <~ RecvArgs (Z.to_nat num_args) ;;
    ret (num_args, packed_args).
End Decode.

Section Reply.
Context `{TypeIndex} {Ch : Type} `{Stream Ch} `{Protocol Ch} `{Framed Ch}.

Definition PackedSeqGetNumBytes (packed_args : list TVMFFIAny) (num_args : Z)
    (client_mode : bool) : M Ch Z :=
  fun channel =>
    let getter := {| channel_ := channel; num_bytes_ := 0 |} in
    match SendPackedSeq packed_args num_args client_mode getter with
    | Done _ g => Done (num_bytes_ g) channel
    | Throw e _ => Throw e channel
    end.

Definition ReturnException (msg : list byte) : M Ch unit :=
  let len := StrLength msg in
  let packet_nbytes :=
    wrap64 (sizeof t_RPCCode + sizeof t_int32 + sizeof t_int32
            + sizeof t_uint64 + len) in
  lift (MessageStart packet_nbytes) ;;;
  lift (Write (v_uint64 packet_nbytes)) ;;;
  lift (Write (v_RPCCode kException)) ;;;
  lift (Write (v_int32 1)) ;;;
  lift (Write (v_int32 kTVMFFIRawStr)) ;;;
  lift (Write (v_uint64 len)) ;;;
  lift (WriteArray t_char (map v_char (take (Z.to_nat len) msg))) ;;;
  lift MessageDone.

Definition ReturnPackedSeq (packed_args : list TVMFFIAny) (num_args : Z)
    : M Ch unit :=
  n <~ PackedSeqGetNumBytes packed_args num_args false ;;
  let packet_nbytes := wrap64 (sizeof t_RPCCode + n) in
  lift (MessageStart packet_nbytes) ;;;
  lift (Write (v_uint64 packet_nbytes)) ;;;
  lift (Write (v_RPCCode kReturn)) ;;;
  SendPackedSeq packed_args num_args false ;;;
  lift MessageDone.

Definition ReturnVoid : M Ch unit :=
  let packet_nbytes :=
    wrap64 (sizeof t_RPCCode + sizeof t_int32 + sizeof t_int32) in
  lift (MessageStart packet_nbytes) ;;;
  lift (Write (v_uint64 packet_nbytes)) ;;;
  lift (Write (v_RPCCode kReturn)) ;;;
  lift (Write (v_int32 1)) ;;;
  lift (Write (v_int32 kTVMFFINone)) ;;;
  lift MessageDone.
End Reply.

(** ** threaded_session.cc: the in-process message queue *)

Module RingBuffer.
(** Modelled from the spec: [support::RingBuffer] (support/ring_buffer.h)
    is missing; the design calls it the shared in-memory ring buffer to
    which a send appends its length-prefixed bytes and from which a
    receive removes them, so it is a first-in first-out byte queue.
    Reading more than it holds is a failed check. *)
Definition Write (data : list byte) (rb : list byte) : list byte :=
  rb ++ data.

Definition Read (size : Z) (rb : list byte) : option (list byte * list byte) :=
  if size <=? Z.of_nat (length rb)
  then Some (take (Z.to_nat size) rb, drop (Z.to_nat size) rb)
  else None.
End RingBuffer.

(** [std::atomic<int>] arithmetic wraps. *)
Definition wrap_int (z : Z) : Z := sint 32 (z mod 2 ^ 32).

Module DiscoThreadedMessageQueue.

Record t := {
  write_buffer_ : list byte;
  read_buffer_ : list byte;
  read_offset_ : Z;
  dequeue_waiting_ : bool;
  msg_cnt_ : Z;
  ring_buffer_ : list byte
}.

Definition empty : t :=
  {| write_buffer_ := []; read_buffer_ := []; read_offset_ := 0;
     dequeue_waiting_ := false; msg_cnt_ := 0; ring_buffer_ := [] |}.

Definition set_write_buffer (b : list byte) (q : t) : t :=
  {| write_buffer_ := b; read_buffer_ := read_buffer_ q;
     read_offset_ := read_offset_ q; dequeue_waiting_ := dequeue_waiting_ q;
     msg_cnt_ := msg_cnt_ q; ring_buffer_ := ring_buffer_ q |}.

Definition set_read_offset (off : Z) (q : t) : t :=
  {| write_buffer_ := write_buffer_ q; read_buffer_ := read_buffer_ q;
     read_offset_ := off; dequeue_waiting_ := dequeue_waiting_ q;
     msg_cnt_ := msg_cnt_ q; ring_buffer_ := ring_buffer_ q |}.

(** [size_t Write(const void* data, size_t size)]: append to
    [write_buffer_]. *)
Definition Write (data : list byte) (q : t) : t :=
  set_write_buffer (write_buffer_ q ++ data) q.

(** [size_t Read(void* data, size_t size)]: copy from [read_buffer_] at
    [read_offset_], advance, then [ICHECK_LE(read_offset_, size())]. *)
Definition Read (size : Z) : M t (list byte) :=
  fun q =>
    let data :=
      take (Z.to_nat size) (drop (Z.to_nat (read_offset_ q)) (read_buffer_ q)) in
    let q' := set_read_offset (read_offset_ q + size) q in
    if read_offset_ q' <=? Z.of_nat (length (read_buffer_ q'))
    then Done data q'
    else Throw CheckFailed q'.

#[global] Instance queue_stream : Stream t :=
  {| stream_Write := Write; stream_Read := Read |}.

(** [MessageStart] has an empty body in threaded_session.cc; [MessageDone]
    is inherited from the protocol class, which does nothing there. *)
#[global] Instance queue_framed : Framed t :=
  {| MessageStart := fun _ q => q; MessageDone := fun q => q |}.

Section Queue.
(** The protocol extension ([DiscoProtocol], protocol.h) is a parameter. *)
Context `{TypeIndex} `{Protocol t}.

Definition CommitSendAndNotifyEnqueue (q : t) : t :=
  {| write_buffer_ := [];
   read_buffer_ := read_buffer_ q;
   read_offset_ := read_offset_ q;
   dequeue_waiting_ := dequeue_waiting_ q;
   msg_cnt_ := wrap_int (msg_cnt_ q + 1);
   ring_buffer_ := RingBuffer.Write (write_buffer_ q) (ring_buffer_ q) |}.

Definition Send (args : list TVMFFIAny) : M t unit :=
  ReturnPackedSeq args (Z.of_nat (length args)) ;;;
  lift CommitSendAndNotifyEnqueue.

(** The part of [DequeueNextPacket] under the lock, once the wait is
  over: one length prefix and that many bytes leave the ring buffer.
  [read_buffer_.resize(packet_nbytes)] comes before the second read, so
  when that read fails the buffer has its new size already: its first
  [packet_nbytes] characters, filled up with NUL. *)
Definition dequeue_locked : M t unit :=
  fun q =>
  let cnt := wrap_int (msg_cnt_ q - 1) in
  let fail rb buf :=
    Throw CheckFailed
      {| write_buffer_ := write_buffer_ q; read_buffer_ := buf;
         read_offset_ := read_offset_ q; dequeue_waiting_ := false;
         msg_cnt_ := cnt; ring_buffer_ := rb |} in
  match RingBuffer.Read 8 (ring_buffer_ q) with
  | None => fail (ring_buffer_ q) (read_buffer_ q)
  | Some (prefix, rb1) =>
      let packet_nbytes := to_uint64 prefix in
      match RingBuffer.Read packet_nbytes rb1 with
      | None =>
          fail rb1 (resize (Z.to_nat packet_nbytes) Byte.x00 (read_buffer_ q))
      | Some (packet, rb2) =>
          Done tt
            {| write_buffer_ := write_buffer_ q; read_buffer_ := packet;
               read_offset_ := 0; dequeue_waiting_ := false;
               msg_cnt_ := cnt; ring_buffer_ := rb2 |}
      end
  end.

(** [None]: the caller stays blocked on the condition variable, because
  [msg_cnt_] is not positive. *)
Definition DequeueNextPacket (q : t) : option (outcome t unit) :=
  if 0 <? msg_cnt_ q
  then Some ((dequeue_locked ;;; code <~ Read (sizeof t_RPCCode) ;; ret tt) q)
  else None.

Definition Recv (q : t) : option (outcome t (Z * list TVMFFIAny)) :=
  match DequeueNextPacket q with
  | None => None
  | Some (Throw e q') => Some (Throw e q')
  | Some (Done _ q') => Some (RecvPackedSeq q')
  end.
End Queue.
End DiscoThreadedMessageQueue.

(** ** A plain byte pipe

    The least channel: what is written at one end is read, in order, at the
    other. *)
Module Pipe.
Definition Read (size : Z) : M (list byte) (list byte) :=
  fun p =>
    if size <=? Z.of_nat (length p)
    then Done (take (Z.to_nat size) p) (drop (Z.to_nat size) p)
    else Throw (RPCError kReadError) p.

#[global] Instance pipe_stream : Stream (list byte) :=
  {| stream_Write := fun data p => p ++ data; stream_Read := Read |}.

#[global] Instance pipe_framed : Framed (list byte) :=
  {| MessageStart := fun _ p => p; MessageDone := fun p => p |}.

End Pipe.

(** A protocol extension that accepts no value outside the built-in
    cases. *)
Definition no_extension (S : Type) : Protocol S :=
  {| proto_WriteFFIAny := fun _ p => Throw Unsupported p;
     proto_ReadFFIAny := fun _ p => Throw Unsupported p;
     GetFFIAnyProtocolBytes := fun _ _ => 0 |}.

(** ** What the codec assumes of a channel

    A sink accepts bytes ([put]): writing a value adds its object
    representation, and two writes add the concatenation.  Both the byte
    channels and the counting [PackedSeqNumBytesGetter] are sinks. *)
Class Sink (Ch : Type) : Type := put : list byte -> Ch -> Ch.

Class SinkLaws (Ch : Type) `{TChannel Ch} `{Sink Ch} : Prop := {
  put_app : forall b1 b2 s, put b2 (put b1 s) = put (b1 ++ b2) s;
  Write_put : forall v s, Write v s = put (object_repr v) s;
  WriteArray_put : forall t vs s,
    Forall (fun v => ctype_of v = t) vs ->
    WriteArray t vs s = put (concat (map object_repr vs)) s
}.

(** A source hands out the unread bytes ([readable]) in order; [consume]
    moves the read position.  [valid] singles out the states in which the
    read position lies inside the data. *)
Class Source (Ch : Type) : Type := {
  valid : Ch -> Prop;
  readable : Ch -> list byte;
  consume : nat -> Ch -> Ch
}.

Class SourceLaws (Ch : Type) `{Stream Ch} `{Source Ch} : Prop := {
  consume_O : forall s, consume 0 s = s;
  consume_add : forall n m s, consume m (consume n s) = consume (n + m) s;
  Read_readable : forall n s,
    valid s -> 0 <= n <= Z.of_nat (length (readable s)) ->
    stream_Read n s
    = Done (take (Z.to_nat n) (readable s)) (consume (Z.to_nat n) s);
  readable_consume : forall n s,
    valid s -> readable (consume n s) = drop n (readable s);
  valid_consume : forall n s,
    valid s -> (n <= length (readable s))%nat -> valid (consume n s)
}.

(** A channel on which what is written becomes readable, after what was
    already there. *)
Class ChannelLaws (Ch : Type) `{Stream Ch} `{Protocol Ch}
    `{Sink Ch} `{Source Ch} : Prop := {
  channel_sink :: SinkLaws Ch;
  channel_source :: SourceLaws Ch;
  valid_put : forall bs s, valid s -> valid (put bs s);
  readable_put : forall bs s, readable (put bs s) = readable s ++ bs
}.

#[export] Instance getter_sink (S : Type) : Sink (PackedSeqNumBytesGetter S) :=
  fun bs => getter_add (Z.of_nat (length bs)).

#[export] Instance pipe_sink : Sink (list byte) := fun bs p => p ++ bs.

#[export] Instance pipe_source : Source (list byte) :=
  {| valid := fun _ => True; readable := fun p => p; consume := @drop byte |}.

#[export] Instance queue_sink : Sink DiscoThreadedMessageQueue.t :=
  DiscoThreadedMessageQueue.Write.

#[export] Instance queue_source : Source DiscoThreadedMessageQueue.t :=
  {| valid := fun q =>
       0 <= DiscoThreadedMessageQueue.read_offset_ q
         <= Z.of_nat (length (DiscoThreadedMessageQueue.read_buffer_ q));
     readable := fun q =>
       drop (Z.to_nat (DiscoThreadedMessageQueue.read_offset_ q))
            (DiscoThreadedMessageQueue.read_buffer_ q);
     consume := fun n q =>
       DiscoThreadedMessageQueue.set_read_offset
         (DiscoThreadedMessageQueue.read_offset_ q + Z.of_nat n) q |}.

(** After [m] bytes of [s0] have been consumed, [rest] is what remains. *)
Definition remains {Ch : Type} `{Source Ch} (s0 : Ch) (m : nat)
    (rest : list byte) : Prop :=
  valid (consume m s0) /\ readable (consume m s0) = rest.

(** ** The wire image of an argument

    The bytes [SendArg] has handed to the channel when it returns or
    raises, for the built-in cases. *)

Definition array_repr (vs : list cvalue) : list byte :=
  concat (map object_repr vs).

Definition DLTensor_fields_wire (arr : DLTensor) : list byte :=
  object_repr (v_uint64 (data arr))
  ++ object_repr (v_DLDevice (device arr))
  ++ object_repr (v_int32 (ndim arr))
  ++ object_repr (v_DLDataType (dtype arr))
  ++ array_repr (map v_int64 (take (Z.to_nat (size_t (ndim arr))) (shape arr))).

Definition payload_wire (client_mode : bool) (a : TVMFFIAny) : list byte :=
  match a with
  | ANone => []
  | ABool v | AInt v | AFloat v => object_repr (v_int64 v)
  | AOpaquePtr handle => object_repr (v_int64 handle)
  | ADataType d => object_repr (v_DLDataType d) ++ object_repr (v_int32 0)
  | ADevice d => object_repr (v_DLDevice d)
  | AFunction handle | AModule handle =>
      if client_mode then object_repr (v_uint64 handle) else []
  | ANDArray _ => []
  | ADLTensorPtr arr =>
      DLTensor_fields_wire arr
      ++ match strides arr with
         | Some _ => []
         | None => object_repr (v_uint64 (byte_offset arr))
         end
  | ARawStr s =>
      object_repr (v_uint64 (StrLength s))
      ++ array_repr (map v_char (take (Z.to_nat (StrLength s)) s))
  | AByteArrayPtr b =>
      object_repr (v_uint64 (ba_size b))
      ++ array_repr (map v_char (take (Z.to_nat (size_t (ba_size b))) (ba_data b)))
  | AOther _ _ => []
  end.

Definition arg_wire `{TypeIndex} (client_mode : bool) (a : TVMFFIAny) : list byte :=
  object_repr (v_int32 (type_index a)) ++ payload_wire client_mode a.

(** The status with which [SendArg] raises, if it does. *)
Definition rejects (client_mode : bool) (a : TVMFFIAny) : option RPCServerStatus :=
  match a with
  | AFunction _ | AModule _ =>
      if client_mode then None else Some kInvalidTypeCodeObject
  | ANDArray _ => Some kInvalidTypeCodeNDArray
  | ADLTensorPtr arr =>
      match strides arr with
      | Some _ => Some kInvalidDLTensorFieldStride
      | None => None
      end
  | _ => None
  end.

(** The values [SendPackedSeq] handles itself (a case label, not the
    [default] branch). *)
Definition builtin (a : TVMFFIAny) : Prop :=
  match a with AOther _ _ => False | _ => True end.

(** A value the encoder hands on without raising by itself: one of the
    kinds it has a case label for, or one the channel's [WriteFFIAny]
    takes, in whatever state the channel is. *)
Definition accepted {Ch : Type} `{TChannel Ch} (a : TVMFFIAny) : Prop :=
  builtin a \/ forall s : Ch, exists s', WriteFFIAny a s = Done tt s'.

(** The bytes written for a whole sequence, up to the first argument that
    is rejected, and the status raised there. *)
Fixpoint args_wire `{TypeIndex} (client_mode : bool) (args : list TVMFFIAny)
    : list byte :=
  match args with
  | [] => []
  | a :: rest =>
      arg_wire client_mode a
      ++ match rejects client_mode a with
         | Some _ => []
         | None => args_wire client_mode rest
         end
  end.

Fixpoint args_status (client_mode : bool) (args : list TVMFFIAny)
    : option RPCServerStatus :=
  match args with
  | [] => None
  | a :: rest =>
      match rejects client_mode a with
      | Some st => Some st
      | None => args_status client_mode rest
      end
  end.

Definition seq_wire `{TypeIndex} (client_mode : bool) (args : list TVMFFIAny)
    : list byte :=
  object_repr (v_int32 (Z.of_nat (length args))) ++ args_wire client_mode args.

(** How a computation ends, given whether it raises. *)
Definition finish {Ch} (st : option RPCServerStatus) (s : Ch) : outcome Ch unit :=
  match st with
  | None => Done tt s
  | Some e => Throw (RPCError e) s
  end.

(** The case labels of the [switch] in [RecvPackedSeq]. *)
Definition recv_labels `{TypeIndex} : list Z :=
  [kTVMFFINone; kTVMFFIBool; kTVMFFIInt; kTVMFFIFloat; kTVMFFIOpaquePtr;
   kTVMFFIDataType; kTVMFFIDevice; kTVMFFIFunction; kTVMFFIModule;
   kTVMFFIRawStr; kTVMFFIByteArrayPtr; kTVMFFIDLTensorPtr].

(** A packet: the length prefix counts the command code and the payload
    that follow it. *)
Definition packet (cmd : RPCCode) (payload : list byte) : list byte :=
  let body := object_repr (v_RPCCode cmd) ++ payload in
  object_repr (v_uint64 (Z.of_nat (length body))) ++ body.

(** The values [SendPackedSeq] refuses. *)
Definition offending (client_mode : bool) (a : TVMFFIAny) : Prop :=
  match a with
  | ANDArray _ => True
  | AFunction _ | AModule _ => client_mode = false
  | ADLTensorPtr arr => strides arr <> None
  | _ => False
  end.

(** A tensor descriptor without strides; any other value. *)
Definition dense (a : TVMFFIAny) : Prop :=
  match a with
  | ADLTensorPtr arr => strides arr = None
  | _ => True
  end.

(** What has been written of a refused argument behind its type index. *)
Definition written_before_error (a : TVMFFIAny) : list byte :=
  match a with
  | ADLTensorPtr arr => DLTensor_fields_wire arr
  | _ => []
  end.

(** The statement that a refused argument leaves no payload byte behind:
    whenever the encoder raises at [a], the first argument it refuses, the
    channel holds the count, the arguments before [a] and the type index
    of [a], nothing more. *)
Definition no_payload_when_refused `{TypeIndex} `{Protocol (list byte)}
    (client_mode : bool) (args : list TVMFFIAny) : Prop :=
  forall pre a post st buf,
    args = pre ++ a :: post ->
    Forall (fun x => ~ offending client_mode x) pre ->
    offending client_mode a ->
    SendPackedSeq args (Z.of_nat (length args)) client_mode ([] : list byte)
      = Throw (RPCError st) buf ->
    buf = object_repr (v_int32 (Z.of_nat (length args)))
          ++ args_wire client_mode pre
          ++ object_repr (v_int32 (type_index a)).

(** A sample assignment of the type indices: the static kinds from zero,
    the object kinds from 64. *)
#[export] Instance sample_type_index : TypeIndex :=
  {| kTVMFFINone := 0;
     kTVMFFIInt := 1;
     kTVMFFIBool := 2;
     kTVMFFIFloat := 3;
     kTVMFFIOpaquePtr := 4;
     kTVMFFIDataType := 5;
     kTVMFFIDevice := 6;
     kTVMFFIDLTensorPtr := 7;
     kTVMFFIRawStr := 8;
     kTVMFFIByteArrayPtr := 9;
     kTVMFFIStaticObjectBegin := 64;
     kTVMFFIFunction := 68;
     kTVMFFINDArray := 70;
     kTVMFFIModule := 73;
     case_labels_distinct :=
       ltac:(apply (bool_decide_unpack _); vm_compute; exact I);
     case_labels_int32 := ltac:(repeat (constructor; [lia |]); constructor) |}.

(** Sample values. *)
Definition sample_tensor : DLTensor :=
  {| data := 4096;
     device := {| device_type := 2; device_id := 0 |};
     ndim := 2;
     dtype := {| code := 2; bits := 32; lanes := 1 |};
     shape := [3; 4];
     strides := None;
     byte_offset := 16 |}.

Definition strided_tensor : DLTensor :=
  {| data := 4096;
     device := {| device_type := 2; device_id := 0 |};
     ndim := 2;
     dtype := {| code := 2; bits := 32; lanes := 1 |};
     shape := [3; 4];
     strides := Some [4; 1];
     byte_offset := 16 |}.

Definition sample_args : list TVMFFIAny :=
  [ANone; ABool 1; AInt (-7); AFloat 4614253070214989087;
   AOpaquePtr 140737488355327;
   ADataType {| code := 0; bits := 64; lanes := 1 |};
   ADevice {| device_type := 1; device_id := 3 |};
   ADLTensorPtr sample_tensor;
   ARawStr [Byte.x68; Byte.x69; Byte.x00];
   AByteArrayPtr {| ba_data := [Byte.x00; Byte.xff]; ba_size := 2 |}].

(** ** Representable values

    The ranges of the fields, and the shape of the data behind the
    pointers, for the ten kinds of value the codec carries both ways. *)

Definition int32_range (z : Z) : Prop := - 2 ^ 31 <= z < 2 ^ 31.
Definition int64_range (z : Z) : Prop := - 2 ^ 63 <= z < 2 ^ 63.
Definition uint64_range (z : Z) : Prop := 0 <= z < 2 ^ 64.

Definition DLDevice_ok (d : DLDevice) : Prop :=
  int32_range (device_type d) /\ int32_range (device_id d).

Definition DLDataType_ok (d : DLDataType) : Prop :=
  0 <= code d < 2 ^ 8 /\ 0 <= bits d < 2 ^ 8 /\ 0 <= lanes d < 2 ^ 16.

Definition DLTensor_ok (arr : DLTensor) : Prop :=
  uint64_range (data arr)
  /\ DLDevice_ok (device arr)
  /\ 0 <= ndim arr < 2 ^ 31
  /\ ndim arr = Z.of_nat (length (shape arr))
  /\ DLDataType_ok (dtype arr)
  /\ Forall int64_range (shape arr)
  /\ strides arr = None
  /\ uint64_range (byte_offset arr).

Definition representable (a : TVMFFIAny) : Prop :=
  match a with
  | ANone => True
  | ABool v | AInt v | AFloat v => int64_range v
  | AOpaquePtr handle => uint64_range handle
  | ADataType d => DLDataType_ok d
  | ADevice d => DLDevice_ok d
  | ADLTensorPtr arr => DLTensor_ok arr
  | ARawStr s =>
      (* the memory is the string and its terminator *)
      StrLength s + 1 = Z.of_nat (length s) /\ Z.of_nat (length s) <= 2 ^ 64
  | AByteArrayPtr b =>
      ba_size b = Z.of_nat (length (ba_data b)) /\ ba_size b < 2 ^ 64
  | AFunction _ | AModule _ | ANDArray _ | AOther _ _ => False
  end.

(** ** Schedules of sends and receives on one queue *)

(** A sequence the queue can carry: representable values, a count that
    fits an [int], a packet that fits its 64-bit length. *)
Definition sendable `{TypeIndex} (args : list TVMFFIAny) : Prop :=
  Forall representable args
  /\ Z.of_nat (length args) < 2 ^ 31
  /\ Z.of_nat (length (seq_wire false args)) + sizeof t_RPCCode < 2 ^ 64.

(** The body of the packet of a sequence: what follows the length. *)
Definition packet_body `{TypeIndex} (args : list TVMFFIAny) : list byte :=
  object_repr (v_RPCCode kReturn) ++ seq_wire false args.

(** The queue holds exactly the packets of [pending], oldest first, and
    nothing half-written. *)
Definition holds_packets `{TypeIndex} (pending : list (list TVMFFIAny))
    (q : DiscoThreadedMessageQueue.t) : Prop :=
  DiscoThreadedMessageQueue.write_buffer_ q = []
  /\ DiscoThreadedMessageQueue.msg_cnt_ q = Z.of_nat (length pending)
  /\ DiscoThreadedMessageQueue.ring_buffer_ q
     = concat (map (fun args => packet kReturn (seq_wire false args)) pending).

Inductive queue_op : Type :=
| OpSend (args : list TVMFFIAny)
| OpRecv.

(** What one [Recv] delivered: the sequence, and the read buffer and read
    position it left, that is, the bytes the decoder was given and how many
    of them it took. *)
Record delivery : Type := {
  delivered : list TVMFFIAny;
  seen : list byte;
  taken : Z
}.

(** Runs a schedule.  [None] when a receive would block or an operation
    raises. *)
Fixpoint run_queue `{TypeIndex} `{Protocol DiscoThreadedMessageQueue.t}
    (ops : list queue_op) (q : DiscoThreadedMessageQueue.t)
    : option (list delivery * DiscoThreadedMessageQueue.t) :=
  match ops with
  | [] => Some ([], q)
  | OpSend args :: rest =>
      match DiscoThreadedMessageQueue.Send args q with
      | Done _ q' => run_queue rest q'
      | Throw _ _ => None
      end
  | OpRecv :: rest =>
      match DiscoThreadedMessageQueue.Recv q with
      | Some (Done (_, args) q') =>
          match run_queue rest q' with
          | Some (ds, q'') =>
              Some ({| delivered := args;
                       seen := DiscoThreadedMessageQueue.read_buffer_ q';
                       taken := DiscoThreadedMessageQueue.read_offset_ q' |}
                    :: ds, q'')
          | None => None
          end
      | _ => None
      end
  end.

(** The sequences a schedule sends, in order; the number of receives. *)
Fixpoint sent (ops : list queue_op) : list (list TVMFFIAny) :=
  match ops with
  | [] => []
  | OpSend args :: rest => args :: sent rest
  | OpRecv :: rest => sent rest
  end.

Fixpoint recvs (ops : list queue_op) : nat :=
  match ops with
  | [] => 0
  | OpSend _ :: rest => recvs rest
  | OpRecv :: rest => S (recvs rest)
  end.

(** No receive is issued while nothing is pending ([pending] packets are
    in the queue at the start). *)
Fixpoint never_blocks (ops : list queue_op) (pending : nat) : bool :=
  match ops with
  | [] => true
  | OpSend _ :: rest => never_blocks rest (S pending)
  | OpRecv :: rest =>
      match pending with
      | O => false
      | S n => never_blocks rest n
      end
  end.

Definition delivery_of `{TypeIndex} (args : list TVMFFIAny) : delivery :=
  {| delivered := args;
     seen := packet_body args;
     taken := Z.of_nat (length (packet_body args)) |}.

(** ** threaded_session.cc: the session *)

(** The two queues of one worker's channel. *)
Record DiscoThreadChannel : Type := {
  controler_to_worker_ : DiscoThreadedMessageQueue.t;
  worker_to_controler_ : DiscoThreadedMessageQueue.t
}.

(** The fields of [DiscoWorker] the modelled files set or read. *)
Record DiscoWorker : Type := {
  worker_id : Z;
  num_workers : Z;
  num_groups : Z;
  register_file : list TVMFFIAny
}.

Record DiscoWorkerThread : Type := {
  channel : DiscoThreadChannel;
  worker : DiscoWorker
}.

(** [DiscoWorkerThread(worker_id, num_workers, num_groups, data)]: a fresh
    channel and a worker wired to it. *)
Definition DiscoWorkerThread_new (worker_id num_workers num_groups : Z)
    : DiscoWorkerThread :=
  {| channel :=
       {| controler_to_worker_ := DiscoThreadedMessageQueue.empty;
          worker_to_controler_ := DiscoThreadedMessageQueue.empty |};
     worker :=
       {| worker_id := worker_id; num_workers := num_workers;
          num_groups := num_groups; register_file := [] |} |}.

Record ThreadedSessionObj : Type := {
  workers_ : list DiscoWorkerThread
}.

(** The constructor: [for (int i = 0; i < num_workers; ++i)
    workers_.emplace_back(i, num_workers, num_groups, data)]. *)
Definition ThreadedSessionObj_new (num_workers num_groups : Z)
    : ThreadedSessionObj :=
  {| workers_ :=
       map (fun i => DiscoWorkerThread_new i num_workers num_groups)
           (seqZ 0 num_workers) |}.

Definition GetNumWorkers (n : ThreadedSessionObj) : Z :=
  Z.of_nat (length (workers_ n)).

(** How a constructor ends: with the object, with a failed [CHECK], or
    outside what C++ defines (here, [%] by zero or [INT_MIN % -1]). *)
Inductive construction (A : Type) : Type :=
| Constructed (a : A)
| CheckFailure
| UndefinedBehaviour.
Arguments Constructed {A} a.
Arguments CheckFailure {A}.
Arguments UndefinedBehaviour {A}.

(** [Session::ThreadedSession]: [CHECK_EQ(num_workers % num_group, 0)],
    then the object.  [%] on [int] truncates towards zero ([Z.rem]). *)
Definition ThreadedSession (num_workers num_group : Z)
    : construction ThreadedSessionObj :=
  if (num_group =? 0) || ((num_workers =? - 2 ^ 31) && (num_group =? -1))
  then UndefinedBehaviour
  else if Z.rem num_workers num_group =? 0
       then Constructed (ThreadedSessionObj_new num_workers num_group)
       else CheckFailure.

(** [v.at(i)]: the element, or an exception when [i], converted to
    [size_t], is out of range. *)
Definition vector_at {A : Type} (v : list A) (i : Z) : option A :=
  if i <? 0 then None else v !! Z.to_nat i.

Definition set_worker (worker_id : Z) (w : DiscoWorkerThread)
    (n : ThreadedSessionObj) : ThreadedSessionObj :=
  {| workers_ := <[Z.to_nat worker_id := w]> (workers_ n) |}.

Section ThreadedSessionCalls.
Context `{TypeIndex} `{Protocol DiscoThreadedMessageQueue.t}.

(** What executing one decoded command does to the worker that executes
    it.  The commands and their dispatch are outside the modelled files. *)
Variable execute : list TVMFFIAny -> DiscoWorker -> DiscoWorker.

(** [SendPacked]: [workers_.at(worker_id).channel->Send(args)], a send on
    the request queue of that worker.  [None] is a raised error. *)
Definition ThreadedSession_SendPacked (worker_id : Z) (args : list TVMFFIAny)
    (n : ThreadedSessionObj) : option ThreadedSessionObj :=
  match vector_at (workers_ n) worker_id with
  | None => None
  | Some w =>
      match DiscoThreadedMessageQueue.Send args
              (controler_to_worker_ (channel w)) with
      | Throw _ _ => None
      | Done _ q =>
          Some (set_worker worker_id
                  {| channel :=
                       {| controler_to_worker_ := q;
                          worker_to_controler_ :=
                            worker_to_controler_ (channel w) |};
                     worker := worker w |} n)
      end
  end.

Fixpoint send_each (worker_id : Z) (cmds : list (list TVMFFIAny))
    (n : ThreadedSessionObj) : option ThreadedSessionObj :=
  match cmds with
  | [] => Some n
  | c :: rest =>
      match ThreadedSession_SendPacked worker_id c n with
      | None => None
      | Some n' => send_each worker_id rest n'
      end
  end.

(** Modelled from the spec: [DiscoWorker::MainLoop] (disco_worker.cc) is
    missing.  The worker's receive loop blocks on [Recv] from the request
    side of its channel, decodes a command and executes it, side effects
    on the register file included, before it takes the next one.  [fuel]
    bounds the number of commands taken. *)
Fixpoint MainLoop_drain (fuel : nat) (w : DiscoWorkerThread)
    : DiscoWorkerThread :=
  match fuel with
  | O => w
  | S fuel' =>
      match DiscoThreadedMessageQueue.Recv
              (controler_to_worker_ (channel w)) with
      | Some (Done (_, args) q) =>
          MainLoop_drain fuel'
            {| channel :=
                 {| controler_to_worker_ := q;
                    worker_to_controler_ :=
                      worker_to_controler_ (channel w) |};
               worker := execute args (worker w) |}
      | _ => w
      end
  end.

(** Modelled from the spec: [BcastSessionObj::SyncWorker]
    (bcast_session.cc) is missing.  It is the barrier of the design: once
    it returns, all commands enqueued before it for that worker have
    completed.  The pending commands are the [msg_cnt_] packets of the
    request queue. *)
Definition SyncWorker (worker_id : Z) (n : ThreadedSessionObj)
    : option ThreadedSessionObj :=
  match vector_at (workers_ n) worker_id with
  | None => None
  | Some w =>
      let pending :=
        Z.to_nat (DiscoThreadedMessageQueue.msg_cnt_
                    (controler_to_worker_ (channel w))) in
      Some (set_worker worker_id (MainLoop_drain pending w) n)
  end.

(** Modelled from the spec: [DiscoWorker::SetRegister] (disco_worker.cc)
    is missing.  The register file maps a register id to a value, which
    the controller may overwrite; an id outside the file is an error. *)
Definition SetRegister (reg_id : Z) (value : TVMFFIAny) (d : DiscoWorker)
    : option DiscoWorker :=
  if (0 <=? reg_id) && (reg_id <? Z.of_nat (length (register_file d)))
  then Some {| worker_id := worker_id d; num_workers := num_workers d;
               num_groups := num_groups d;
               register_file := <[Z.to_nat reg_id := value]> (register_file d) |}
  else None.

(** [DebugGetFromRemote]: the barrier, then
    [workers_.at(worker_id).worker->register_file.at(reg_id)]. *)
Definition DebugGetFromRemote (reg_id worker_id : Z) (n : ThreadedSessionObj)
    : option (TVMFFIAny * ThreadedSessionObj) :=
  match SyncWorker worker_id n with
  | None => None
  | Some n1 =>
      match vector_at (workers_ n1) worker_id with
      | None => None
      | Some w =>
          match vector_at (register_file (worker w)) reg_id with
          | None => None
          | Some v => Some (v, n1)
          end
      end
  end.

(** [DebugSetRegister]: the barrier, then
    [workers_.at(worker_id).worker->SetRegister(reg_id, value)]. *)
Definition DebugSetRegister (reg_id : Z) (value : TVMFFIAny) (worker_id : Z)
    (n : ThreadedSessionObj) : option ThreadedSessionObj :=
  match SyncWorker worker_id n with
  | None => None
  | Some n1 =>
      match vector_at (workers_ n1) worker_id with
      | None => None
      | Some w =>
          match SetRegister reg_id value (worker w) with
          | None => None
          | Some d =>
              Some (set_worker worker_id
                      {| channel := channel w; worker := d |} n1)
          end
      end
  end.
End ThreadedSessionCalls.

(** The worker after it has executed the commands [cmds] in order. *)
Definition executed (execute : list TVMFFIAny -> DiscoWorker -> DiscoWorker)
    (cmds : list (list TVMFFIAny)) (d : DiscoWorker) : DiscoWorker :=
  fold_left (fun d c => execute c d) cmds d.

(** A worker thread whose request queue is [q]. *)
Definition with_request_queue (q : DiscoThreadedMessageQueue.t)
    (d : DiscoWorker) (w : DiscoWorkerThread) : DiscoWorkerThread :=
  {| channel :=
       {| controler_to_worker_ := q;
          worker_to_controler_ := worker_to_controler_ (channel w) |};
     worker := d |}.

(** A sample command set: [[AInt r; v]] stores [v] in register [r], any
    other command leaves the worker as it is. *)
Definition sample_execute (args : list TVMFFIAny) (d : DiscoWorker)
    : DiscoWorker :=
  match args with
  | [AInt r; v] =>
      {| worker_id := worker_id d; num_workers := num_workers d;
         num_groups := num_groups d;
         register_file := <[Z.to_nat r := v]> (register_file d) |}
  | _ => d
  end.

(** A worker with four registers and one command pending. *)
Definition sample_worker : DiscoWorkerThread :=
  {| channel :=
       {| controler_to_worker_ :=
            match DiscoThreadedMessageQueue.Send (H := sample_type_index)
                    (H0 := no_extension DiscoThreadedMessageQueue.t)
                    [AInt 0; AInt 5] DiscoThreadedMessageQueue.empty with
            | Done _ q => q
            | Throw _ q => q
            end;
          worker_to_controler_ := DiscoThreadedMessageQueue.empty |};
     worker :=
       {| worker_id := 2; num_workers := 3; num_groups := 1;
          register_file := [ANone; ANone; ANone; ANone] |} |}.

Definition sample_session : ThreadedSessionObj :=
  {| workers_ :=
       [DiscoWorkerThread_new 0 3 1; DiscoWorkerThread_new 1 3 1;
        sample_worker] |}.

(** ** socket_session.cc: controller and relay *)

(** How a call ends: with a value, with a fatal error ([LOG(FATAL)], a
    failed check, an exception), or blocked for ever on a receive. *)
Inductive result (A : Type) : Type :=
| Ok (a : A)
| Fatal
| Blocked.
Arguments Ok {A} a.
Arguments Fatal {A}.
Arguments Blocked {A}.

(** [DiscoAction::kShutDown] is declared outside the modelled files. *)
Class DiscoAction : Type := { kShutDown : Z }.

(** [enum class DiscoSocketAction]: [kShutdown] is [DiscoAction::kShutDown],
    the next two enumerators follow it. *)
Module DiscoSocketAction.
Definition kShutdown `{DiscoAction} : Z := kShutDown.
Definition kSend `{DiscoAction} : Z := kShutDown + 1.
Definition kReceive `{DiscoAction} : Z := kShutDown + 2.
End DiscoSocketAction.

(** The session interface, as far as socket_session.cc calls it on its
    local session. *)
Class BcastSession (L : Type) : Type := {
  BroadcastPacked : list TVMFFIAny -> L -> result L;
  SendPacked : Z -> list TVMFFIAny -> L -> result L;
  RecvReplyPacked : Z -> L -> result (list TVMFFIAny * L);
  Shutdown : L -> result L;
  (** [create_socket_session_local_workers] followed by
      [socket_session_init_workers(num_nodes, node_id, num_groups,
      num_workers_per_node)]. *)
  InitLocalSession : Z -> Z -> Z -> Z -> L
}.

Module TCPSocket.
(** Modelled from the spec: [TCPSocket] (support/socket.h) is missing.  A
    socket object holds a descriptor; a closed one holds the invalid
    descriptor.  Closing a closed socket is the double close the design
    rules out, an error. *)
Record t : Type := { sockfd : Z }.

Definition INVALID_SOCKET : Z := -1.

Definition IsClosed (s : t) : bool := sockfd s =? INVALID_SOCKET.
End TCPSocket.

(** The two ends of a connection. *)
Inductive endpoint : Type := ControllerEnd | RelayEnd.

(** Modelled from the spec: [DiscoStreamMessageQueue] (message_queue.h) is
    missing.  The same packet framing travels over the connected stream
    socket and the stream delivers in order, so each direction of a
    connection is the list of packed sequences sent and not yet received. *)
Record connection : Type := {
  to_relay : list (list TVMFFIAny);
  to_controller : list (list TVMFFIAny)
}.

Record DiscoSocketChannel : Type := {
  channel_socket_ : TCPSocket.t;
  channel_end : endpoint
}.

Module RemoteSocketSession.
Record t (L : Type) : Type := {
  socket_ : TCPSocket.t;
  local_session_ : L;
  channel_ : DiscoSocketChannel;
  num_nodes_ : Z;
  node_id_ : Z;
  num_groups_ : Z;
  num_workers_per_node_ : Z
}.
Arguments socket_ {L} _.
Arguments local_session_ {L} _.
Arguments channel_ {L} _.
Arguments num_nodes_ {L} _.
Arguments node_id_ {L} _.
Arguments num_groups_ {L} _.
Arguments num_workers_per_node_ {L} _.
End RemoteSocketSession.

Module SocketSessionObj.
Record t (L : Type) : Type := {
  num_nodes_ : Z;
  num_workers_per_node_ : Z;
  socket_ : TCPSocket.t;
  remote_sockets_ : list TCPSocket.t;
  remote_channels_ : list DiscoSocketChannel;
  local_session_ : L
}.
Arguments num_nodes_ {L} _.
Arguments num_workers_per_node_ {L} _.
Arguments socket_ {L} _.
Arguments remote_sockets_ {L} _.
Arguments remote_channels_ {L} _.
Arguments local_session_ {L} _.
End SocketSessionObj.

(** What lies outside the two kinds of object: the connections by
    descriptor, the relay process at the far end of a connection, the
    connections made and not yet accepted, and a record of the descriptors
    closed and of the calls of [Socket::Finalize]. *)
Record World (L : Type) : Type := {
  links : gmap Z connection;
  relays : gmap Z (RemoteSocketSession.t L);
  backlog : list Z;
  closed : list Z;
  finalized : Z
}.
Arguments links {L} _.
Arguments relays {L} _.
Arguments backlog {L} _.
Arguments closed {L} _.
Arguments finalized {L} _.

Definition set_links {L} (f : gmap Z connection -> gmap Z connection)
    (w : World L) : World L :=
  {| links := f (links w); relays := relays w; backlog := backlog w;
     closed := closed w; finalized := finalized w |}.

Definition set_relays {L}
    (f : gmap Z (RemoteSocketSession.t L) -> gmap Z (RemoteSocketSession.t L))
    (w : World L) : World L :=
  {| links := links w; relays := f (relays w); backlog := backlog w;
     closed := closed w; finalized := finalized w |}.

(** [v[i]] of a vector; out of range it is undefined, here an error. *)
Definition vector_index {A : Type} (v : list A) (i : Z) : result A :=
  match vector_at v i with
  | Some x => Ok x
  | None => Fatal
  end.

Section SocketSession.
Context `{DiscoAction} {L : Type} `{BcastSession L}.

(** *** DiscoSocketChannel *)

(** [message_queue_.Send(args)], which both [Send] and [Reply] call:
    the sequence joins those travelling away from this end. *)
Definition channel_write (ch : DiscoSocketChannel) (args : list TVMFFIAny)
    (w : World L) : result (World L) :=
  let fd := TCPSocket.sockfd (channel_socket_ ch) in
  match links w !! fd with
  | None => Fatal
  | Some c =>
      let c' :=
        match channel_end ch with
        | ControllerEnd =>
            {| to_relay := to_relay c ++ [args];
               to_controller := to_controller c |}
        | RelayEnd =>
            {| to_relay := to_relay c;
               to_controller := to_controller c ++ [args] |}
        end in
      Ok (set_links (insert fd c') w)
  end.

(** [message_queue_.Recv()], which both [Recv] and [RecvReply] call: the
    oldest sequence travelling towards this end, if there is one. *)
Definition channel_read (ch : DiscoSocketChannel) (w : World L)
    : result (list TVMFFIAny * World L) :=
  let fd := TCPSocket.sockfd (channel_socket_ ch) in
  match links w !! fd with
  | None => Fatal
  | Some c =>
      match channel_end ch with
      | ControllerEnd =>
          match to_controller c with
          | [] => Blocked
          | args :: rest =>
              Ok (args, set_links (insert fd {| to_relay := to_relay c;
                                                to_controller := rest |}) w)
          end
      | RelayEnd =>
          match to_relay c with
          | [] => Blocked
          | args :: rest =>
              Ok (args, set_links (insert fd {| to_relay := rest;
                                                to_controller := to_controller c |}) w)
          end
      end
  end.

Definition channel_Send := channel_write.
Definition channel_Reply := channel_write.
Definition channel_Recv := channel_read.
Definition channel_RecvReply := channel_read.

(** *** RemoteSocketSession *)

(** How one turn of the loop of [MainLoop] ends: the loop goes on, the
    loop returns, or the turn is not completed ([Halt]). *)
Inductive turn : Type :=
| Continue (r : RemoteSocketSession.t L) (reply : option (list TVMFFIAny))
| Return (r : RemoteSocketSession.t L)
| Halt.

Definition with_local (l : L) (r : RemoteSocketSession.t L)
    : RemoteSocketSession.t L :=
  {| RemoteSocketSession.socket_ := RemoteSocketSession.socket_ r;
     RemoteSocketSession.local_session_ := l;
     RemoteSocketSession.channel_ := RemoteSocketSession.channel_ r;
     RemoteSocketSession.num_nodes_ := RemoteSocketSession.num_nodes_ r;
     RemoteSocketSession.node_id_ := RemoteSocketSession.node_id_ r;
     RemoteSocketSession.num_groups_ := RemoteSocketSession.num_groups_ r;
     RemoteSocketSession.num_workers_per_node_ :=
       RemoteSocketSession.num_workers_per_node_ r |}.

(** The body of the loop, given the sequence [channel_->Recv()] returned.
    [args[0].cast<int>()] and [args[1].cast<int>()] need two leading
    integers.  An [int] is a value of [Z] here as everywhere, and the
    conversion hands the integer on as it is: this is the code on integers
    within the range of [int]. *)
Definition MainLoop_body (args : list TVMFFIAny)
    (r : RemoteSocketSession.t L) : turn :=
  match args with
  | AInt action :: AInt worker_id :: payload =>
      let local_worker_id :=
        worker_id
        - RemoteSocketSession.node_id_ r
          * RemoteSocketSession.num_workers_per_node_ r in
      let local := RemoteSocketSession.local_session_ r in
      if action =? DiscoSocketAction.kSend then
        match (if worker_id =? -1
               then BroadcastPacked payload local
               else SendPacked local_worker_id payload local) with
        | Ok l => Continue (with_local l r) None
        | _ => Halt
        end
      else if action =? DiscoSocketAction.kReceive then
        match RecvReplyPacked local_worker_id local with
        | Ok (reply, l) => Continue (with_local l r) (Some reply)
        | _ => Halt
        end
      else if action =? DiscoSocketAction.kShutdown then
        match Shutdown local with
        | Ok l => Return (with_local l r)
        | _ => Halt
        end
      else Halt
  | _ => Halt
  end.

(** How the loop stands once it has nothing more to receive. *)
Inductive loop_end : Type :=
| AwaitingRecv (r : RemoteSocketSession.t L) (replies : list (list TVMFFIAny))
| Returned (r : RemoteSocketSession.t L) (replies : list (list TVMFFIAny))
    (unread : list (list TVMFFIAny))
| Halted (replies : list (list TVMFFIAny)).

(** [MainLoop] over the sequences that have arrived: one turn per
    sequence, until the shutdown action returns or nothing is left and the
    loop blocks in [channel_->Recv()]. *)
Fixpoint MainLoop (inbox : list (list TVMFFIAny)) (r : RemoteSocketSession.t L)
    (replies : list (list TVMFFIAny)) : loop_end :=
  match inbox with
  | [] => AwaitingRecv r replies
  | args :: inbox' =>
      match MainLoop_body args r with
      | Continue r' None => MainLoop inbox' r' replies
      | Continue r' (Some reply) => MainLoop inbox' r' (replies ++ [reply])
      | Return r' => Returned r' replies inbox'
      | Halt => Halted replies
      end
  end.

(** The relay at the far end of connection [fd] runs until it blocks. *)
Definition run_relay (fd : Z) (w : World L) : World L :=
  match relays w !! fd, links w !! fd with
  | Some r, Some c =>
      match MainLoop (to_relay c) r [] with
      | AwaitingRecv r' replies =>
          set_relays (insert fd r')
            (set_links (insert fd {| to_relay := [];
                                     to_controller := to_controller c ++ replies |}) w)
      | Returned r' replies unread =>
          set_relays (delete fd)
            (set_links (insert fd {| to_relay := unread;
                                     to_controller := to_controller c ++ replies |}) w)
      | Halted replies =>
          set_relays (delete fd)
            (set_links (insert fd {| to_relay := [];
                                     to_controller := to_controller c ++ replies |}) w)
      end
  | _, _ => w
  end.

(** The constructor of the relay, after [Connect]: the first sequence
    received is the metadata, four integers; then the local session.  The
    four [cast<int>()] hand the integers on as they are: this is the code on
    integers within the range of [int]. *)
Definition RemoteSocketSession_new (socket : TCPSocket.t)
    (num_local_workers : Z) (w : World L)
    : result (RemoteSocketSession.t L * World L) :=
  let ch := {| channel_socket_ := socket; channel_end := RelayEnd |} in
  match channel_Recv ch w with
  | Ok ([AInt num_nodes; AInt num_workers_per_node; AInt num_groups;
         AInt node_id], w') =>
      if num_workers_per_node <=? num_local_workers then
        Ok ({| RemoteSocketSession.socket_ := socket;
               RemoteSocketSession.local_session_ :=
                 InitLocalSession num_nodes node_id num_groups
                   num_workers_per_node;
               RemoteSocketSession.channel_ := ch;
               RemoteSocketSession.num_nodes_ := num_nodes;
               RemoteSocketSession.node_id_ := node_id;
               RemoteSocketSession.num_groups_ := num_groups;
               RemoteSocketSession.num_workers_per_node_ :=
                 num_workers_per_node |}, w')
      else Fatal
  | Ok _ => Fatal
  | Fatal => Fatal
  | Blocked => Blocked
  end.
End SocketSession.

Section Controller.
Context `{DiscoAction} {L : Type} `{BcastSession L}.

Definition ctl_with_local (l : L) (s : SocketSessionObj.t L)
    : SocketSessionObj.t L :=
  {| SocketSessionObj.num_nodes_ := SocketSessionObj.num_nodes_ s;
     SocketSessionObj.num_workers_per_node_ :=
       SocketSessionObj.num_workers_per_node_ s;
     SocketSessionObj.socket_ := SocketSessionObj.socket_ s;
     SocketSessionObj.remote_sockets_ := SocketSessionObj.remote_sockets_ s;
     SocketSessionObj.remote_channels_ := SocketSessionObj.remote_channels_ s;
     SocketSessionObj.local_session_ := l |}.

(** The metadata sent to a remote node. *)
Definition metadata (num_nodes num_workers_per_node num_groups node_id : Z)
    : list TVMFFIAny :=
  [AInt num_nodes; AInt num_workers_per_node; AInt num_groups; AInt node_id].

(** [socket_.Accept(&addr)]: the oldest connection made and not yet
    accepted; the caller blocks when there is none. *)
Definition Accept (w : World L) : result (TCPSocket.t * World L) :=
  match backlog w with
  | [] => Blocked
  | fd :: rest =>
      Ok ({| TCPSocket.sockfd := fd |},
          {| links := links w; relays := relays w; backlog := rest;
             closed := closed w; finalized := finalized w |})
  end.

(** The loop of the constructor, [count] turns from index [i]: accept,
    wrap the socket in a channel, send the metadata with node id [i + 1]. *)
Fixpoint accept_nodes (count : nat) (i : Z) (num_groups : Z)
    (s : SocketSessionObj.t L) (w : World L)
    : result (SocketSessionObj.t L * World L) :=
  match count with
  | O => Ok (s, w)
  | S count' =>
      match Accept w with
      | Ok (sock, w1) =>
          let ch := {| channel_socket_ := sock; channel_end := ControllerEnd |} in
          let s' :=
            {| SocketSessionObj.num_nodes_ := SocketSessionObj.num_nodes_ s;
               SocketSessionObj.num_workers_per_node_ :=
                 SocketSessionObj.num_workers_per_node_ s;
               SocketSessionObj.socket_ := SocketSessionObj.socket_ s;
               SocketSessionObj.remote_sockets_ :=
                 SocketSessionObj.remote_sockets_ s ++ [sock];
               SocketSessionObj.remote_channels_ :=
                 SocketSessionObj.remote_channels_ s ++ [ch];
               SocketSessionObj.local_session_ :=
                 SocketSessionObj.local_session_ s |} in
          match channel_Send ch
                  (metadata (SocketSessionObj.num_nodes_ s)
                     (SocketSessionObj.num_workers_per_node_ s)
                     num_groups (i + 1)) w1 with
          | Ok w2 => accept_nodes count' (i + 1) num_groups s' w2
          | Fatal => Fatal
          | Blocked => Blocked
          end
      | Fatal => Fatal
      | Blocked => Blocked
      end
  end.

(** The constructor, once the listening socket [listening] is bound:
    [for (int i = 0; i + 1 < num_nodes; ++i)]. *)
Definition SocketSessionObj_new (num_nodes num_workers_per_node num_groups : Z)
    (listening : TCPSocket.t) (w : World L)
    : result (SocketSessionObj.t L * World L) :=
  accept_nodes (Z.to_nat (num_nodes - 1)) 0 num_groups
    {| SocketSessionObj.num_nodes_ := num_nodes;
       SocketSessionObj.num_workers_per_node_ := num_workers_per_node;
       SocketSessionObj.socket_ := listening;
       SocketSessionObj.remote_sockets_ := [];
       SocketSessionObj.remote_channels_ := [];
       SocketSessionObj.local_session_ :=
         InitLocalSession num_nodes 0 num_groups num_workers_per_node |}
    w.

(** A blocking receive at the controller: the relay at the far end runs
    until it blocks itself, then the receive takes what has arrived. *)
Definition channel_await (ch : DiscoSocketChannel) (w : World L)
    : result (list TVMFFIAny * World L) :=
  channel_Recv ch (run_relay (TCPSocket.sockfd (channel_socket_ ch)) w).

(** [worker_id / num_workers_per_node_] on [int]; by zero it is
    undefined. *)
Definition node_of (worker_id : Z) (s : SocketSessionObj.t L) : result Z :=
  if SocketSessionObj.num_workers_per_node_ s =? 0 then Fatal
  else Ok (Z.quot worker_id (SocketSessionObj.num_workers_per_node_ s)).

Definition Socket_SendPacked (worker_id : Z) (args : list TVMFFIAny)
    (st : SocketSessionObj.t L * World L)
    : result (SocketSessionObj.t L * World L) :=
  let (s, w) := st in
  match node_of worker_id s with
  | Ok node_id =>
      if node_id =? 0 then
        match SendPacked worker_id args (SocketSessionObj.local_session_ s) with
        | Ok l => Ok (ctl_with_local l s, w)
        | Fatal => Fatal
        | Blocked => Blocked
        end
      else
        match vector_index (SocketSessionObj.remote_channels_ s) (node_id - 1) with
        | Ok ch =>
            match channel_Send ch
                    (AInt DiscoSocketAction.kSend :: AInt worker_id :: args) w with
            | Ok w' => Ok (s, w')
            | Fatal => Fatal
            | Blocked => Blocked
            end
        | _ => Fatal
        end
  | _ => Fatal
  end.

Definition Socket_RecvReplyPacked (worker_id : Z)
    (st : SocketSessionObj.t L * World L)
    : result (list TVMFFIAny * (SocketSessionObj.t L * World L)) :=
  let (s, w) := st in
  match node_of worker_id s with
  | Ok node_id =>
      if node_id =? 0 then
        match RecvReplyPacked worker_id (SocketSessionObj.local_session_ s) with
        | Ok (reply, l) => Ok (reply, (ctl_with_local l s, w))
        | Fatal => Fatal
        | Blocked => Blocked
        end
      else
        match vector_index (SocketSessionObj.remote_channels_ s) (node_id - 1) with
        | Ok ch =>
            match channel_Send ch
                    [AInt DiscoSocketAction.kReceive; AInt worker_id] w with
            | Ok w1 =>
                match channel_await ch w1 with
                | Ok (reply, w2) => Ok (reply, (s, w2))
                | Fatal => Fatal
                | Blocked => Blocked
                end
            | Fatal => Fatal
            | Blocked => Blocked
            end
        | _ => Fatal
        end
  | _ => Fatal
  end.

(** [for (auto& channel : remote_channels_) channel->Send(args)]. *)
Fixpoint send_to_all (channels : list DiscoSocketChannel)
    (args : list TVMFFIAny) (w : World L) : result (World L) :=
  match channels with
  | [] => Ok w
  | ch :: rest =>
      match channel_Send ch args w with
      | Ok w' => send_to_all rest args w'
      | Fatal => Fatal
      | Blocked => Blocked
      end
  end.

Definition Socket_BroadcastPacked (args : list TVMFFIAny)
    (st : SocketSessionObj.t L * World L)
    : result (SocketSessionObj.t L * World L) :=
  let (s, w) := st in
  match BroadcastPacked args (SocketSessionObj.local_session_ s) with
  | Ok l =>
      match send_to_all (SocketSessionObj.remote_channels_ s)
              (AInt DiscoSocketAction.kSend :: AInt (-1) :: args) w with
      | Ok w' => Ok (ctl_with_local l s, w')
      | Fatal => Fatal
      | Blocked => Blocked
      end
  | Fatal => Fatal
  | Blocked => Blocked
  end.

(** [socket.Close()]: the descriptor is closed and the object holds the
    invalid descriptor; on a closed socket it is an error. *)
Definition Close (sock : TCPSocket.t) (w : World L)
    : result (TCPSocket.t * World L) :=
  if TCPSocket.IsClosed sock then Fatal
  else Ok ({| TCPSocket.sockfd := TCPSocket.INVALID_SOCKET |},
           {| links := links w; relays := relays w; backlog := backlog w;
              closed := closed w ++ [TCPSocket.sockfd sock];
              finalized := finalized w |}).

(** [for (auto& socket : remote_sockets_) socket.Close()]. *)
Fixpoint close_all (sockets : list TCPSocket.t) (w : World L)
    : result (list TCPSocket.t * World L) :=
  match sockets with
  | [] => Ok ([], w)
  | sock :: rest =>
      match Close sock w with
      | Ok (sock', w1) =>
          match close_all rest w1 with
          | Ok (rest', w2) => Ok (sock' :: rest', w2)
          | Fatal => Fatal
          | Blocked => Blocked
          end
      | Fatal => Fatal
      | Blocked => Blocked
      end
  end.

(** [Socket::Finalize()]. *)
Definition Finalize (w : World L) : World L :=
  {| links := links w; relays := relays w; backlog := backlog w;
     closed := closed w; finalized := finalized w + 1 |}.

Definition Socket_Shutdown (st : SocketSessionObj.t L * World L)
    : result (SocketSessionObj.t L * World L) :=
  let (s, w) := st in
  match send_to_all (SocketSessionObj.remote_channels_ s)
          [AInt DiscoSocketAction.kShutdown; AInt (-1)] w with
  | Ok w1 =>
      match close_all (SocketSessionObj.remote_sockets_ s) w1 with
      | Ok (_, w2) =>
          match (if negb (TCPSocket.IsClosed (SocketSessionObj.socket_ s))
                 then Close (SocketSessionObj.socket_ s) w2
                 else Ok (SocketSessionObj.socket_ s, w2)) with
          | Ok (sock, w3) =>
              Ok ({| SocketSessionObj.num_nodes_ := SocketSessionObj.num_nodes_ s;
                     SocketSessionObj.num_workers_per_node_ :=
                       SocketSessionObj.num_workers_per_node_ s;
                     SocketSessionObj.socket_ := sock;
                     SocketSessionObj.remote_sockets_ := [];
                     SocketSessionObj.remote_channels_ := [];
                     SocketSessionObj.local_session_ :=
                       SocketSessionObj.local_session_ s |},
                  Finalize w3)
          | Fatal => Fatal
          | Blocked => Blocked
          end
      | Fatal => Fatal
      | Blocked => Blocked
      end
  | Fatal => Fatal
  | Blocked => Blocked
  end.

(** [~SocketSessionObj() { Shutdown(); }]. *)
Definition Socket_destructor := Socket_Shutdown.
End Controller.

(** Modelled from the spec: what a connection carries on the wire.  Each
    sequence in flight is one packet of the common framing, in order. *)
Definition on_the_wire `{TypeIndex} (msgs : list (list TVMFFIAny))
    : list byte :=
  concat (map (fun m => packet kReturn (seq_wire false m)) msgs).

(** The statement that the handshake is four bare integers of [width]
    bytes on the wire. *)
Definition handshake_is_bare_integers `{TypeIndex} (width : nat)
    (num_nodes num_workers_per_node num_groups node_id : Z) : Prop :=
  on_the_wire [[AInt num_nodes; AInt num_workers_per_node; AInt num_groups;
                AInt node_id]]
  = le_split width num_nodes ++ le_split width num_workers_per_node
    ++ le_split width num_groups ++ le_split width node_id.

(** The channel the controller makes of an accepted connection; a
    connection with nothing in flight. *)
Definition controller_channel (fd : Z) : DiscoSocketChannel :=
  {| channel_socket_ := {| TCPSocket.sockfd := fd |};
     channel_end := ControllerEnd |}.

Definition idle : connection := {| to_relay := []; to_controller := [] |}.

(** An integer argument on the wire: its type index, then its 64 bits. *)
Definition int_arg_wire `{TypeIndex} (v : Z) : list byte :=
  le_split 4 kTVMFFIInt ++ le_split 8 v.

(** A sample local session: a worker answers a command with the command
    itself.  The state is the list of answers not yet fetched, each with
    the worker that gave it. *)
Fixpoint take_reply (worker_id : Z) (l : list (Z * list TVMFFIAny))
    : option (list TVMFFIAny * list (Z * list TVMFFIAny)) :=
  match l with
  | [] => None
  | (wid, a) :: rest =>
      if wid =? worker_id then Some (a, rest)
      else match take_reply worker_id rest with
           | Some (x, rest') => Some (x, (wid, a) :: rest')
           | None => None
           end
  end.

#[export] Instance echo_session : BcastSession (list (Z * list TVMFFIAny)) :=
  {| BroadcastPacked := fun _ l => Ok l;
     SendPacked := fun worker_id args l => Ok (l ++ [(worker_id, args)]);
     RecvReplyPacked := fun worker_id l =>
       match take_reply worker_id l with
       | Some (a, l') => Ok (a, l')
       | None => Blocked
       end;
     Shutdown := fun _ => Ok [];
     InitLocalSession := fun _ _ _ _ => [] |}.

#[export] Instance sample_actions : DiscoAction := {| kShutDown := 0 |}.

(** A controller of two nodes with two workers each, and the relay of
    node 1 at the far end of connection 7. *)
Definition sample_controller : SocketSessionObj.t (list (Z * list TVMFFIAny)) :=
  {| SocketSessionObj.num_nodes_ := 2;
     SocketSessionObj.num_workers_per_node_ := 2;
     SocketSessionObj.socket_ := {| TCPSocket.sockfd := 3 |};
     SocketSessionObj.remote_sockets_ := [{| TCPSocket.sockfd := 7 |}];
     SocketSessionObj.remote_channels_ := [controller_channel 7];
     SocketSessionObj.local_session_ := [] |}.

Definition sample_relay : RemoteSocketSession.t (list (Z * list TVMFFIAny)) :=
  {| RemoteSocketSession.socket_ := {| TCPSocket.sockfd := 7 |};
     RemoteSocketSession.local_session_ := [];
     RemoteSocketSession.channel_ :=
       {| channel_socket_ := {| TCPSocket.sockfd := 7 |};
          channel_end := RelayEnd |};
     RemoteSocketSession.num_nodes_ := 2;
     RemoteSocketSession.node_id_ := 1;
     RemoteSocketSession.num_groups_ := 1;
     RemoteSocketSession.num_workers_per_node_ := 2 |}.

Definition sample_world : World (list (Z * list TVMFFIAny)) :=
  {| links := {[ 7 := idle ]};
     relays := {[ 7 := sample_relay ]};
     backlog := [];
     closed := [];
     finalized := 0 |}.

(** Two relays have connected and wait to be accepted. *)
Definition sample_listening_world : World (list (Z * list TVMFFIAny)) :=
  {| links := <[ 7 := idle ]> {[ 9 := idle ]};
     relays := ∅;
     backlog := [7; 9];
     closed := [];
     finalized := 0 |}.

(** ** Further functions of the three files *)

(** *** rpc_reference.h: the names of the codes *)

Definition RPCCodeToString (code : RPCCode) : String.string :=
  match code with
  | kShutdown => "kShutdown"
  | kInitServer => "kInitServer"
  | kCallFunc => "kCallFunc"
  | kReturn => "kReturn"
  | kException => "kException"
  | kCopyFromRemote => "kCopyFromRemote"
  | kCopyToRemote => "kCopyToRemote"
  | kCopyAck => "kCopyAck"
  | kGetGlobalFunc => "kGetGlobalFunc"
  | kFreeHandle => "kFreeHandle"
  | kDevSetDevice => "kDevSetDevice"
  | kDevGetAttr => "kDevGetAttr"
  | kDevAllocData => "kDevAllocData"
  | kDevFreeData => "kDevFreeData"
  | kDevCreateStream => "kDevCreateStream"
  | kDevFreeStream => "kDevFreeStream"
  | kDevStreamSync => "kDevStreamSync"
  | kDevSetStream => "kDevSetStream"
  | kCopyAmongRemote => "kCopyAmongRemote"
  | kDevAllocDataWithScope => "kDevAllocDataWithScope"
  | _ => String.EmptyString
  end%string.

Definition RPCServerStatusToString (status : RPCServerStatus) : String.string :=
  match status with
  | kSuccess => "kSuccess"
  | kInvalidTypeCodeObject => "kInvalidTypeCodeObject"
  | kInvalidTypeCodeNDArray => "kInvalidTypeCodeNDArray"
  | kInvalidDLTensorFieldStride => "kInvalidDLTensorFieldStride"
  | kInvalidDLTensorFieldByteOffset => "kInvalidDLTensorFieldByteOffset"
  | kUnknownTypeIndex => "kUnknownTypeIndex"
  | kUnknownRPCCode => "kUnknownRPCCode"
  | kRPCCodeNotSupported => "RPCCodeNotSupported"
  | kUnknownRPCSyscall => "kUnknownRPCSyscall"
  | kCheckError => "kCheckError"
  | kReadError => "kReadError"
  | kWriteError => "kWriteError"
  | kAllocError => "kAllocError"
  end%string.

(** *** rpc_reference.h: what the decoder makes of a value *)

(** The copy the decoder makes of a raw string: the [len] characters it
    reads into [ArenaAlloc<char>(len + 1)] and the terminator it stores
    behind them. *)
Definition c_str (str : list byte) : list byte :=
  take (Z.to_nat (StrLength str)) str ++ [Byte.x00].

(** The values that cross in a call from a client: the representable
    ones, and the handles of functions and modules. *)
Definition transferable (client_mode : bool) (a : TVMFFIAny) : Prop :=
  match a with
  | AFunction handle | AModule handle =>
      client_mode = true /\ uint64_range handle
  | _ => representable a
  end.

(** How the receiving side takes a packet off a stream: the length, the
    command code, the packed sequence (the reads of [DequeueNextPacket]
    followed by [RecvPackedSeq]). *)
Definition read_packet `{TypeIndex} {Ch : Type} `{Stream Ch} `{Protocol Ch}
    : M Ch (Z * Z * (Z * list TVMFFIAny)) :=
  len <~ Read t_uint64 ;;
  code <~ Read t_RPCCode ;;
  seq <~ RecvPackedSeq ;;
  ret (to_uint64 len, to_int32 code, seq).

(** *** threaded_session.cc: the channel of a worker thread *)

Definition set_controler_to_worker (q : DiscoThreadedMessageQueue.t)
    (c : DiscoThreadChannel) : DiscoThreadChannel :=
  {| controler_to_worker_ := q;
     worker_to_controler_ := worker_to_controler_ c |}.

Definition set_worker_to_controler (q : DiscoThreadedMessageQueue.t)
    (c : DiscoThreadChannel) : DiscoThreadChannel :=
  {| controler_to_worker_ := controler_to_worker_ c;
     worker_to_controler_ := q |}.

(** A queue operation applied to one of the two queues of a channel. *)
Definition on_queue {A : Type}
    (get : DiscoThreadChannel -> DiscoThreadedMessageQueue.t)
    (set : DiscoThreadedMessageQueue.t -> DiscoThreadChannel -> DiscoThreadChannel)
    (op : M DiscoThreadedMessageQueue.t A) : M DiscoThreadChannel A :=
  fun c =>
    match op (get c) with
    | Done a q => Done a (set q c)
    | Throw e q => Throw e (set q c)
    end.

Definition await_queue {A : Type}
    (get : DiscoThreadChannel -> DiscoThreadedMessageQueue.t)
    (set : DiscoThreadedMessageQueue.t -> DiscoThreadChannel -> DiscoThreadChannel)
    (op : DiscoThreadedMessageQueue.t
          -> option (outcome DiscoThreadedMessageQueue.t A))
    (c : DiscoThreadChannel) : option (outcome DiscoThreadChannel A) :=
  match op (get c) with
  | None => None
  | Some (Done a q) => Some (Done a (set q c))
  | Some (Throw e q) => Some (Throw e (set q c))
  end.

Section ThreadChannel.
Context `{TypeIndex} `{Protocol DiscoThreadedMessageQueue.t}.

(** [Send]: [controler_to_worker_.Send(args)]. *)
Definition ThreadChannel_Send (args : list TVMFFIAny) : M DiscoThreadChannel unit :=
  on_queue controler_to_worker_ set_controler_to_worker
    (DiscoThreadedMessageQueue.Send args).

(** [Recv]: [controler_to_worker_.Recv()]. *)
Definition ThreadChannel_Recv
    : DiscoThreadChannel
      -> option (outcome DiscoThreadChannel (Z * list TVMFFIAny)) :=
  await_queue controler_to_worker_ set_controler_to_worker
    DiscoThreadedMessageQueue.Recv.

(** [Reply]: [worker_to_controler_.Send(args)]. *)
Definition ThreadChannel_Reply (args : list TVMFFIAny) : M DiscoThreadChannel unit :=
  on_queue worker_to_controler_ set_worker_to_controler
    (DiscoThreadedMessageQueue.Send args).

(** [RecvReply]: [worker_to_controler_.Recv()]. *)
Definition ThreadChannel_RecvReply
    : DiscoThreadChannel
      -> option (outcome DiscoThreadChannel (Z * list TVMFFIAny)) :=
  await_queue worker_to_controler_ set_worker_to_controler
    DiscoThreadedMessageQueue.Recv.

Definition set_channel (c : DiscoThreadChannel) (w : DiscoWorkerThread)
    : DiscoWorkerThread :=
  {| channel := c; worker := worker w |}.

(** The loop of [BroadcastPacked]:
    [for (const DiscoWorkerThread& worker : this->workers_)
       worker.channel->Send(args)].  [None] is a raised error. *)
Fixpoint broadcast_workers (args : list TVMFFIAny)
    (workers : list DiscoWorkerThread) : option (list DiscoWorkerThread) :=
  match workers with
  | [] => Some []
  | w :: rest =>
      match ThreadChannel_Send args (channel w) with
      | Throw _ _ => None
      | Done _ c =>
          match broadcast_workers args rest with
          | None => None
          | Some rest' => Some (set_channel c w :: rest')
          end
      end
  end.

Definition ThreadedSession_BroadcastPacked (args : list TVMFFIAny)
    (n : ThreadedSessionObj) : option ThreadedSessionObj :=
  match broadcast_workers args (workers_ n) with
  | None => None
  | Some workers => Some {| workers_ := workers |}
  end.

(** [RecvReplyPacked]: [workers_.at(worker_id).channel->RecvReply()]. *)
Definition ThreadedSession_RecvReplyPacked (worker_id : Z)
    (n : ThreadedSessionObj) : result (list TVMFFIAny * ThreadedSessionObj) :=
  match vector_at (workers_ n) worker_id with
  | None => Fatal
  | Some w =>
      match ThreadChannel_RecvReply (channel w) with
      | None => Blocked
      | Some (Throw _ _) => Fatal
      | Some (Done (_, args) c) =>
          Ok (args, set_worker worker_id (set_channel c w) n)
      end
  end.

(** What the thread of worker [worker_id] does on its end of the channel:
    [channel->Recv()] and [channel->Reply(args)]. *)
Definition worker_Recv (worker_id : Z) (n : ThreadedSessionObj)
    : result (list TVMFFIAny * ThreadedSessionObj) :=
  match vector_at (workers_ n) worker_id with
  | None => Fatal
  | Some w =>
      match ThreadChannel_Recv (channel w) with
      | None => Blocked
      | Some (Throw _ _) => Fatal
      | Some (Done (_, args) c) =>
          Ok (args, set_worker worker_id (set_channel c w) n)
      end
  end.

Definition worker_Reply (worker_id : Z) (args : list TVMFFIAny)
    (n : ThreadedSessionObj) : result ThreadedSessionObj :=
  match vector_at (workers_ n) worker_id with
  | None => Fatal
  | Some w =>
      match ThreadChannel_Reply args (channel w) with
      | Throw _ _ => Fatal
      | Done _ c => Ok (set_worker worker_id (set_channel c w) n)
      end
  end.
End ThreadChannel.

(** A channel whose two queues hold the packets of [requests] and of
    [replies]. *)
Definition channel_holds `{TypeIndex} (requests replies : list (list TVMFFIAny))
    (c : DiscoThreadChannel) : Prop :=
  holds_packets requests (controler_to_worker_ c)
  /\ holds_packets replies (worker_to_controler_ c).

(** *** socket_session.cc: the remaining calls *)

(** The function registered as [runtime.disco.socket_session_init_workers],
    applied to the worker that executes it ([DiscoWorker::ThreadLocal()]).
    The two products are products of [int]: beyond the range of [int] the
    code leaves them undefined, and the model goes on in [Z]. *)
Definition socket_session_init_workers
    (num_nodes node_id num_groups num_workers_per_node : Z)
    (worker : DiscoWorker) : DiscoWorker :=
  {| worker_id := worker_id worker + node_id * num_workers_per_node;
     num_workers := num_nodes * num_workers_per_node;
     num_groups := num_groups;
     register_file := register_file worker |}.

(** [GetNumWorkers]: [num_nodes_ * num_workers_per_node_], a product of
    two [int].  Beyond the range of [int] the code leaves it undefined;
    the model goes on in [Z]. *)
Definition Socket_GetNumWorkers {L : Type} (s : SocketSessionObj.t L) : Z :=
  SocketSessionObj.num_nodes_ s * SocketSessionObj.num_workers_per_node_ s.

(** A sequence the relay [r] handles within [int]: its two leading values
    are integers that [cast<int>] returns as they are, and the local worker
    id [worker_id - node_id_ * num_workers_per_node_] is computed without
    overflow. *)
Definition within_int {L : Type} (r : RemoteSocketSession.t L)
    (args : list TVMFFIAny) : Prop :=
  match args with
  | AInt action :: AInt worker_id :: _ =>
      int32_range action /\ int32_range worker_id
      /\ int32_range (RemoteSocketSession.node_id_ r
                      * RemoteSocketSession.num_workers_per_node_ r)
      /\ int32_range (worker_id
                      - RemoteSocketSession.node_id_ r
                        * RemoteSocketSession.num_workers_per_node_ r)
  | _ => False
  end.

Section Relay.
Context `{DiscoAction} {L : Type} `{BcastSession L}.

(** [~RemoteSocketSession()]: [socket_.Close(); Socket::Finalize();]. *)
Definition RemoteSocketSession_destructor (r : RemoteSocketSession.t L)
    (w : World L) : result (World L) :=
  match Close (RemoteSocketSession.socket_ r) w with
  | Ok (_, w') => Ok (Finalize w')
  | Fatal => Fatal
  | Blocked => Blocked
  end.

(** [RemoteSocketSessionEntryPoint]: construct the relay, run its loop on
    what the connection holds; when the loop returns, the relay goes out of
    scope.  The loop that has nothing left to receive stays blocked. *)
Definition RemoteSocketSessionEntryPoint (socket : TCPSocket.t)
    (num_local_workers : Z) (w : World L) : result (World L) :=
  match RemoteSocketSession_new socket num_local_workers w with
  | Ok (proxy, w1) =>
      let fd := TCPSocket.sockfd socket in
      match links w1 !! fd with
      | Some c =>
          match MainLoop (to_relay c) proxy [] with
          | Returned proxy' replies unread =>
              RemoteSocketSession_destructor proxy'
                (set_links
                   (insert fd {| to_relay := unread;
                                 to_controller := to_controller c ++ replies |})
                   w1)
          | AwaitingRecv _ _ => Blocked
          | Halted _ => Fatal
          end
      | None => Fatal
      end
  | Fatal => Fatal
  | Blocked => Blocked
  end.
End Relay.

(** The two actions of [DiscoAction] that the debug calls name. *)
Class DiscoDebugAction : Type := {
  kDebugGetFromRemote : Z;
  kDebugSetRegister : Z
}.

(** The debug calls of the session interface, as socket_session.cc calls
    them on its local session. *)
Class DebugSession (L : Type) : Type := {
  Local_DebugGetFromRemote : Z -> Z -> L -> result (TVMFFIAny * L);
  Local_DebugSetRegister : Z -> TVMFFIAny -> Z -> L -> result L
}.

Section ControllerDebug.
Context `{DiscoAction} `{DiscoDebugAction} {L : Type} `{BcastSession L}
      `{DebugSession L}.

(** [DebugGetFromRemote] of the socket session.  [args[0].cast<int>()]
    hands the integer on as it is: this is the code on a first element
    within the range of [int]. *)
Definition Socket_DebugGetFromRemote (reg_id worker_id : Z)
    (st : SocketSessionObj.t L * World L)
    : result (TVMFFIAny * (SocketSessionObj.t L * World L)) :=
  let (s, w) := st in
  match node_of worker_id s with
  | Ok node_id =>
      if node_id =? 0 then
        match Local_DebugGetFromRemote reg_id worker_id
                (SocketSessionObj.local_session_ s) with
        | Ok (v, l) => Ok (v, (ctl_with_local l s, w))
        | Fatal => Fatal
        | Blocked => Blocked
        end
      else
        match vector_index (SocketSessionObj.remote_channels_ s) (node_id - 1) with
        | Ok ch =>
            match channel_Send ch
                    [AInt DiscoSocketAction.kSend; AInt worker_id;
                     AInt kDebugGetFromRemote; AInt reg_id; AInt worker_id] w with
            | Ok w1 =>
                match Socket_RecvReplyPacked worker_id (s, w1) with
                | Ok ([AInt action; result], st') =>
                    if action =? kDebugGetFromRemote then Ok (result, st')
                    else Fatal
                | Ok _ => Fatal
                | Fatal => Fatal
                | Blocked => Blocked
                end
            | Fatal => Fatal
            | Blocked => Blocked
            end
        | _ => Fatal
        end
  | _ => Fatal
  end.
End ControllerDebug.

(** Sample values of the two debug actions, and a sample local session
    whose workers answer a command of an action and a register number with
    the action and the number of the register plus a hundred, and any other
    command with the command itself. *)
#[export] Instance sample_debug_actions : DiscoDebugAction :=
  {| kDebugGetFromRemote := 7; kDebugSetRegister := 8 |}.

Definition answering_session : BcastSession (list (Z * list TVMFFIAny)) :=
  {| BroadcastPacked := fun _ l => Ok l;
     SendPacked := fun worker_id args l =>
       match args with
       | [AInt action; AInt reg_id; AInt _] =>
           Ok (l ++ [(worker_id, [AInt action; AInt (100 + reg_id)])])
       | _ => Ok (l ++ [(worker_id, args)])
       end;
     RecvReplyPacked := fun worker_id l =>
       match take_reply worker_id l with
       | Some (a, l') => Ok (a, l')
       | None => Blocked
       end;
     Shutdown := fun _ => Ok [];
     InitLocalSession := fun _ _ _ _ => [] |}.

Definition answering_debug : DebugSession (list (Z * list TVMFFIAny)) :=
  {| Local_DebugGetFromRemote := fun reg_id _ l => Ok (AInt (100 + reg_id), l);
     Local_DebugSetRegister := fun _ _ _ l => Ok l |}.

(** A relay about to start: its connection holds the handshake, two
    commands, the shutdown action and one more sequence. *)
Definition sample_starting_world : World (list (Z * list TVMFFIAny)) :=
  {| links :=
       {[ 7 := {| to_relay :=
                    [[AInt 2; AInt 2; AInt 1; AInt 1];
                     [AInt 1; AInt 3; AInt 42];
                     [AInt 2; AInt 3];
                     [AInt 0; AInt (-1)];
                     [AInt 1; AInt 2; AInt 5]];
                  to_controller := [] |} ]};
     relays := ∅;
     backlog := [];
     closed := [];
     finalized := 0 |}.

(** What the decoder makes of a byte array and of a tensor descriptor:
    the [size] bytes and the [ndim] extents that were sent. *)
Definition counted_bytes (b : TVMFFIByteArray) : TVMFFIByteArray :=
  {| ba_data := take (Z.to_nat (ba_size b)) (ba_data b); ba_size := ba_size b |}.

Definition counted_shape (arr : DLTensor) : DLTensor :=
  {| data := data arr; device := device arr; ndim := ndim arr;
     dtype := dtype arr;
     shape := take (Z.to_nat (ndim arr)) (shape arr);
     strides := strides arr; byte_offset := byte_offset arr |}.

(** The request queues of the workers of a session hold the packets of
    [pending], one list per worker. *)
Definition session_requests `{TypeIndex}
    (pending : list (list (list TVMFFIAny))) (n : ThreadedSessionObj) : Prop :=
  Forall2 (fun w p =>
             holds_packets p (controler_to_worker_ (channel w))
             /\ Z.of_nat (length p) < 2 ^ 31
             /\ Forall sendable p) (workers_ n) pending.

(** A queue holding one packet that announces two arguments and carries
    one. *)
Definition sample_short_queue : DiscoThreadedMessageQueue.t :=
  {| DiscoThreadedMessageQueue.write_buffer_ := [];
     DiscoThreadedMessageQueue.read_buffer_ := [];
     DiscoThreadedMessageQueue.read_offset_ := 0;
     DiscoThreadedMessageQueue.dequeue_waiting_ := false;
     DiscoThreadedMessageQueue.msg_cnt_ := 1;
     DiscoThreadedMessageQueue.ring_buffer_ :=
       packet kReturn
         (object_repr (v_int32 2)
          ++ args_wire (H := sample_type_index) false [AInt 5]) |}.

(* ================================================================== *)
(** * Properties *)
(* ================================================================== *)

(** ** Object representations read back *)

Lemma sint_wrap (w z : Z) :
  0 < w -> - 2 ^ (w - 1) <= z < 2 ^ (w - 1) -> sint w (z mod 2 ^ w) = z.
Proof.
  intros Hw Hz. unfold sint.
  assert (Hp : 2 ^ w = 2 * 2 ^ (w - 1)).
  { replace w with (Z.succ (w - 1)) at 1 by lia. apply Z.pow_succ_r. lia. }
  destruct (Z.ltb_spec 0 (z + 1)) as [Hpos | Hneg].
  - rewrite Z.mod_small by lia.
    destruct (Z.ltb_spec z (2 ^ (w - 1))); lia.
  - replace (z mod 2 ^ w) with (z + 2 ^ w).
    + destruct (Z.ltb_spec (z + 2 ^ w) (2 ^ (w - 1))); lia.
    + apply Z.mod_unique with (q := -1); lia.
Qed.

Lemma to_int32_split (z : Z) : int32_range z -> to_int32 (le_split 4 z) = z.
Proof.
  intros Hz. unfold to_int32. rewrite le_combine_split.
  apply (sint_wrap 32); [lia | exact Hz].
Qed.

Lemma to_int64_split (z : Z) : int64_range z -> to_int64 (le_split 8 z) = z.
Proof.
  intros Hz. unfold to_int64. rewrite le_combine_split.
  apply (sint_wrap 64); [lia | exact Hz].
Qed.

Lemma to_uint64_split (z : Z) : uint64_range z -> to_uint64 (le_split 8 z) = z.
Proof.
  intros Hz. unfold to_uint64. rewrite le_combine_split.
  apply Z.mod_small. exact Hz.
Qed.

Lemma length_object_repr (v : cvalue) :
  Z.of_nat (length (object_repr v)) = sizeof (ctype_of v).
Proof.
  destruct v; cbn [object_repr ctype_of sizeof];
    rewrite ?length_app, ?length_le_split; reflexivity.
Qed.

Lemma length_array_repr (t : ctype) (vs : list cvalue) :
  Forall (fun v => ctype_of v = t) vs ->
  Z.of_nat (length (array_repr vs)) = sizeof t * Z.of_nat (length vs).
Proof.
  unfold array_repr. induction 1 as [| v vs Hv _ IH]; cbn [map concat length].
  - lia.
  - rewrite length_app, Nat2Z.inj_add, IH, length_object_repr, Hv. lia.
Qed.

Lemma to_DLDevice_repr (d : DLDevice) :
  DLDevice_ok d -> to_DLDevice (object_repr (v_DLDevice d)) = d.
Proof.
  intros [Ht Hi]. destruct d as [ty id]. cbn in *.
  unfold to_DLDevice.
  rewrite take_app_length' by (rewrite length_le_split; reflexivity).
  rewrite drop_app_length' by (rewrite length_le_split; reflexivity).
  rewrite take_ge by (rewrite length_le_split; lia).
  rewrite !to_int32_split by assumption. reflexivity.
Qed.

Lemma le_combine_split_small (n : nat) (z : Z) :
  0 <= z < 2 ^ (Z.of_nat n * 8) -> le_combine (le_split n z) = z.
Proof. intros Hz. rewrite le_combine_split. apply Z.mod_small, Hz. Qed.

Lemma to_DLDataType_repr (d : DLDataType) :
  DLDataType_ok d -> to_DLDataType (object_repr (v_DLDataType d)) = d.
Proof.
  intros (Hc & Hb & Hl). destruct d as [c b l]. cbn in *.
  unfold to_DLDataType.
  rewrite take_app_length' by (rewrite length_le_split; reflexivity).
  rewrite (drop_app_length' (le_split 1 c)) by (rewrite length_le_split; reflexivity).
  rewrite take_app_length' by (rewrite length_le_split; reflexivity).
  change 2%nat with (1 + 1)%nat at 2. rewrite <- drop_drop.
  rewrite (drop_app_length' (le_split 1 c)) by (rewrite length_le_split; reflexivity).
  rewrite drop_app_length' by (rewrite length_le_split; reflexivity).
  rewrite take_ge by (rewrite length_le_split; lia).
  rewrite !le_combine_split_small by (cbn; lia). reflexivity.
Qed.

Lemma to_int64_array_repr (l : list Z) :
  Forall int64_range l ->
  to_int64_array (length l) (array_repr (map v_int64 l)) = l.
Proof.
  unfold array_repr.
  induction 1 as [| z l Hz _ IH]; cbn [map concat length to_int64_array object_repr].
  - reflexivity.
  - rewrite take_app_length' by (rewrite length_le_split; reflexivity).
    rewrite drop_app_length' by (rewrite length_le_split; reflexivity).
    rewrite to_int64_split by assumption. now rewrite IH.
Qed.

Lemma Forall_ctype_map_int64 (l : list Z) :
  Forall (fun v => ctype_of v = t_int64) (map v_int64 l).
Proof. induction l; constructor; auto. Qed.

Lemma Forall_ctype_map_char (l : list byte) :
  Forall (fun v => ctype_of v = t_char) (map v_char l).
Proof. induction l; constructor; auto. Qed.

Lemma array_repr_chars (l : list byte) : array_repr (map v_char l) = l.
Proof.
  unfold array_repr. induction l as [| b l IH]; cbn; [| rewrite IH]; reflexivity.
Qed.

(** A string with its terminator as the last byte is its first [StrLength]
    bytes followed by NUL. *)
Lemma StrLength_range (s : list byte) : 0 <= StrLength s <= Z.of_nat (length s).
Proof.
  induction s as [| c s IH]; cbn [StrLength length]; [lia |].
  destruct (Byte.eqb c Byte.x00); lia.
Qed.

Lemma StrLength_terminated (s : list byte) :
  StrLength s + 1 = Z.of_nat (length s) ->
  take (Z.to_nat (StrLength s)) s ++ [Byte.x00] = s.
Proof.
  induction s as [| c s IH]; cbn [StrLength length]; [lia |].
  destruct (Byte.eqb c Byte.x00) eqn:Hc; intros Hlen.
  - apply Byte.byte_dec_bl in Hc. subst c.
    destruct s; [reflexivity | cbn [length] in Hlen; lia].
  - pose proof (StrLength_range s).
    replace (Z.to_nat (1 + StrLength s)) with (S (Z.to_nat (StrLength s))) by lia.
    cbn [take app]. f_equal. apply IH. lia.
Qed.

(** ** The encoder, on any sink *)

Ltac run_sink :=
  unfold bind, lift, ret, ThrowError, finish;
  repeat first
    [ rewrite Write_put
    | rewrite WriteArray_put
        by first [apply Forall_ctype_map_int64 | apply Forall_ctype_map_char]
    | rewrite put_app ].

Section SinkFacts.
Context `{TypeIndex} {Ch : Type} `{TChannel Ch} `{Sink Ch} `{!SinkLaws Ch}.

Lemma SendDLTensor_put (arr : DLTensor) (s : Ch) :
  SendDLTensor arr s
  = finish (rejects false (ADLTensorPtr arr))
      (put (payload_wire false (ADLTensorPtr arr)) s).
Proof.
  unfold SendDLTensor. cbn [rejects payload_wire DLTensor_fields_wire].
  destruct (strides arr); run_sink; fold array_repr;
    rewrite ?app_nil_r, <- ?app_assoc; reflexivity.
Qed.

Lemma SendArg_put (client_mode : bool) (a : TVMFFIAny) (s : Ch) :
  builtin a ->
  SendArg client_mode a s
  = finish (rejects client_mode a) (put (arg_wire client_mode a) s).
Proof.
  intros Ha. unfold SendArg, arg_wire.
  destruct a; try contradiction; cbn [rejects payload_wire];
    try (destruct client_mode); run_sink; fold array_repr;
    rewrite ?app_nil_r; try reflexivity.
  all: rewrite SendDLTensor_put; cbn [rejects payload_wire];
    destruct (strides arr); cbn [finish]; now rewrite put_app.
Qed.

Lemma SendArgs_put (client_mode : bool) (args : list TVMFFIAny)
    (b : list byte) (s : Ch) :
  Forall builtin args ->
  SendArgs client_mode args (put b s)
  = finish (args_status client_mode args)
      (put (b ++ args_wire client_mode args) s).
Proof.
  intros Hb. revert b.
  induction Hb as [| a args Ha _ IH]; intros b;
    cbn [SendArgs args_wire args_status].
  - unfold ret, finish. now rewrite app_nil_r.
  - unfold bind at 1. rewrite SendArg_put by assumption.
    destruct (rejects client_mode a); cbn [finish]; rewrite put_app.
    + now rewrite app_nil_r.
    + rewrite IH. now rewrite app_assoc.
Qed.

Lemma SendPackedSeq_put (client_mode : bool) (args : list TVMFFIAny) (s : Ch) :
  Forall builtin args ->
  SendPackedSeq args (Z.of_nat (length args)) client_mode s
  = finish (args_status client_mode args) (put (seq_wire client_mode args) s).
Proof.
  intros Hb. unfold SendPackedSeq, seq_wire.
  rewrite Nat2Z.id, firstn_all.
  unfold bind, lift. rewrite Write_put. now apply SendArgs_put.
Qed.
End SinkFacts.

(** ** The channels of the development are lawful *)

Lemma wrap64_add_l (a b : Z) : wrap64 (wrap64 a + b) = wrap64 (a + b).
Proof. unfold wrap64. apply Zplus_mod_idemp_l. Qed.

Lemma getter_add_add {S} (n m : Z) (g : PackedSeqNumBytesGetter S) :
  getter_add m (getter_add n g) = getter_add (n + m) g.
Proof.
  destruct g as [c k]. unfold getter_add. cbn. f_equal.
  rewrite wrap64_add_l. f_equal. lia.
Qed.

Lemma getter_put_app {S} (b1 b2 : list byte) (g : PackedSeqNumBytesGetter S) :
  getter_add (Z.of_nat (length b2)) (getter_add (Z.of_nat (length b1)) g)
  = getter_add (Z.of_nat (length (b1 ++ b2))) g.
Proof. rewrite getter_add_add, length_app. f_equal. lia. Qed.

Lemma getter_WriteArray_put {S} (t : ctype) (vs : list cvalue)
    (g : PackedSeqNumBytesGetter S) :
  Forall (fun v => ctype_of v = t) vs ->
  getter_add (sizeof t * Z.of_nat (length vs)) g
  = getter_add (Z.of_nat (length (concat (map object_repr vs)))) g.
Proof. intros Hvs. fold (array_repr vs). now rewrite (length_array_repr t). Qed.

Lemma getter_Write_put {S} (v : cvalue) (g : PackedSeqNumBytesGetter S) :
  getter_add (sizeof (ctype_of v)) g
  = getter_add (Z.of_nat (length (object_repr v))) g.
Proof. now rewrite length_object_repr. Qed.

#[export] Instance getter_sink_laws (S : Type) `{Protocol S} :
  SinkLaws (PackedSeqNumBytesGetter S).
Proof.
  split.
  - intros b1 b2 g. apply getter_put_app.
  - intros v g. apply getter_Write_put.
  - intros t vs g Hvs. now apply getter_WriteArray_put.
Qed.

#[export] Instance pipe_sink_laws `{Protocol (list byte)} : SinkLaws (list byte).
Proof.
  split.
  - intros b1 b2 p. unfold put, pipe_sink. now rewrite app_assoc.
  - reflexivity.
  - reflexivity.
Qed.

#[export] Instance queue_sink_laws `{Protocol DiscoThreadedMessageQueue.t} :
  SinkLaws DiscoThreadedMessageQueue.t.
Proof.
  split.
  - intros b1 b2 q. unfold put, queue_sink, DiscoThreadedMessageQueue.Write,
      DiscoThreadedMessageQueue.set_write_buffer. cbn. now rewrite app_assoc.
  - reflexivity.
  - reflexivity.
Qed.

#[export] Instance pipe_source_laws : SourceLaws (list byte).
Proof.
  split.
  - reflexivity.
  - intros n m p. cbn. apply drop_drop.
  - intros n p _ [Hn Hlen]. cbn in *. unfold Pipe.Read.
    destruct (Z.leb_spec n (Z.of_nat (length p))); [reflexivity | lia].
  - reflexivity.
  - intros; exact I.
Qed.

#[export] Instance pipe_channel_laws `{Protocol (list byte)} :
  ChannelLaws (list byte).
Proof.
  split; try typeclasses eauto.
  - intros; exact I.
  - reflexivity.
Qed.

#[export] Instance queue_source_laws : SourceLaws DiscoThreadedMessageQueue.t.
Proof.
  split.
  - intros [wb rb off dw cnt ring]. cbn.
    unfold DiscoThreadedMessageQueue.set_read_offset. cbn. f_equal. lia.
  - intros n m [wb rb off dw cnt ring]. cbn.
    unfold DiscoThreadedMessageQueue.set_read_offset. cbn. f_equal. lia.
  - intros n [wb rb off dw cnt ring]. cbn. intros Hv [Hn Hlen].
    rewrite length_drop in Hlen.
    unfold DiscoThreadedMessageQueue.Read,
      DiscoThreadedMessageQueue.set_read_offset. cbn.
    destruct (Z.leb_spec (off + n) (Z.of_nat (length rb))); [| exfalso; lia].
    do 2 f_equal. lia.
  - intros n [wb rb off dw cnt ring]. cbn. intros Hv.
    rewrite drop_drop. f_equal. lia.
  - intros n [wb rb off dw cnt ring]. cbn. rewrite length_drop. lia.
Qed.

(** ** The decoder, on any source *)

Section SourceFacts.
Context `{TypeIndex} {Ch : Type} `{Stream Ch} `{Protocol Ch}
      `{Source Ch} `{!SourceLaws Ch}.

Lemma remains_step (s0 : Ch) (m : nat) (bs rest : list byte) :
  remains s0 m (bs ++ rest) -> remains s0 (m + length bs) rest.
Proof.
  intros [Hv Hr]. unfold remains. rewrite <- consume_add. split.
  - apply valid_consume; [assumption |]. rewrite Hr, length_app. lia.
  - rewrite readable_consume, Hr by assumption. apply drop_app_length.
Qed.

Lemma Read_step {A} (s0 : Ch) (m : nat) (bs rest : list byte) (n : Z)
    (k : list byte -> M Ch A) :
  remains s0 m (bs ++ rest) -> n = Z.of_nat (length bs) ->
  bind (stream_Read n) k (consume m s0) = k bs (consume (m + length bs) s0).
Proof.
  intros [Hv Hr] ->. unfold bind.
  rewrite Read_readable; [| assumption | rewrite Hr, length_app; lia].
  rewrite Hr, Nat2Z.id, take_app_length, consume_add. reflexivity.
Qed.
End SourceFacts.

Ltac label_facts :=
  let Hd := fresh "Hd" in
  let Hr := fresh "Hr" in
  pose proof case_labels_distinct as Hd;
  pose proof case_labels_int32 as Hr;
  unfold case_labels in Hd, Hr;
  repeat (apply NoDup_cons in Hd; destruct Hd as [? Hd]);
  repeat (apply Forall_cons in Hr; destruct Hr as [? Hr]);
  repeat match goal with
         | Hn : _ ∉ _ |- _ => rewrite !not_elem_of_cons in Hn
         end;
  clear Hd Hr.

(** Decide the tests of the [switch] once the index is a known label. *)
Ltac resolve_switch :=
  repeat match goal with
         | |- context [?a =? ?a] => rewrite (Z.eqb_refl a)
         | |- context [?a =? ?b] =>
             destruct (Z.eqb_spec a b); [exfalso; intuition congruence |]
         end.

Ltac read_one Hrem :=
  rewrite (Read_step _ _ _ _ _ _ Hrem)
    by first [ now rewrite length_object_repr
             | now rewrite length_le_split
             | now rewrite (length_array_repr t_int64), length_map
                 by apply Forall_ctype_map_int64
             | now rewrite array_repr_chars ];
  apply remains_step in Hrem; cbv beta zeta.

Ltac same_length :=
  repeat match goal with H : _ |- _ => clear H end;
  cbn [object_repr];
  rewrite ?length_app, ?length_le_split, ?app_nil_r;
  cbn [length]; lia.

Ltac done_at :=
  unfold ret;
  match goal with
  | |- Done ?x (consume ?a ?s) = Done ?x (consume ?b ?s) =>
      replace b with a by same_length; reflexivity
  end.

Section DecodeFacts.
Context `{TypeIndex} {Ch : Type} `{Stream Ch} `{Protocol Ch}
      `{Source Ch} `{!SourceLaws Ch}.

Lemma wrap64_small (z : Z) : 0 <= z < 2 ^ 64 -> wrap64 z = z.
Proof. intros Hz. unfold wrap64. now apply Z.mod_small. Qed.

Lemma ReceiveDLTensor_wire (arr : DLTensor) (s0 : Ch) (m : nat)
    (rest : list byte) :
  DLTensor_ok arr ->
  remains s0 m (payload_wire false (ADLTensorPtr arr) ++ rest) ->
  ReceiveDLTensor (consume m s0)
  = Done arr
      (consume (m + length (payload_wire false (ADLTensorPtr arr))) s0).
Proof.
  intros (Hdata & Hdev & Hnd & Hlen & Hdt & Hsh & Hst & Hoff) Hrem.
  assert (Hsz : size_t (ndim arr) = ndim arr)
    by (apply wrap64_small; lia).
  unfold ReceiveDLTensor, Read, ReadArray.
  cbn [payload_wire] in *. unfold DLTensor_fields_wire in *.
  rewrite Hst, Hsz, Hlen, Nat2Z.id, firstn_all in *.
  rewrite <- ?app_assoc in Hrem.
  do 4 read_one Hrem.
  cbn [object_repr] in *.
  rewrite to_int32_split by (unfold int32_range; lia).
  rewrite Hsz, wrap64_small by (cbn [sizeof]; lia).
  read_one Hrem. read_one Hrem.
  rewrite Nat2Z.id, to_int64_array_repr by assumption.
  rewrite !to_uint64_split by assumption.
  fold (object_repr (v_DLDevice (device arr))).
  fold (object_repr (v_DLDataType (dtype arr))).
  rewrite to_DLDevice_repr, to_DLDataType_repr by assumption.
  unfold ret.
  replace {| data := data arr; device := device arr;
             ndim := Z.of_nat (length (shape arr)); dtype := dtype arr;
             shape := shape arr; strides := None;
             byte_offset := byte_offset arr |} with arr
    by (destruct arr; cbn in *; congruence).
  done_at.
Qed.

Lemma RecvArg_wire (client_mode : bool) (a : TVMFFIAny) (s0 : Ch) (m : nat)
    (rest : list byte) :
  representable a ->
  remains s0 m (arg_wire client_mode a ++ rest) ->
  RecvArg (consume m s0)
  = Done a (consume (m + length (arg_wire client_mode a)) s0).
Proof.
  intros Hrep Hrem. label_facts.
  unfold RecvArg, Read.
  destruct a; try contradiction; unfold arg_wire in *;
    cbn [payload_wire type_index representable] in *;
    rewrite <- ?app_assoc in Hrem;
    read_one Hrem; cbn [object_repr];
    rewrite to_int32_split by assumption; resolve_switch;
    clear - Hrep Hrem SourceLaws0.
  - done_at.
  - read_one Hrem. cbn [object_repr].
    rewrite to_int64_split by assumption. done_at.
  - read_one Hrem. cbn [object_repr].
    rewrite to_int64_split by assumption. done_at.
  - read_one Hrem. cbn [object_repr].
    rewrite to_int64_split by assumption. done_at.
  - read_one Hrem. cbn [object_repr].
    rewrite to_uint64_split by assumption. done_at.
  - read_one Hrem. read_one Hrem.
    rewrite to_DLDataType_repr by assumption. done_at.
  - read_one Hrem.
    rewrite to_DLDevice_repr by assumption. done_at.
  - (* tensor descriptor *)
    unfold bind at 1.
    rewrite (ReceiveDLTensor_wire arr s0 _ rest);
      [| assumption | cbn [payload_wire]; rewrite <- app_assoc; exact Hrem].
    cbn [payload_wire]. done_at.
  - (* raw string *)
    destruct Hrep as [Hterm Hmax]. pose proof (StrLength_range v_c_str).
    rewrite array_repr_chars in *.
    read_one Hrem. cbn [object_repr].
    rewrite to_uint64_split by (unfold uint64_range; lia).
    unfold ReadArray, size_t. cbn [sizeof].
    rewrite (wrap64_small (StrLength v_c_str)), Z.mul_1_l, wrap64_small by lia.
    rewrite (Read_step _ _ _ _ _ _ Hrem) by (rewrite length_take; lia).
    rewrite StrLength_terminated by assumption. done_at.
  - (* byte buffer *)
    destruct Hrep as [Hsize Hmax]. destruct bytes as [dat size]. cbn in Hsize, Hmax.
    cbn [ba_size ba_data] in *.
    assert (Hsz : size_t size = size) by (apply wrap64_small; lia).
    rewrite Hsz in *. subst size. rewrite Nat2Z.id, firstn_all, array_repr_chars in *.
    read_one Hrem. cbn [object_repr].
    rewrite to_uint64_split by (unfold uint64_range; lia).
    unfold ReadArray. cbn [sizeof].
    rewrite Hsz, Z.mul_1_l, wrap64_small by lia.
    rewrite (Read_step _ _ _ _ _ _ Hrem) by reflexivity.
    done_at.
Qed.
End DecodeFacts.

Lemma representable_builtin (a : TVMFFIAny) : representable a -> builtin a.
Proof. destruct a; cbn; tauto. Qed.

Lemma representable_not_rejected (client_mode : bool) (a : TVMFFIAny) :
  representable a -> rejects client_mode a = None.
Proof.
  destruct a; cbn; try tauto.
  intros (_ & _ & _ & _ & _ & _ & -> & _). reflexivity.
Qed.

Lemma representable_status (client_mode : bool) (args : list TVMFFIAny) :
  Forall representable args -> args_status client_mode args = None.
Proof.
  induction 1 as [| a args Ha _ IH]; cbn [args_status]; [reflexivity |].
  now rewrite representable_not_rejected.
Qed.

Section DecodeSeq.
Context `{TypeIndex} {Ch : Type} `{Stream Ch} `{Protocol Ch}
      `{Source Ch} `{!SourceLaws Ch}.

Lemma RecvArgs_wire (client_mode : bool) (args : list TVMFFIAny) (s0 : Ch)
    (m : nat) (rest : list byte) :
  Forall representable args ->
  remains s0 m (args_wire client_mode args ++ rest) ->
  RecvArgs (length args) (consume m s0)
  = Done args (consume (m + length (args_wire client_mode args)) s0).
Proof.
  intros Hrep. revert m.
  induction Hrep as [| a args Ha _ IH]; intros m Hrem;
    cbn [RecvArgs args_wire length] in *.
  - unfold ret. now rewrite Nat.add_0_r.
  - rewrite representable_not_rejected in * by assumption.
    rewrite <- app_assoc in Hrem.
    unfold bind at 1.
    rewrite (RecvArg_wire client_mode a s0 m _ Ha Hrem).
    apply remains_step in Hrem.
    unfold bind at 1. rewrite (IH _ Hrem). unfold ret.
    rewrite length_app, Nat.add_assoc. reflexivity.
Qed.

Lemma RecvPackedSeq_wire (client_mode : bool) (args : list TVMFFIAny)
    (s0 : Ch) (m : nat) (rest : list byte) :
  Forall representable args ->
  Z.of_nat (length args) < 2 ^ 31 ->
  remains s0 m (seq_wire client_mode args ++ rest) ->
  RecvPackedSeq (consume m s0)
  = Done (Z.of_nat (length args), args)
      (consume (m + length (seq_wire client_mode args)) s0).
Proof.
  intros Hrep Hlen Hrem. unfold RecvPackedSeq, Read, seq_wire in *.
  rewrite <- app_assoc in Hrem.
  read_one Hrem. cbn [object_repr] in *.
  rewrite to_int32_split by (unfold int32_range; lia).
  destruct (Z.eqb_spec (Z.of_nat (length args)) 0) as [Hz | Hnz].
  - destruct args; [| cbn [length] in Hz; lia].
    cbn [args_wire length]. unfold ret. rewrite app_nil_r. reflexivity.
  - rewrite Nat2Z.id. unfold bind.
    rewrite (RecvArgs_wire client_mode args s0 _ rest Hrep Hrem).
    unfold ret. rewrite length_app, Nat.add_assoc. reflexivity.
Qed.
End DecodeSeq.

(** C1. For every sequence of representable values, on every lawful
    channel with nothing unread, [SendPackedSeq] succeeds and
    [RecvPackedSeq] applied to what it wrote returns the count and a
    sequence equal to the original, leaving nothing unread. *)
Theorem packed_seq_round_trip
    `{TypeIndex} {Ch : Type} `{Stream Ch} `{Protocol Ch} `{Sink Ch}
    `{Source Ch} `{!ChannelLaws Ch}
    (args : list TVMFFIAny) (client_mode : bool) (s : Ch) :
  Forall representable args ->
  Z.of_nat (length args) < 2 ^ 31 ->
  valid s -> readable s = [] ->
  exists s1 s2,
    SendPackedSeq args (Z.of_nat (length args)) client_mode s = Done tt s1
    /\ RecvPackedSeq s1 = Done (Z.of_nat (length args), args) s2
    /\ readable s2 = [].
Proof.
  intros Hrep Hlen Hvalid Hempty.
  exists (put (seq_wire client_mode args) s).
  exists (consume (length (seq_wire client_mode args))
            (put (seq_wire client_mode args) s)).
  assert (Hrem : remains (put (seq_wire client_mode args) s) 0
                   (seq_wire client_mode args ++ [])).
  { split; rewrite consume_O.
    - now apply valid_put.
    - now rewrite readable_put, Hempty, app_nil_r. }
  split; [| split].
  - rewrite SendPackedSeq_put
      by (eapply Forall_impl; [eassumption | apply representable_builtin]).
    now rewrite representable_status.
  - rewrite <- (consume_O (put (seq_wire client_mode args) s)) at 1.
    now rewrite (RecvPackedSeq_wire client_mode args _ 0 [] Hrep Hlen Hrem).
  - apply remains_step in Hrem. destruct Hrem as [_ Hr]. exact Hr.
Qed.

(** ** An index that is no case label *)

Section UnknownIndex.
Context `{TypeIndex} {Ch : Type} `{Stream Ch} `{Protocol Ch}
      `{Source Ch} `{!SourceLaws Ch}.

Lemma RecvArg_unknown (tag : Z) (s0 : Ch) (m : nat) (tail : list byte) :
  int32_range tag ->
  tag ∉ recv_labels ->
  tag < kTVMFFIStaticObjectBegin ->
  remains s0 m (object_repr (v_int32 tag) ++ tail) ->
  RecvArg (consume m s0)
  = Throw (RPCError kUnknownTypeIndex)
      (consume (m + length (object_repr (v_int32 tag))) s0).
Proof.
  intros Hrange Hnot Hlow Hrem.
  unfold recv_labels in Hnot. rewrite !not_elem_of_cons in Hnot.
  unfold RecvArg, Read. read_one Hrem. cbn [object_repr].
  rewrite to_int32_split by assumption.
  repeat match goal with
         | |- context [tag =? ?b] =>
             destruct (Z.eqb_spec tag b); [exfalso; intuition congruence |]
         end.
  rewrite Z.geb_leb.
  destruct (Z.leb_spec kTVMFFIStaticObjectBegin tag); [exfalso; lia |].
  reflexivity.
Qed.

Lemma RecvArgs_unknown (client_mode : bool) (pre : list TVMFFIAny) (tag : Z)
    (k : nat) (s0 : Ch) (m : nat) (tail : list byte) :
  Forall representable pre ->
  int32_range tag ->
  tag ∉ recv_labels ->
  tag < kTVMFFIStaticObjectBegin ->
  remains s0 m
    (args_wire client_mode pre ++ object_repr (v_int32 tag) ++ tail) ->
  RecvArgs (length pre + S k) (consume m s0)
  = Throw (RPCError kUnknownTypeIndex)
      (consume (m + length (args_wire client_mode pre
                            ++ object_repr (v_int32 tag))) s0).
Proof.
  intros Hrep Hrange Hnot Hlow. revert m.
  induction Hrep as [| a pre Ha _ IH]; intros m Hrem;
    cbn [length Nat.add RecvArgs args_wire app] in *.
  - unfold bind. now rewrite (RecvArg_unknown tag s0 m tail).
  - rewrite representable_not_rejected in * by assumption.
    rewrite <- app_assoc in Hrem.
    unfold bind at 1.
    rewrite (RecvArg_wire client_mode a s0 m _ Ha Hrem).
    apply remains_step in Hrem.
    unfold bind at 1. rewrite (IH _ Hrem).
    rewrite <- app_assoc, (length_app (arg_wire client_mode a)), Nat.add_assoc.
    reflexivity.
Qed.
End UnknownIndex.

(** C6. If, after any number of well-formed arguments, the decoder reads
    a type index that is none of its case labels and lies below
    [kTVMFFIStaticObjectBegin], [RecvPackedSeq] raises
    [kUnknownTypeIndex]; no value is returned, and nothing behind the
    index has been read. *)
Theorem unknown_type_index_is_fatal
    `{TypeIndex} {Ch : Type} `{Stream Ch} `{Protocol Ch}
    `{Source Ch} `{!SourceLaws Ch}
    (client_mode : bool) (pre : list TVMFFIAny) (tag num_args : Z)
    (tail : list byte) (s : Ch) :
  Forall representable pre ->
  int32_range tag ->
  tag ∉ recv_labels ->
  tag < kTVMFFIStaticObjectBegin ->
  Z.of_nat (length pre) < num_args < 2 ^ 31 ->
  valid s ->
  readable s
  = object_repr (v_int32 num_args) ++ args_wire client_mode pre
    ++ object_repr (v_int32 tag) ++ tail ->
  exists s',
    RecvPackedSeq s = Throw (RPCError kUnknownTypeIndex) s'
    /\ readable s' = tail.
Proof.
  intros Hrep Hrange Hnot Hlow Hnum Hvalid Hread.
  assert (Hrem : remains s 0
            (object_repr (v_int32 num_args) ++ args_wire client_mode pre
             ++ object_repr (v_int32 tag) ++ tail)).
  { split; now rewrite consume_O. }
  pose proof Hrem as Hend.
  rewrite 2!app_assoc in Hend. apply remains_step in Hend.
  eexists. split; [| exact (proj2 Hend)].
  rewrite <- (consume_O s) at 1.
  unfold RecvPackedSeq, Read.
  read_one Hrem. cbn [object_repr] in *.
  rewrite to_int32_split by (unfold int32_range; lia).
  destruct (Z.eqb_spec num_args 0) as [Hz | _]; [exfalso; lia |].
  replace (Z.to_nat num_args)
    with (length pre + S (Z.to_nat num_args - length pre - 1))%nat by lia.
  unfold bind.
  rewrite (RecvArgs_unknown client_mode pre tag _ s _ tail) by assumption.
  cbn [object_repr]. rewrite !length_app, !Nat.add_assoc. reflexivity.
Qed.

(** ** Reply packets *)

Section ReplyFacts.
Context `{TypeIndex} {Ch : Type} `{Stream Ch} `{Protocol Ch} `{Framed Ch}
      `{Sink Ch} `{!SinkLaws Ch}.

Lemma PackedSeqGetNumBytes_wire (client_mode : bool)
    (args : list TVMFFIAny) (s : Ch) :
  Forall builtin args ->
  PackedSeqGetNumBytes args (Z.of_nat (length args)) client_mode s
  = match args_status client_mode args with
    | None => Done (wrap64 (Z.of_nat (length (seq_wire client_mode args)))) s
    | Some st => Throw (RPCError st) s
    end.
Proof.
  intros Hb. unfold PackedSeqGetNumBytes.
  rewrite SendPackedSeq_put by assumption.
  destruct (args_status client_mode args); reflexivity.
Qed.

Lemma ReturnPackedSeq_rejected (args : list TVMFFIAny)
    (st : RPCServerStatus) (s : Ch) :
  Forall builtin args ->
  args_status false args = Some st ->
  ReturnPackedSeq args (Z.of_nat (length args)) s = Throw (RPCError st) s.
Proof.
  intros Hb Hst. unfold ReturnPackedSeq, bind.
  now rewrite PackedSeqGetNumBytes_wire, Hst.
Qed.
Lemma ReturnPackedSeq_packet (args : list TVMFFIAny) (s : Ch) :
  Forall builtin args ->
  args_status false args = None ->
  Z.of_nat (length (seq_wire false args)) + sizeof t_RPCCode < 2 ^ 64 ->
  ReturnPackedSeq args (Z.of_nat (length args)) s
  = Done tt (MessageDone
               (put (packet kReturn (seq_wire false args))
                  (MessageStart
                     (sizeof t_RPCCode
                      + Z.of_nat (length (seq_wire false args))) s))).
Proof.
  intros Hb Hst Hfit.
  unfold ReturnPackedSeq, bind, lift.
  rewrite PackedSeqGetNumBytes_wire, Hst by assumption.
  rewrite !Write_put, SendPackedSeq_put, Hst by assumption. cbn [finish].
  rewrite !put_app. unfold packet.
  rewrite (wrap64_small (Z.of_nat _)) by (cbn [sizeof] in *; lia).
  rewrite wrap64_small by (cbn [sizeof] in *; lia).
  rewrite length_app, Nat2Z.inj_add, length_object_repr.
  cbn [ctype_of]. rewrite <- ?app_assoc. reflexivity.
Qed.
End ReplyFacts.

(** C2. Each of [ReturnPackedSeq], [ReturnException] and [ReturnVoid]
    hands the channel exactly one packet, a 64-bit length, the command code
    and the payload, in which the length is the number of bytes that follow
    it; and the count [PackedSeqGetNumBytes] computes beforehand is the
    number of bytes [SendPackedSeq] then writes. *)
Theorem reply_is_one_framed_packet
    `{TypeIndex} {Ch : Type} `{Stream Ch} `{Protocol Ch} `{Framed Ch}
    `{Sink Ch} `{!SinkLaws Ch}
    (args : list TVMFFIAny) (msg : list byte) (s : Ch) :
  Forall builtin args ->
  args_status false args = None ->
  Z.of_nat (length (seq_wire false args)) + sizeof t_RPCCode < 2 ^ 64 ->
  Z.of_nat (length msg) + 20 < 2 ^ 64 ->
  let num_args := Z.of_nat (length args) in
  let payload := seq_wire false args in
  let nbytes (p : list byte) := sizeof t_RPCCode + Z.of_nat (length p) in
  PackedSeqGetNumBytes args num_args false s
    = Done (Z.of_nat (length payload)) s
  /\ SendPackedSeq args num_args false s = Done tt (put payload s)
  /\ ReturnPackedSeq args num_args s
     = Done tt (MessageDone
                  (put (packet kReturn payload)
                     (MessageStart (nbytes payload) s)))
  /\ ReturnException msg s
     = Done tt (MessageDone
                  (put (packet kException (seq_wire false [ARawStr msg]))
                     (MessageStart (nbytes (seq_wire false [ARawStr msg])) s)))
  /\ ReturnVoid s
     = Done tt (MessageDone
                  (put (packet kReturn (seq_wire false [ANone]))
                     (MessageStart (nbytes (seq_wire false [ANone])) s))).
Proof.
  intros Hb Hst Hfit Hmsg num_args payload nbytes.
  subst num_args payload nbytes. cbv beta.
  assert (Hcount : wrap64 (Z.of_nat (length (seq_wire false args)))
                   = Z.of_nat (length (seq_wire false args))).
  { apply Z.mod_small. cbn [sizeof] in Hfit. lia. }
  repeat split.
  - rewrite PackedSeqGetNumBytes_wire, Hst by assumption.
    now rewrite Hcount.
  - now rewrite SendPackedSeq_put, Hst by assumption.
  - now apply ReturnPackedSeq_packet.
  - pose proof (StrLength_range msg) as Hlen.
    unfold ReturnException, bind, lift.
    rewrite !Write_put, WriteArray_put by apply Forall_ctype_map_char.
    rewrite !put_app. unfold packet, seq_wire.
    cbn [args_wire rejects length]. unfold arg_wire.
    cbn [payload_wire type_index Z.of_nat Pos.of_succ_nat].
    fold (array_repr (map v_char (take (Z.to_nat (StrLength msg)) msg))).
    rewrite array_repr_chars, !app_nil_r.
    rewrite !length_app, !Nat2Z.inj_add, !length_object_repr, length_take.
    cbn [ctype_of sizeof Z.of_nat Pos.of_succ_nat Pos.succ].
    replace (Z.of_nat (Z.to_nat (StrLength msg) `min` length msg))
      with (StrLength msg) by lia.
    rewrite wrap64_small by lia.
    replace (4 + (4 + (4 + (8 + StrLength msg))))
      with (4 + 4 + 4 + 8 + StrLength msg) by lia.
    rewrite <- ?app_assoc. reflexivity.
  - unfold ReturnVoid, bind, lift.
    rewrite !Write_put, !put_app. unfold packet, seq_wire.
    cbn [args_wire rejects length]. unfold arg_wire.
    cbn [payload_wire type_index Z.of_nat Pos.of_succ_nat].
    rewrite !app_nil_r.
    rewrite !length_app, !Nat2Z.inj_add, !length_object_repr.
    cbn [ctype_of sizeof Z.of_nat Pos.of_succ_nat Pos.succ].
    rewrite wrap64_small by lia.
    rewrite <- ?app_assoc. reflexivity.
Qed.

(** ** The values the encoder refuses *)

Lemma rejects_Some_offending (client_mode : bool) (a : TVMFFIAny)
    (st : RPCServerStatus) :
  rejects client_mode a = Some st -> offending client_mode a.
Proof.
  destruct a; cbn; try discriminate; try (intros _; exact I).
  - destruct client_mode; [discriminate | reflexivity].
  - destruct client_mode; [discriminate | reflexivity].
  - destruct (strides arr); [discriminate | discriminate].
Qed.

Lemma offending_rejects (client_mode : bool) (a : TVMFFIAny) :
  offending client_mode a -> exists st, rejects client_mode a = Some st.
Proof.
  destruct a; cbn; try contradiction; eauto.
  - intros ->. eauto.
  - intros ->. eauto.
  - destruct (strides arr); [eauto | congruence].
Qed.

Lemma rejects_None_iff (client_mode : bool) (a : TVMFFIAny) :
  rejects client_mode a = None <-> ~ offending client_mode a.
Proof.
  split.
  - intros Hr Ho. apply offending_rejects in Ho as [st Hst]. congruence.
  - intros Hn. destruct (rejects client_mode a) as [st |] eqn:Hr; [| reflexivity].
    apply rejects_Some_offending in Hr. contradiction.
Qed.

Lemma args_at_first_offender `{TypeIndex} (client_mode : bool)
    (pre : list TVMFFIAny) (a : TVMFFIAny) (post : list TVMFFIAny)
    (st : RPCServerStatus) :
  Forall (fun x => ~ offending client_mode x) pre ->
  rejects client_mode a = Some st ->
  args_status client_mode (pre ++ a :: post) = Some st
  /\ args_wire client_mode (pre ++ a :: post)
     = args_wire client_mode pre ++ arg_wire client_mode a.
Proof.
  intros Hpre Ha.
  induction Hpre as [| x pre Hx _ IH]; cbn [app args_status args_wire].
  - rewrite Ha. now rewrite app_nil_r.
  - apply rejects_None_iff in Hx. rewrite Hx.
    destruct IH as [-> ->]. now rewrite app_assoc.
Qed.

Lemma arg_wire_offending `{TypeIndex} (client_mode : bool) (a : TVMFFIAny) :
  offending client_mode a ->
  arg_wire client_mode a
  = object_repr (v_int32 (type_index a)) ++ written_before_error a.
Proof.
  unfold arg_wire.
  destruct a; cbn; try contradiction; try reflexivity.
  - now intros ->.
  - now intros ->.
  - destruct (strides arr); [now rewrite app_nil_r | congruence].
Qed.

Lemma offending_builtin (client_mode : bool) (a : TVMFFIAny) :
  offending client_mode a -> builtin a.
Proof. destruct a; cbn; auto. Qed.

Lemma builtin_dec (a : TVMFFIAny) : {builtin a} + {~ builtin a}.
Proof. destruct a; cbn; auto. Qed.

Lemma args_status_None (client_mode : bool) (args : list TVMFFIAny) :
  Forall (fun x => ~ offending client_mode x) args ->
  args_status client_mode args = None.
Proof.
  induction 1 as [| x args Hx _ IH]; [reflexivity |].
  cbn [args_status]. apply rejects_None_iff in Hx. now rewrite Hx.
Qed.

Section RefusedFacts.
Context `{TypeIndex} {Ch : Type} `{TChannel Ch} `{Sink Ch} `{!SinkLaws Ch}.

Lemma SendArg_offending (client_mode : bool) (a : TVMFFIAny) (s : Ch) :
  offending client_mode a ->
  exists st,
    rejects client_mode a = Some st
    /\ SendArg client_mode a s
       = Throw (RPCError st)
           (put (object_repr (v_int32 (type_index a))
                 ++ written_before_error a) s).
Proof.
  intros Ha. destruct (offending_rejects _ _ Ha) as [st Hst].
  exists st. split; [exact Hst |].
  rewrite SendArg_put by (eapply offending_builtin; exact Ha).
  rewrite Hst, arg_wire_offending by exact Ha. reflexivity.
Qed.

Lemma SendArg_accepted (client_mode : bool) (a : TVMFFIAny) (s : Ch) :
  accepted a -> ~ offending client_mode a ->
  exists s', SendArg client_mode a s = Done tt s'.
Proof.
  intros Hacc Hno. destruct (builtin_dec a) as [Hb | Hnb].
  - rewrite SendArg_put by exact Hb.
    apply rejects_None_iff in Hno. rewrite Hno. cbn [finish]. eauto.
  - destruct Hacc as [Hb | Hw]; [contradiction |].
    destruct a; cbn in Hnb; try (exfalso; apply Hnb; exact I).
    unfold SendArg, bind, lift. apply Hw.
Qed.

(** An argument the encoder refuses stops the loop, whatever came before
    it. *)
Lemma SendArgs_offending (client_mode : bool) (args : list TVMFFIAny) (s : Ch) :
  Exists (offending client_mode) args ->
  exists e s', SendArgs client_mode args s = Throw e s'.
Proof.
  intros Hex. revert s.
  induction Hex as [a args Ha | a args _ IH]; intros s; cbn [SendArgs];
    unfold bind.
  - destruct (SendArg_offending client_mode a s Ha) as (st & _ & ->). eauto.
  - destruct (SendArg client_mode a s) as [[] s1 | e s1]; [apply IH | eauto].
Qed.

(** Where the channel takes the values of the other kinds, the loop stops
    only at an argument the encoder refuses. *)
Lemma SendArgs_raises_only_then (client_mode : bool) (args : list TVMFFIAny)
    (s : Ch) (e : fatal) (s' : Ch) :
  Forall accepted args ->
  SendArgs client_mode args s = Throw e s' ->
  Exists (offending client_mode) args /\ exists st, e = RPCError st.
Proof.
  intros Hacc. revert s.
  induction Hacc as [| a args Ha _ IH]; intros s; cbn [SendArgs].
  - discriminate.
  - unfold bind.
    destruct (rejects client_mode a) as [st |] eqn:Hr.
    + apply rejects_Some_offending in Hr.
      destruct (SendArg_offending client_mode a s Hr) as (st' & _ & ->).
      intros [= <- _]. split; [now left | eauto].
    + apply rejects_None_iff in Hr.
      destruct (SendArg_accepted client_mode a s Ha Hr) as [s1 ->].
      intros Hrest. destruct (IH s1 Hrest) as [Hex Hst].
      split; [now right | exact Hst].
Qed.

(** The loop at the first argument the encoder refuses. *)
Lemma SendArgs_first_offender (client_mode : bool)
    (pre : list TVMFFIAny) (a : TVMFFIAny) (post : list TVMFFIAny) (s : Ch) :
  Forall accepted pre ->
  Forall (fun x => ~ offending client_mode x) pre ->
  offending client_mode a ->
  exists st s_pre,
    rejects client_mode a = Some st
    /\ SendArgs client_mode pre s = Done tt s_pre
    /\ SendArgs client_mode (pre ++ a :: post) s
       = Throw (RPCError st)
           (put (object_repr (v_int32 (type_index a))
                 ++ written_before_error a) s_pre).
Proof.
  intros Hacc Hno Ha. revert s.
  induction Hacc as [| x pre Hx _ IH]; intros s; cbn [app SendArgs].
  - destruct (SendArg_offending client_mode a s Ha) as (st & Hst & Hrun).
    exists st, s. unfold bind. rewrite Hrun. auto.
  - apply Forall_cons in Hno as [Hnx Hno].
    destruct (SendArg_accepted client_mode x s Hx Hnx) as [s1 Hs1].
    destruct (IH Hno s1) as (st & s_pre & Hst & Hpre & Hrun).
    exists st, s_pre. unfold bind. rewrite Hs1. auto.
Qed.

Lemma SendArgs_done_dense (client_mode : bool) (args : list TVMFFIAny)
    (s s' : Ch) :
  SendArgs client_mode args s = Done tt s' -> Forall dense args.
Proof.
  intros Hdone. apply Forall_forall. intros a Hin.
  destruct a; try exact I. cbn [dense].
  destruct (strides arr) as [st |] eqn:Hst; [| reflexivity].
  destruct (SendArgs_offending client_mode args s) as (e & s1 & Hthrow).
  - apply Exists_exists. exists (ADLTensorPtr arr). split; [exact Hin |].
    cbn [offending]. congruence.
  - congruence.
Qed.
End RefusedFacts.

(** The statement about the payload holds of every sequence of values of
    the kinds of the case labels in which no tensor descriptor has
    strides. *)
Lemma no_payload_when_refused_dense `{TypeIndex} `{Protocol (list byte)}
    (client_mode : bool) (args : list TVMFFIAny) :
  Forall builtin args -> Forall dense args ->
  no_payload_when_refused client_mode args.
Proof.
  intros Hb Hd pre a post st buf Hargs Hpre Ha.
  rewrite (SendPackedSeq_put (SinkLaws0 := pipe_sink_laws)) by exact Hb.
  destruct (offending_rejects _ _ Ha) as [st' Hst'].
  subst args.
  destruct (args_at_first_offender client_mode pre a post st' Hpre Hst')
    as [Hstatus Hwire].
  apply Forall_app in Hd as [_ Hd]. apply Forall_cons in Hd as [Hda _].
  assert (Hw : written_before_error a = []).
  { destruct a; try reflexivity. cbn in Ha, Hda. contradiction. }
  unfold seq_wire. rewrite Hstatus, Hwire, arg_wire_offending by exact Ha.
  rewrite Hw, app_nil_r. cbn [finish]. unfold put, pipe_sink. cbn [app].
  intros Hrun. injection Hrun as _ <-. reflexivity.
Qed.

(** C10, amended. [SendPackedSeq] raises whenever the sequence holds an
    NDArray, a Function or Module while [client_mode] is false, or a tensor
    descriptor with strides.  Where every value of a kind it has no case
    label for is one the channel's [WriteFFIAny] takes, it raises only
    then; and when this holds of the arguments before the first such
    argument, it raises at that argument, with the status of that
    argument.  Behind what the arguments before it have left on the
    channel (the count and their wire images, when they are of the kinds of
    the case labels) it has then written the type index of the refused
    argument; for an NDArray, Function or Module nothing more, for a tensor
    descriptor with strides also its handle, device, rank, data type and
    shape.  If the call returns, every tensor descriptor of the sequence is
    dense. *)
Theorem encoder_domain_restriction
    `{TypeIndex} {Ch : Type} `{TChannel Ch} `{Sink Ch} `{!SinkLaws Ch}
    (args : list TVMFFIAny) (client_mode : bool) (s : Ch) :
  let count := v_int32 (Z.of_nat (length args)) in
  let run := SendPackedSeq args (Z.of_nat (length args)) client_mode s in
  (Exists (offending client_mode) args -> exists e s', run = Throw e s')
  /\ (Forall accepted args ->
      forall e s',
        run = Throw e s' ->
        Exists (offending client_mode) args /\ exists st, e = RPCError st)
  /\ (forall pre a post,
        args = pre ++ a :: post ->
        Forall accepted pre ->
        Forall (fun x => ~ offending client_mode x) pre ->
        offending client_mode a ->
        exists st s_pre,
          rejects client_mode a = Some st
          /\ SendArgs client_mode pre (Write count s) = Done tt s_pre
          /\ (Forall builtin pre ->
              s_pre = put (object_repr count ++ args_wire client_mode pre) s)
          /\ run = Throw (RPCError st)
                    (put (object_repr (v_int32 (type_index a))
                          ++ written_before_error a) s_pre))
  /\ (forall s', run = Done tt s' -> Forall dense args).
Proof.
  intros count run. subst run count. unfold SendPackedSeq.
  rewrite Nat2Z.id, firstn_all. unfold bind at 1 2 3 4, lift.
  split; [| split; [| split]].
  - apply SendArgs_offending.
  - intros Hacc e s'. now apply SendArgs_raises_only_then.
  - intros pre a post -> Hacc Hpre Ha.
    destruct (SendArgs_first_offender client_mode pre a post
                (Write (v_int32 (Z.of_nat (length (pre ++ a :: post)))) s)
                Hacc Hpre Ha) as (st & s_pre & Hst & Hdone & Hrun).
    exists st, s_pre. split; [exact Hst |]. split; [exact Hdone |].
    split; [| exact Hrun].
    intros Hb. rewrite Write_put, SendArgs_put in Hdone by exact Hb.
    rewrite args_status_None in Hdone by exact Hpre.
    cbn [finish] in Hdone. congruence.
  - intros s'. apply SendArgs_done_dense.
Qed.

(** ** The theorems at sample values *)

Ltac in_range :=
  cbn; unfold DLTensor_ok, DLDevice_ok, DLDataType_ok, int32_range,
    int64_range, uint64_range; cbn;
  repeat match goal with
         | |- _ /\ _ => split
         | |- Forall _ _ => constructor
         end;
  first [lia | reflexivity | exact I].

Lemma sample_args_representable : Forall representable sample_args.
Proof. unfold sample_args. repeat (constructor; [in_range |]). constructor. Defined.

Lemma packed_seq_round_trip_witness :
  exists s1 s2 : list byte,
    SendPackedSeq (H := sample_type_index)
      (H0 := @stream_channel _ Pipe.pipe_stream (no_extension (list byte)))
      sample_args (Z.of_nat (length sample_args)) true [] = Done tt s1
    /\ RecvPackedSeq (H := sample_type_index) (H1 := (no_extension (list byte))) s1
       = Done (Z.of_nat (length sample_args), sample_args) s2
    /\ readable s2 = [].
Proof.
  apply (@packed_seq_round_trip sample_type_index (list byte) Pipe.pipe_stream
           (no_extension (list byte)) pipe_sink pipe_source
           (@pipe_channel_laws (no_extension (list byte))) sample_args true []).
  - exact sample_args_representable.
  - cbn. lia.
  - exact I.
  - reflexivity.
Defined.

Lemma unknown_type_index_is_fatal_witness :
  exists s' : list byte,
    RecvPackedSeq (H := sample_type_index) (H1 := (no_extension (list byte)))
      (object_repr (v_int32 2) ++ args_wire true [AInt 5]
       ++ object_repr (v_int32 10) ++ [Byte.x01])
    = Throw (RPCError kUnknownTypeIndex) s'
    /\ readable s' = [Byte.x01].
Proof.
  apply (@unknown_type_index_is_fatal sample_type_index (list byte)
           Pipe.pipe_stream (no_extension (list byte)) pipe_source pipe_source_laws
           true [AInt 5] 10 2 [Byte.x01]).
  - repeat (constructor; [in_range |]). constructor.
  - unfold int32_range. lia.
  - apply (bool_decide_unpack _). vm_compute. exact I.
  - cbn. lia.
  - cbn. lia.
  - exact I.
  - reflexivity.
Defined.

Lemma sample_args_builtin : Forall builtin sample_args.
Proof. unfold sample_args. repeat (constructor; [exact I |]). constructor. Defined.

Lemma reply_is_one_framed_packet_witness :
  let Hc := @stream_channel _ Pipe.pipe_stream (no_extension (list byte)) in
  let num_args := Z.of_nat (length sample_args) in
  let payload := seq_wire false sample_args in
  let nbytes (p : list byte) := sizeof t_RPCCode + Z.of_nat (length p) in
  let msg := [Byte.x65; Byte.x72; Byte.x72; Byte.x00] in
  PackedSeqGetNumBytes (H1 := (no_extension (list byte))) sample_args num_args false []
    = Done (Z.of_nat (length payload)) []
  /\ SendPackedSeq (H0 := Hc) sample_args num_args false []
     = Done tt (put payload [])
  /\ ReturnPackedSeq (H1 := (no_extension (list byte))) sample_args num_args []
     = Done tt (MessageDone
                  (put (packet kReturn payload)
                     (MessageStart (nbytes payload) [])))
  /\ ReturnException (H1 := (no_extension (list byte))) msg []
     = Done tt (MessageDone
                  (put (packet kException (seq_wire false [ARawStr msg]))
                     (MessageStart (nbytes (seq_wire false [ARawStr msg])) [])))
  /\ ReturnVoid (H1 := (no_extension (list byte))) []
     = Done tt (MessageDone
                  (put (packet kReturn (seq_wire false [ANone]))
                     (MessageStart (nbytes (seq_wire false [ANone])) []))).
Proof.
  apply (@reply_is_one_framed_packet sample_type_index (list byte)
           Pipe.pipe_stream (no_extension (list byte)) Pipe.pipe_framed pipe_sink
           (@pipe_sink_laws (no_extension (list byte))) sample_args
           [Byte.x65; Byte.x72; Byte.x72; Byte.x00] []).
  - exact sample_args_builtin.
  - reflexivity.
  - vm_compute. reflexivity.
  - vm_compute. reflexivity.
Defined.

Lemma encoder_domain_restriction_witness :
  let Hc := @stream_channel _ Pipe.pipe_stream (no_extension (list byte)) in
  let args := [AInt 1; ADLTensorPtr strided_tensor; ANone] in
  SendPackedSeq (H := sample_type_index) (H0 := Hc) args 3 false []
  = Throw (RPCError kInvalidDLTensorFieldStride)
      (object_repr (v_int32 3) ++ arg_wire (H := sample_type_index) false (AInt 1)
       ++ object_repr (v_int32 7)
       ++ DLTensor_fields_wire strided_tensor).
Proof.
  intros Hc args.
  destruct (@encoder_domain_restriction sample_type_index (list byte) Hc
              pipe_sink (@pipe_sink_laws (no_extension (list byte)))
              args false [])
    as (_ & _ & Hfirst & _).
  destruct (Hfirst [AInt 1] (ADLTensorPtr strided_tensor) [ANone] eq_refl)
    as (st & s_pre & Hst & _ & Hpre & Hrun).
  - constructor; [now left | constructor].
  - constructor; [cbn; tauto | constructor].
  - cbn. discriminate.
  - injection Hst as <-.
    rewrite Hpre in Hrun by (constructor; [exact I | constructor]).
    exact Hrun.
Defined.

(** C10 as stated fails: a tensor descriptor with strides is refused only
    after its handle, device, rank, data type and shape have been written. *)
Lemma strided_tensor_leaves_payload :
  ~ no_payload_when_refused (H := sample_type_index) (H0 := (no_extension (list byte)))
      false [ADLTensorPtr strided_tensor].
Proof.
  intros Hclaim.
  assert (Hoff : offending false (ADLTensorPtr strided_tensor))
    by (cbn; discriminate).
  pose proof (Hclaim [] (ADLTensorPtr strided_tensor) []
                kInvalidDLTensorFieldStride _ eq_refl (List.Forall_nil _)
                Hoff eq_refl)
    as Hbuf.
  vm_compute in Hbuf. discriminate Hbuf.
Qed.

(** The proviso of the amended C10 is needed: on a channel whose extension
    takes no value, a value of a kind without a case label makes the
    encoder raise though no argument of the sequence is refused. *)
Lemma extension_value_may_raise :
  let Hc := @stream_channel _ Pipe.pipe_stream (no_extension (list byte)) in
  let args := [AInt 1; AOther 65 4096] in
  (exists s',
     SendPackedSeq (H := sample_type_index) (H0 := Hc) args 2 false []
     = Throw Unsupported s')
  /\ ~ Exists (offending false) args.
Proof.
  split.
  - eexists. vm_compute. reflexivity.
  - intros Hex. repeat (apply Exists_cons in Hex as [Hoff | Hex]);
      [exact Hoff | exact Hoff | inversion Hex].
Qed.

(** ** The in-process queue *)

Lemma wrap_int_small (z : Z) : - 2 ^ 31 <= z < 2 ^ 31 -> wrap_int z = z.
Proof. intros Hz. unfold wrap_int. apply (sint_wrap 32); [lia | exact Hz]. Qed.

Lemma RingBuffer_Read_app (x y : list byte) :
  RingBuffer.Read (Z.of_nat (length x)) (x ++ y) = Some (x, y).
Proof.
  unfold RingBuffer.Read.
  destruct (Z.leb_spec (Z.of_nat (length x)) (Z.of_nat (length (x ++ y))))
    as [_ | Hlt]; [| rewrite length_app in Hlt; lia].
  now rewrite Nat2Z.id, take_app_length, drop_app_length.
Qed.

Lemma sendable_builtin `{TypeIndex} (args : list TVMFFIAny) :
  sendable args -> Forall builtin args.
Proof.
  intros (Hrep & _). eapply Forall_impl; [exact Hrep | apply representable_builtin].
Qed.

Section QueueFacts.
Context `{TypeIndex} `{Protocol DiscoThreadedMessageQueue.t}.
Import DiscoThreadedMessageQueue.

Lemma Send_enqueues (pending : list (list TVMFFIAny)) (args : list TVMFFIAny)
    (q : t) :
  holds_packets pending q ->
  sendable args ->
  Z.of_nat (length pending) + 1 < 2 ^ 31 ->
  exists q',
    Send args q = Done tt q'
    /\ holds_packets (pending ++ [args]) q'
    /\ read_buffer_ q' = read_buffer_ q
    /\ read_offset_ q' = read_offset_ q.
Proof.
  intros (Hwb & Hcnt & Hring) Hs Hroom.
  pose proof (sendable_builtin args Hs) as Hb.
  destruct Hs as (Hrep & Hlen & Hfit).
  unfold Send, bind, lift.
  rewrite ReturnPackedSeq_packet;
    [| assumption | now apply representable_status | assumption].
  eexists. split; [reflexivity |].
  unfold holds_packets, CommitSendAndNotifyEnqueue, RingBuffer.Write.
  cbn [write_buffer_ read_buffer_ read_offset_ msg_cnt_ ring_buffer_
       MessageDone MessageStart queue_framed put queue_sink Write
       set_write_buffer].
  rewrite Hwb, Hcnt, Hring, length_app, map_app, concat_app.
  cbn [length map concat app]. rewrite app_nil_r.
  rewrite wrap_int_small by lia.
  repeat split; [lia].
Qed.

Lemma dequeue_locked_packet (payload tail : list byte) (q : t) :
  ring_buffer_ q = packet kReturn payload ++ tail ->
  Z.of_nat (length payload) + sizeof t_RPCCode < 2 ^ 64 ->
  dequeue_locked q
  = Done tt {| write_buffer_ := write_buffer_ q;
               read_buffer_ := object_repr (v_RPCCode kReturn) ++ payload;
               read_offset_ := 0;
               dequeue_waiting_ := false;
               msg_cnt_ := wrap_int (msg_cnt_ q - 1);
               ring_buffer_ := tail |}.
Proof.
  intros Hring Hfit. unfold dequeue_locked, packet in *.
  rewrite Hring, <- app_assoc.
  change 8 with (Z.of_nat (length (object_repr (v_uint64
    (Z.of_nat (length (object_repr (v_RPCCode kReturn) ++ payload))))))).
  rewrite RingBuffer_Read_app.
  cbn [object_repr]. rewrite to_uint64_split.
  - fold (object_repr (v_RPCCode kReturn)).
    now rewrite RingBuffer_Read_app.
  - unfold uint64_range. rewrite length_app, length_le_split.
    cbn [sizeof] in Hfit. lia.
Qed.

Lemma Recv_dequeues (args : list TVMFFIAny) (rest : list (list TVMFFIAny))
    (q : t) :
  holds_packets (args :: rest) q ->
  sendable args ->
  Z.of_nat (length (args :: rest)) < 2 ^ 31 ->
  exists q',
    Recv q = Some (Done (Z.of_nat (length args), args) q')
    /\ holds_packets rest q'
    /\ read_buffer_ q' = packet_body args
    /\ read_offset_ q' = Z.of_nat (length (packet_body args)).
Proof.
  intros (Hwb & Hcnt & Hring) (Hrep & Hlen & Hfit) Hroom.
  cbn [map concat length] in *.
  unfold Recv, DequeueNextPacket.
  destruct (Z.ltb_spec 0 (msg_cnt_ q)) as [_ | Hle]; [| lia].
  unfold bind at 1.
  rewrite (dequeue_locked_packet _ _ q Hring Hfit).
  match goal with
  | |- context [bind _ _ ?st] => set (q1 := st)
  end.
  assert (Hrem : remains q1 0
            (object_repr (v_RPCCode kReturn) ++ seq_wire false args ++ [])).
  { split; rewrite consume_O.
    - cbn. lia.
    - cbn. now rewrite app_nil_r. }
  rewrite <- (consume_O q1).
  change (Read (sizeof t_RPCCode)) with (stream_Read (S := t) (sizeof t_RPCCode)).
  read_one Hrem. unfold ret at 1.
  rewrite (RecvPackedSeq_wire false args q1 _ [] Hrep Hlen Hrem).
  eexists. split; [reflexivity |].
  unfold holds_packets, packet_body.
  cbn [consume queue_source set_read_offset q1 write_buffer_ read_buffer_
       read_offset_ msg_cnt_ ring_buffer_].
  rewrite Hcnt, wrap_int_small by lia.
  repeat split.
  all: rewrite ?length_app; try assumption; try lia.
Qed.

(** A schedule that never blocks, from a queue holding [pending]. *)
Lemma run_queue_fifo (ops : list queue_op) (pending : list (list TVMFFIAny))
    (q : t) :
  holds_packets pending q ->
  never_blocks ops (length pending) = true ->
  Forall sendable (pending ++ sent ops) ->
  Z.of_nat (length (pending ++ sent ops)) < 2 ^ 31 ->
  exists q',
    run_queue ops q
    = Some (map delivery_of (take (recvs ops) (pending ++ sent ops)), q')
    /\ holds_packets (drop (recvs ops) (pending ++ sent ops)) q'.
Proof.
  revert pending q.
  induction ops as [| op ops IH]; intros pending q Hq Hnb Hs Hroom.
  - cbn. rewrite app_nil_r. eauto.
  - destruct op as [args |]; cbn [run_queue sent recvs never_blocks] in *.
    + destruct (Send_enqueues pending args q Hq) as (q1 & -> & Hq1 & _).
      * rewrite Forall_app in Hs. destruct Hs as [_ Hs].
        now inversion Hs.
      * rewrite length_app in Hroom. cbn [length] in Hroom. lia.
      * replace (pending ++ args :: sent ops)
          with ((pending ++ [args]) ++ sent ops) in *
          by (now rewrite <- app_assoc).
        apply IH; try assumption.
        rewrite length_app, Nat.add_comm. exact Hnb.
    + destruct pending as [| args pending]; [discriminate |].
      cbn [length app] in *.
      destruct (Recv_dequeues args pending q Hq) as (q1 & -> & Hq1 & Hbuf & Hoff).
      * now inversion Hs.
      * rewrite length_app in Hroom. cbn [length]. lia.
      * destruct (IH pending q1 Hq1 Hnb) as (q2 & -> & Hq2).
        -- now inversion Hs.
        -- lia.
        -- exists q2. cbn [take drop map]. split; [| exact Hq2].
           unfold delivery_of at 1. now rewrite Hbuf, Hoff.
Qed.
End QueueFacts.

Lemma holds_packets_empty `{TypeIndex} :
  holds_packets [] DiscoThreadedMessageQueue.empty.
Proof. repeat split. Qed.

(** C3. On one queue, started empty, every schedule of sends and
    receives in which no receive is issued while nothing is pending
    delivers, receive by receive, the sequences sent, in the order sent and
    once each; each receive hands the decoder the body of exactly one
    packet, which the decoder reads to its end; what was sent and not yet
    received stays queued.  In particular [n] sends followed by [n]
    receives return the [n] sequences in order and leave the queue empty. *)
Theorem queue_is_fifo_exactly_once
    `{TypeIndex} `{Protocol DiscoThreadedMessageQueue.t}
    (ops : list queue_op) :
  never_blocks ops 0 = true ->
  Forall sendable (sent ops) ->
  Z.of_nat (length (sent ops)) < 2 ^ 31 ->
  exists q',
    run_queue ops DiscoThreadedMessageQueue.empty
    = Some (map delivery_of (take (recvs ops) (sent ops)), q')
    /\ holds_packets (drop (recvs ops) (sent ops)) q'.
Proof.
  intros Hnb Hs Hroom.
  exact (run_queue_fifo ops [] _ holds_packets_empty Hnb Hs Hroom).
Qed.

Lemma queue_is_fifo_exactly_once_witness :
  let a1 := sample_args in
  let a2 := [AInt 42] in
  let a3 := [] in
  let ops := [OpSend a1; OpSend a2; OpRecv; OpSend a3; OpRecv; OpRecv] in
  exists q',
    run_queue (H := sample_type_index)
      (H0 := no_extension DiscoThreadedMessageQueue.t)
      ops DiscoThreadedMessageQueue.empty
    = Some (map delivery_of (take (recvs ops) (sent ops)), q')
    /\ holds_packets (drop (recvs ops) (sent ops)) q'.
Proof.
  apply (@queue_is_fifo_exactly_once sample_type_index
           (no_extension DiscoThreadedMessageQueue.t)
           [OpSend sample_args; OpSend [AInt 42]; OpRecv; OpSend [];
            OpRecv; OpRecv]).
  - reflexivity.
  - cbn [sent].
    repeat (constructor;
            [split; [first [exact sample_args_representable
                           | repeat (constructor; [in_range |]); constructor]
                    | split; vm_compute; reflexivity] |]).
    constructor.
  - vm_compute. reflexivity.
Defined.

(** ** Topology of the threaded session *)

Lemma ThreadedSessionObj_new_workers (n_workers n_groups : Z) (i : nat)
    (w : DiscoWorkerThread) :
  workers_ (ThreadedSessionObj_new n_workers n_groups) !! i = Some w ->
  worker_id (worker w) = Z.of_nat i
  /\ Z.of_nat i < n_workers
  /\ num_workers (worker w) = n_workers
  /\ num_groups (worker w) = n_groups.
Proof.
  unfold ThreadedSessionObj_new. cbn [workers_].
  rewrite list_lookup_fmap.
  destruct (seqZ 0 n_workers !! i) as [k |] eqn:Hk; [| discriminate].
  apply lookup_seqZ in Hk as [-> Hlt].
  intros [= <-]. cbn. repeat split; lia.
Qed.

Lemma group_index_range (n_workers n_groups i : Z) :
  Z.rem n_workers n_groups = 0 ->
  0 < n_groups ->
  0 <= i < n_workers ->
  0 <= Z.quot i (Z.quot n_workers n_groups) < n_groups.
Proof.
  intros Hrem Hpos Hi.
  assert (Hexact : n_workers = n_groups * Z.quot n_workers n_groups)
    by (rewrite (Z.quot_rem' n_workers n_groups) at 1; lia).
  assert (Hsize : 0 < Z.quot n_workers n_groups) by nia.
  rewrite Z.quot_div_nonneg by lia.
  split; [apply Z.div_pos; lia | apply Z.div_lt_upper_bound; nia].
Qed.

(** C5. [Session::ThreadedSession] fails its check exactly when
    [num_workers % num_group] is not zero and constructs the session
    otherwise; the session then has one worker per id [0 .. num_workers-1],
    each told the worker and group counts, and with a positive group count
    the quotient of a worker id by the group size is a group index.  Six
    workers in four groups fail, six in three succeed. *)
Theorem threaded_session_topology (n_workers n_groups : Z) :
  match ThreadedSession n_workers n_groups with
  | UndefinedBehaviour =>
      n_groups = 0 \/ (n_workers = - 2 ^ 31 /\ n_groups = -1)
  | CheckFailure => n_groups <> 0 /\ Z.rem n_workers n_groups <> 0
  | Constructed n =>
      n_groups <> 0
      /\ Z.rem n_workers n_groups = 0
      /\ GetNumWorkers n = Z.max 0 n_workers
      /\ (forall i w,
            workers_ n !! i = Some w ->
            worker_id (worker w) = Z.of_nat i
            /\ num_workers (worker w) = n_workers
            /\ num_groups (worker w) = n_groups
            /\ (0 < n_groups ->
                0 <= Z.quot (worker_id (worker w))
                            (Z.quot n_workers n_groups) < n_groups))
  end
  /\ ThreadedSession 6 4 = CheckFailure
  /\ (exists n,
        ThreadedSession 6 3 = Constructed n
        /\ map (fun w => worker_id (worker w)) (workers_ n) = [0; 1; 2; 3; 4; 5]
        /\ map (fun w => Z.quot (worker_id (worker w)) (Z.quot 6 3)) (workers_ n)
           = [0; 0; 1; 1; 2; 2]).
Proof.
  split; [| split; [reflexivity | eexists; split; [reflexivity | split; reflexivity]]].
  unfold ThreadedSession.
  destruct ((n_groups =? 0) || ((n_workers =? - 2 ^ 31) && (n_groups =? -1)))
    eqn:Hub.
  - apply orb_true_iff in Hub as [Hz | Hmin].
    + left. lia.
    + right. apply andb_true_iff in Hmin. lia.
  - apply orb_false_iff in Hub as [Hnz _].
    assert (Hne : n_groups <> 0) by lia. clear Hnz.
    destruct (Z.eqb_spec (Z.rem n_workers n_groups) 0) as [Hrem | Hrem];
      [| split; assumption].
    split; [assumption |]. split; [assumption |]. split.
    + unfold GetNumWorkers, ThreadedSessionObj_new. cbn [workers_].
      rewrite length_map, length_seqZ. lia.
    + intros i w Hw.
      apply ThreadedSessionObj_new_workers in Hw as (Hid & Hlt & Hnw & Hng).
      split; [exact Hid |]. split; [exact Hnw |]. split; [exact Hng |].
      intros Hpos. rewrite Hid. apply group_index_range; [assumption .. | lia].
Qed.

(** ** Debug access to the registers of a worker *)

Lemma vector_at_Some {A : Type} (v : list A) (i : Z) (x : A) :
  vector_at v i = Some x <-> 0 <= i /\ v !! Z.to_nat i = Some x.
Proof.
  unfold vector_at. destruct (Z.ltb_spec i 0); split.
  - discriminate.
  - intros [Hi _]. lia.
  - auto.
  - now intros [_ Hx].
Qed.

Lemma vector_at_set_worker (worker_id : Z) (w w' : DiscoWorkerThread)
    (n : ThreadedSessionObj) :
  vector_at (workers_ n) worker_id = Some w ->
  vector_at (workers_ (set_worker worker_id w' n)) worker_id = Some w'.
Proof.
  rewrite !vector_at_Some. intros [Hi Hw]. split; [exact Hi |].
  cbn [set_worker workers_]. apply list_lookup_insert_eq.
  now apply lookup_lt_Some in Hw.
Qed.

Section DebugFacts.
Context `{TypeIndex} `{Protocol DiscoThreadedMessageQueue.t}.
Variable execute : list TVMFFIAny -> DiscoWorker -> DiscoWorker.

Lemma MainLoop_drain_pending (pending : list (list TVMFFIAny))
    (w : DiscoWorkerThread) :
  holds_packets pending (controler_to_worker_ (channel w)) ->
  Forall sendable pending ->
  Z.of_nat (length pending) < 2 ^ 31 ->
  exists q,
    MainLoop_drain execute (length pending) w
    = with_request_queue q (executed execute pending (worker w)) w
    /\ holds_packets [] q.
Proof.
  revert w. induction pending as [| c pending IH]; intros w Hq Hs Hroom.
  - exists (controler_to_worker_ (channel w)). split; [| exact Hq].
    destruct w as [[c2w w2c] d]. reflexivity.
  - cbn [length MainLoop_drain].
    destruct (Recv_dequeues c pending (controler_to_worker_ (channel w)) Hq)
      as (q1 & -> & Hq1 & _).
    + now inversion Hs.
    + exact Hroom.
    + destruct (IH (with_request_queue q1 (execute c (worker w)) w))
        as (q2 & Hdrain & Hq2).
      * exact Hq1.
      * now inversion Hs.
      * cbn [length] in Hroom. lia.
      * exists q2. split; [| exact Hq2].
        unfold with_request_queue in *. cbn in *. exact Hdrain.
Qed.

Lemma SyncWorker_drains (worker_id : Z) (n : ThreadedSessionObj)
    (w : DiscoWorkerThread) (pending : list (list TVMFFIAny)) :
  vector_at (workers_ n) worker_id = Some w ->
  holds_packets pending (controler_to_worker_ (channel w)) ->
  Forall sendable pending ->
  Z.of_nat (length pending) < 2 ^ 31 ->
  exists q,
    SyncWorker execute worker_id n
    = Some (set_worker worker_id
              (with_request_queue q (executed execute pending (worker w)) w) n)
    /\ holds_packets [] q.
Proof.
  intros Hw Hq Hs Hroom. unfold SyncWorker. rewrite Hw.
  destruct Hq as (Hwb & Hcnt & Hring) eqn:Heq. clear Heq.
  rewrite Hcnt, Nat2Z.id.
  destruct (MainLoop_drain_pending pending w) as (q & -> & Hq');
    [repeat split; assumption | assumption | assumption |].
  eauto.
Qed.

Lemma send_each_enqueues (worker_id : Z) (cmds : list (list TVMFFIAny))
    (n : ThreadedSessionObj) (w : DiscoWorkerThread)
    (pending : list (list TVMFFIAny)) :
  vector_at (workers_ n) worker_id = Some w ->
  holds_packets pending (controler_to_worker_ (channel w)) ->
  Forall sendable cmds ->
  Z.of_nat (length (pending ++ cmds)) < 2 ^ 31 ->
  exists n' q,
    send_each worker_id cmds n = Some n'
    /\ vector_at (workers_ n') worker_id
       = Some (with_request_queue q (worker w) w)
    /\ holds_packets (pending ++ cmds) q.
Proof.
  revert n w pending.
  induction cmds as [| c cmds IH]; intros n w pending Hw Hq Hs Hroom.
  - exists n, (controler_to_worker_ (channel w)). rewrite app_nil_r.
    split; [reflexivity |]. split; [| exact Hq].
    rewrite Hw. destruct w as [[c2w w2c] d]. reflexivity.
  - cbn [send_each]. unfold ThreadedSession_SendPacked. rewrite Hw.
    destruct (Send_enqueues pending c (controler_to_worker_ (channel w)) Hq)
      as (q1 & -> & Hq1 & _).
    + now inversion Hs.
    + rewrite length_app in Hroom. cbn [length] in Hroom. lia.
    + fold (with_request_queue q1 (worker w) w).
      destruct (IH (set_worker worker_id (with_request_queue q1 (worker w) w) n)
                  (with_request_queue q1 (worker w) w) (pending ++ [c]))
        as (n' & q2 & Hsend & Hat & Hq2).
      * now apply (vector_at_set_worker worker_id w).
      * exact Hq1.
      * now inversion Hs.
      * now rewrite <- app_assoc.
      * exists n', q2. rewrite <- app_assoc in Hq2.
        split; [exact Hsend | split; [exact Hat | exact Hq2]].
Qed.

Lemma executed_keeps_register (cmds : list (list TVMFFIAny)) (reg : nat)
    (d : DiscoWorker) :
  (forall c d', c ∈ cmds ->
     register_file (execute c d') !! reg = register_file d' !! reg) ->
  register_file (executed execute cmds d) !! reg = register_file d !! reg.
Proof.
  revert d. induction cmds as [| c cmds IH]; intros d Hkeep; [reflexivity |].
  cbn [executed fold_left]. fold (executed execute cmds (execute c d)).
  rewrite IH.
  - apply Hkeep. left.
  - intros c' d' Hin. apply Hkeep. now right.
Qed.
End DebugFacts.

(** C9. On a threaded session, whatever commands are pending for a
    worker when [DebugSetRegister(reg_id, X, worker_id)] is called, and
    whatever commands are sent to that worker afterwards,
    [DebugGetFromRemote(reg_id, worker_id)] returns the value the register
    holds once the worker has executed all of them: each of the two calls
    first lets the worker finish what it has pending.  The set writes [X]
    into the register file the pending commands have left, with the
    request queue empty; the get reads the register file the commands sent
    in between have left, again with the request queue empty.  So when
    these commands leave the register alone, the get returns [X]. *)
Theorem debug_register_set_then_get
    `{TypeIndex} `{Protocol DiscoThreadedMessageQueue.t}
    (execute : list TVMFFIAny -> DiscoWorker -> DiscoWorker)
    (n : ThreadedSessionObj) (w : DiscoWorkerThread)
    (reg_id wid : Z) (X : TVMFFIAny)
    (before between : list (list TVMFFIAny)) :
  vector_at (workers_ n) wid = Some w ->
  holds_packets before (controler_to_worker_ (channel w)) ->
  Forall sendable before ->
  Forall sendable between ->
  Z.of_nat (length before) < 2 ^ 31 ->
  Z.of_nat (length between) < 2 ^ 31 ->
  0 <= reg_id
    < Z.of_nat (length (register_file (executed execute before (worker w)))) ->
  let d0 := executed execute before (worker w) in
  let d1 :=
    {| worker_id := worker_id d0; num_workers := num_workers d0;
       num_groups := num_groups d0;
       register_file := <[Z.to_nat reg_id := X]> (register_file d0) |} in
  let d2 := executed execute between d1 in
  exists n1 n2 q1 q2 q3,
    DebugSetRegister execute reg_id X wid n = Some n1
    /\ vector_at (workers_ n1) wid = Some (with_request_queue q1 d1 w)
    /\ holds_packets [] q1
    /\ send_each wid between n1 = Some n2
    /\ vector_at (workers_ n2) wid = Some (with_request_queue q2 d1 w)
    /\ holds_packets between q2
    /\ holds_packets [] q3
    /\ DebugGetFromRemote execute reg_id wid n2
       = match register_file d2 !! Z.to_nat reg_id with
         | Some v =>
             Some (v, set_worker wid (with_request_queue q3 d2 w) n2)
         | None => None
         end
    /\ ((forall c d, c ∈ between ->
           register_file (execute c d) !! Z.to_nat reg_id
           = register_file d !! Z.to_nat reg_id) ->
        DebugGetFromRemote execute reg_id wid n2
        = Some (X, set_worker wid (with_request_queue q3 d2 w) n2)).
Proof.
  intros Hw Hq Hbefore Hbetween Hroom1 Hroom2 Hreg d0 d1 d2.
  (* the barrier of the set *)
  destruct (SyncWorker_drains execute wid n w before Hw Hq Hbefore Hroom1)
    as (q0 & Hsync & Hq0).
  fold d0 in Hsync.
  set (w0 := with_request_queue q0 d0 w) in *.
  pose proof (vector_at_set_worker wid w w0 n Hw) as Hat0.
  set (w1 := with_request_queue q0 d1 w).
  assert (Hset : DebugSetRegister execute reg_id X wid n
                 = Some (set_worker wid w1 (set_worker wid w0 n))).
  { unfold DebugSetRegister. rewrite Hsync, Hat0. unfold SetRegister.
    cbn [worker w0 with_request_queue]. fold d0 in Hreg.
    destruct (Z.leb_spec 0 reg_id); [| lia].
    destruct (Z.ltb_spec reg_id (Z.of_nat (length (register_file d0)))); [| lia].
    reflexivity. }
  pose proof (vector_at_set_worker wid w0 w1 _ Hat0) as Hat1.
  (* the commands sent in between *)
  destruct (send_each_enqueues wid between _ w1 [] Hat1 Hq0 Hbetween)
    as (n2 & q2 & Hsend & Hat2 & Hq2); [exact Hroom2 |].
  cbn [app] in Hq2.
  change (with_request_queue q2 (worker w1) w1)
    with (with_request_queue q2 d1 w) in Hat2.
  (* the barrier of the get *)
  destruct (SyncWorker_drains execute wid n2 _ between Hat2 Hq2 Hbetween Hroom2)
    as (q3 & Hsync3 & Hq3).
  change (with_request_queue q3
            (executed execute between (worker (with_request_queue q2 d1 w)))
            (with_request_queue q2 d1 w))
    with (with_request_queue q3 d2 w) in Hsync3.
  assert (Hget : DebugGetFromRemote execute reg_id wid n2
                 = match register_file d2 !! Z.to_nat reg_id with
                   | Some v =>
                       Some (v, set_worker wid (with_request_queue q3 d2 w) n2)
                   | None => None
                   end).
  { unfold DebugGetFromRemote. rewrite Hsync3.
    erewrite vector_at_set_worker by exact Hat2.
    cbn [worker with_request_queue]. unfold vector_at.
    destruct (Z.ltb_spec reg_id 0); [lia |]. reflexivity. }
  exists (set_worker wid w1 (set_worker wid w0 n)), n2, q0, q2, q3.
  split; [exact Hset |]. split; [exact Hat1 |]. split; [exact Hq0 |].
  split; [exact Hsend |]. split; [exact Hat2 |]. split; [exact Hq2 |].
  split; [exact Hq3 |]. split; [exact Hget |].
  intros Hkeep. rewrite Hget. unfold d2.
  rewrite executed_keeps_register by exact Hkeep.
  cbn [register_file d1]. rewrite list_lookup_insert_eq; [reflexivity |].
  fold d0 in Hreg. lia.
Qed.

Lemma debug_register_set_then_get_witness :
  exists n1 n2 n3 w3,
    DebugSetRegister (H := sample_type_index)
      (H0 := no_extension DiscoThreadedMessageQueue.t)
      sample_execute 3 (AInt 99) 2 sample_session = Some n1
    /\ send_each (H := sample_type_index)
         (H0 := no_extension DiscoThreadedMessageQueue.t)
         2 [[AInt 1; AInt 7]] n1 = Some n2
    /\ DebugGetFromRemote (H := sample_type_index)
         (H0 := no_extension DiscoThreadedMessageQueue.t)
         sample_execute 3 2 n2 = Some (AInt 99, n3)
    /\ vector_at (workers_ n3) 2 = Some w3
    /\ register_file (worker w3) = [AInt 5; AInt 7; ANone; AInt 99]
    /\ DiscoThreadedMessageQueue.msg_cnt_ (controler_to_worker_ (channel w3)) = 0.
Proof.
  destruct (@debug_register_set_then_get sample_type_index
              (no_extension DiscoThreadedMessageQueue.t) sample_execute
              sample_session sample_worker 3 2 (AInt 99)
              [[AInt 0; AInt 5]] [[AInt 1; AInt 7]])
    as (n1 & n2 & q1 & q2 & q3 & Hset & _ & _ & Hsend & Hat2 & _ & Hq3 & _ & Hget).
  - reflexivity.
  - repeat split.
  - constructor; [| constructor].
    split; [repeat (constructor; [in_range |]); constructor
           | split; vm_compute; reflexivity].
  - constructor; [| constructor].
    split; [repeat (constructor; [in_range |]); constructor
           | split; vm_compute; reflexivity].
  - cbn. lia.
  - cbn. lia.
  - vm_compute. split; [discriminate | reflexivity].
  - eexists n1, n2, _, _. split; [exact Hset |]. split; [exact Hsend |].
    split; [apply Hget |].
    + intros c d Hin. apply list_elem_of_singleton in Hin. subst c.
      cbn. apply list_lookup_insert_ne. lia.
    + split; [eapply vector_at_set_worker; exact Hat2 |].
      split; [reflexivity |]. apply Hq3.
Defined.

(** ** The socket session *)

Section SocketFacts.
Context `{DiscoAction} {L : Type} `{BcastSession L}.

Lemma send_to_all_links (channels : list DiscoSocketChannel)
    (args : list TVMFFIAny) (w : World L) :
  Forall (fun ch =>
            is_Some (links w !! TCPSocket.sockfd (channel_socket_ ch)))
         channels ->
  exists w',
    send_to_all channels args w = Ok w'
    /\ closed w' = closed w /\ finalized w' = finalized w
    /\ forall fd, is_Some (links w !! fd) -> is_Some (links w' !! fd).
Proof.
  revert w. induction channels as [| ch channels IH]; intros w Hall.
  - exists w. cbn. auto.
  - apply Forall_cons in Hall as [[c Hc] Hrest]. cbn [send_to_all].
    unfold channel_Send, channel_write. rewrite Hc. cbv beta iota zeta.
    match goal with
    | |- context [send_to_all channels args ?w0] => set (w1 := w0)
    end.
    assert (Hdom : forall fd, is_Some (links w !! fd) -> is_Some (links w1 !! fd)).
    { intros fd Hfd. unfold w1. cbn [links set_links].
      rewrite lookup_insert. case_decide; [eauto | exact Hfd]. }
    destruct (IH w1) as (w' & -> & Hcl & Hfin & Hdom').
    + eapply Forall_impl; [exact Hrest |]. intros ch' Hch'. now apply Hdom.
    + exists w'. repeat split; auto.
Qed.

Lemma close_all_open (sockets : list TCPSocket.t) (w : World L) :
  Forall (fun sock => TCPSocket.IsClosed sock = false) sockets ->
  exists sockets' w',
    close_all sockets w = Ok (sockets', w')
    /\ links w' = links w
    /\ closed w' = closed w ++ map TCPSocket.sockfd sockets.
Proof.
  revert w. induction sockets as [| sock sockets IH]; intros w Hall.
  - exists [], w. cbn. now rewrite app_nil_r.
  - apply Forall_cons in Hall as [Hopen Hrest]. cbn [close_all].
    unfold Close. rewrite Hopen.
    match goal with
    | |- context [close_all sockets ?w1] =>
        destruct (IH w1 Hrest) as (sockets' & w' & -> & Hl & Hc)
    end.
    eexists _, w'. split; [reflexivity |]. cbn in *.
    rewrite Hl, Hc, <- app_assoc. auto.
Qed.

Lemma Socket_Shutdown_result (s s1 : SocketSessionObj.t L) (w w1 : World L) :
  Socket_Shutdown (s, w) = Ok (s1, w1) ->
  SocketSessionObj.remote_channels_ s1 = []
  /\ SocketSessionObj.remote_sockets_ s1 = []
  /\ TCPSocket.IsClosed (SocketSessionObj.socket_ s1) = true.
Proof.
  unfold Socket_Shutdown.
  destruct (send_to_all _ _ w) as [w2 | |]; try discriminate.
  destruct (close_all _ w2) as [[socks w3] | |]; try discriminate.
  destruct (TCPSocket.IsClosed (SocketSessionObj.socket_ s)) eqn:Hclosed;
    cbn [negb].
  - intros [= <- <-]. auto.
  - unfold Close. rewrite Hclosed. intros [= <- <-]. auto.
Qed.
End SocketFacts.

(** C8. After one [Shutdown()] of a socket session has returned, the
    lists of remote channels and sockets are empty and the listening socket
    is closed; a second [Shutdown()], and likewise the destructor, then
    returns without error, sends nothing, closes nothing and leaves the
    session object as it is: its only effect is the repeated call of
    [Socket::Finalize()].  The first [Shutdown()] itself returns whenever
    every remote socket is open and every channel has its connection. *)
Theorem socket_shutdown_is_idempotent
    `{DiscoAction} {L : Type} `{BcastSession L}
    (s : SocketSessionObj.t L) (w : World L) :
  (forall s1 w1,
     Socket_Shutdown (s, w) = Ok (s1, w1) ->
     SocketSessionObj.remote_channels_ s1 = []
     /\ SocketSessionObj.remote_sockets_ s1 = []
     /\ TCPSocket.IsClosed (SocketSessionObj.socket_ s1) = true
     /\ Socket_Shutdown (s1, w1) = Ok (s1, Finalize w1)
     /\ Socket_destructor (s1, w1) = Ok (s1, Finalize w1)
     /\ links (Finalize w1) = links w1
     /\ closed (Finalize w1) = closed w1)
  /\ (Forall (fun sock => TCPSocket.IsClosed sock = false)
        (SocketSessionObj.remote_sockets_ s) ->
      Forall (fun ch =>
                is_Some (links w !! TCPSocket.sockfd (channel_socket_ ch)))
        (SocketSessionObj.remote_channels_ s) ->
      exists s1 w1, Socket_Shutdown (s, w) = Ok (s1, w1)).
Proof.
  split.
  - intros s1 w1 Hfirst.
    destruct (Socket_Shutdown_result s s1 w w1 Hfirst) as (Hch & Hso & Hcl).
    assert (Hsecond : Socket_Shutdown (s1, w1) = Ok (s1, Finalize w1)).
    { unfold Socket_Shutdown. rewrite Hch, Hso, Hcl. cbn.
      destruct s1; cbn in *. now subst. }
    repeat split; auto.
  - intros Hopen Hlinks.
    destruct (send_to_all_links (SocketSessionObj.remote_channels_ s)
                [AInt DiscoSocketAction.kShutdown; AInt (-1)] w Hlinks)
      as (w2 & Hsend & _).
    destruct (close_all_open (SocketSessionObj.remote_sockets_ s) w2 Hopen)
      as (socks & w3 & Hclose & _).
    unfold Socket_Shutdown. rewrite Hsend, Hclose.
    destruct (TCPSocket.IsClosed (SocketSessionObj.socket_ s)) eqn:Hclosed;
      cbn [negb].
    + eauto.
    + unfold Close. rewrite Hclosed. eauto.
Qed.

Lemma quot_node_range (worker_id wpn : Z) :
  0 < wpn -> wpn <= worker_id ->
  1 <= Z.quot worker_id wpn
  /\ 0 <= worker_id - Z.quot worker_id wpn * wpn < wpn.
Proof.
  intros Hw Hid.
  rewrite Z.quot_div_nonneg by lia.
  pose proof (Z.div_mod worker_id wpn ltac:(lia)) as Hdm.
  pose proof (Z.mod_pos_bound worker_id wpn Hw) as Hmod.
  assert (1 <= worker_id / wpn) by (apply Z.div_le_lower_bound; lia).
  split; [assumption | lia].
Qed.

(** C4. On a socket session, with the connection to the node of
    [worker_id] idle, [SendPacked(worker_id, A)] followed by
    [RecvReplyPacked(worker_id)] returns what the same two calls return on
    the relay's local session for the local worker
    [worker_id - node_id * workers_per_node], and leaves that session in
    the same state: the controller picks the channel of node
    [worker_id / workers_per_node] and prefixes the command with the send
    action and the worker id; the relay strips the prefix and sends to the
    local worker, broadcasting instead when the id is [-1]; on the receive
    action it fetches the local reply and sends it back unchanged. *)
Theorem socket_relay_is_transparent
    `{DiscoAction} {L : Type} `{BcastSession L}
    (s : SocketSessionObj.t L) (w : World L) (r : RemoteSocketSession.t L)
    (ch : DiscoSocketChannel) (target : Z) (A reply : list TVMFFIAny)
    (l1 l2 : L) :
  let wpn := SocketSessionObj.num_workers_per_node_ s in
  let node_id := Z.quot target wpn in
  let fd := TCPSocket.sockfd (channel_socket_ ch) in
  let local_worker_id := target - node_id * wpn in
  let idle := {| to_relay := []; to_controller := [] |} in
  0 < wpn ->
  wpn <= target ->
  vector_at (SocketSessionObj.remote_channels_ s) (node_id - 1) = Some ch ->
  channel_end ch = ControllerEnd ->
  links w !! fd = Some idle ->
  relays w !! fd = Some r ->
  RemoteSocketSession.node_id_ r = node_id ->
  RemoteSocketSession.num_workers_per_node_ r = wpn ->
  SendPacked local_worker_id A (RemoteSocketSession.local_session_ r) = Ok l1 ->
  RecvReplyPacked local_worker_id l1 = Ok (reply, l2) ->
  exists w1 w2,
    Socket_SendPacked target A (s, w) = Ok (s, w1)
    /\ links w1 !! fd
       = Some {| to_relay := [AInt DiscoSocketAction.kSend :: AInt target :: A];
                 to_controller := [] |}
    /\ Socket_RecvReplyPacked target (s, w1) = Ok (reply, (s, w2))
    /\ relays w2 !! fd = Some (with_local l2 r)
    /\ links w2 !! fd = Some idle
    /\ 0 <= local_worker_id < wpn
    /\ MainLoop_body (AInt DiscoSocketAction.kSend :: AInt (-1) :: A) r
       = match BroadcastPacked A (RemoteSocketSession.local_session_ r) with
         | Ok l => Continue (with_local l r) None
         | _ => Halt
         end.
Proof.
  intros wpn node_id fd local_worker_id idle
    Hwpn Htarget Hch Hend Hlink Hrelay Hnode Hrwpn Hsend Hrecv.
  destruct (quot_node_range target wpn Hwpn Htarget) as [Hnode1 Hlocal].
  fold node_id in Hnode1. fold node_id local_worker_id in Hlocal.
  assert (Hkinds : (DiscoSocketAction.kSend =? DiscoSocketAction.kSend) = true
                   /\ (DiscoSocketAction.kReceive =? DiscoSocketAction.kSend) = false
                   /\ (DiscoSocketAction.kReceive =? DiscoSocketAction.kReceive) = true).
  { unfold DiscoSocketAction.kSend, DiscoSocketAction.kReceive.
    repeat split; lia. }
  destruct Hkinds as (Hss & Hrs & Hrr).
  set (cmd := AInt DiscoSocketAction.kSend :: AInt target :: A).
  set (w1 := set_links (insert fd {| to_relay := [cmd]; to_controller := [] |}) w).
  exists w1.
  exists (set_links (insert fd idle)
            (set_relays (insert fd (with_local l2 r))
               (set_links (insert fd {| to_relay := [];
                                        to_controller := [reply] |})
                  (set_links (insert fd
                     {| to_relay := [cmd; [AInt DiscoSocketAction.kReceive;
                                           AInt target]];
                        to_controller := [] |}) w1)))).
  assert (Hnode_of : node_of target s = Ok node_id).
  { unfold node_of. fold wpn.
    destruct (Z.eqb_spec wpn 0); [lia | reflexivity]. }
  assert (Hnz : (node_id =? 0) = false) by lia.
  assert (Hidx : vector_index (SocketSessionObj.remote_channels_ s) (node_id - 1)
                 = Ok ch) by (unfold vector_index; now rewrite Hch).
  split; [| split; [| split; [| split; [| split; [| split]]]]].
  - unfold Socket_SendPacked. rewrite Hnode_of, Hnz, Hidx.
    unfold channel_Send, channel_write. fold fd. rewrite Hlink, Hend.
    reflexivity.
  - unfold w1. cbn [links set_links]. now rewrite lookup_insert_eq.
  - unfold Socket_RecvReplyPacked. rewrite Hnode_of, Hnz, Hidx.
    unfold channel_Send, channel_write. fold fd.
    unfold w1 at 1. cbn [links set_links]. rewrite lookup_insert_eq, Hend.
    cbv beta iota zeta. cbn [to_relay to_controller app].
    unfold channel_await, run_relay. fold fd.
    cbn [links relays set_links set_relays]. unfold w1 at 1 2.
    cbn [links relays set_links set_relays].
    rewrite lookup_insert_eq, Hrelay.
    cbn [to_relay to_controller MainLoop]. fold cmd.
    unfold cmd at 1. unfold MainLoop_body at 1.
    rewrite Hss, Hnode, Hrwpn.
    destruct (Z.eqb_spec target (-1)); [lia |].
    fold local_worker_id. rewrite Hsend.
    cbn [MainLoop]. unfold MainLoop_body.
    rewrite Hrs, Hrr.
    cbn [with_local RemoteSocketSession.node_id_
         RemoteSocketSession.num_workers_per_node_
         RemoteSocketSession.local_session_].
    rewrite Hnode, Hrwpn. fold local_worker_id. rewrite Hrecv.
    cbn [app].
    unfold channel_Recv, channel_read. fold fd.
    cbn [links relays set_links set_relays].
    rewrite lookup_insert_eq, Hend. cbn [to_controller to_relay].
    reflexivity.
  - cbn [links relays set_links set_relays]. now rewrite lookup_insert_eq.
  - cbn [links relays set_links set_relays]. now rewrite lookup_insert_eq.
  - exact Hlocal.
  - unfold MainLoop_body. rewrite Hss. reflexivity.
Qed.

Section HandshakeFacts.
Context `{DiscoAction} {L : Type} `{BcastSession L}.

Lemma accept_nodes_handshakes (fds rest : list Z) (i num_groups : Z)
    (s : SocketSessionObj.t L) (w : World L) :
  backlog w = fds ++ rest ->
  NoDup fds ->
  (forall fd, fd ∈ fds -> links w !! fd = Some idle) ->
  exists s' w',
    accept_nodes (length fds) i num_groups s w = Ok (s', w')
    /\ SocketSessionObj.remote_channels_ s'
       = SocketSessionObj.remote_channels_ s ++ map controller_channel fds
    /\ SocketSessionObj.remote_sockets_ s'
       = SocketSessionObj.remote_sockets_ s
         ++ map (fun fd => {| TCPSocket.sockfd := fd |}) fds
    /\ backlog w' = rest
    /\ relays w' = relays w
    /\ (forall fd, fd ∉ fds -> links w' !! fd = links w !! fd)
    /\ (forall (j : nat) fd,
          fds !! j = Some fd ->
          links w' !! fd
          = Some {| to_relay :=
                      [metadata (SocketSessionObj.num_nodes_ s)
                         (SocketSessionObj.num_workers_per_node_ s)
                         num_groups (i + Z.of_nat j + 1)];
                    to_controller := [] |}).
Proof.
  revert i s w.
  induction fds as [| fd fds IH]; intros i s w Hback Hnd Hidle.
  - exists s, w. cbn. rewrite !app_nil_r.
    split; [reflexivity |]. split; [reflexivity |]. split; [reflexivity |].
    split; [exact Hback |]. split; [reflexivity |]. split; [reflexivity |].
    intros j fd' Hj. discriminate.
  - apply NoDup_cons in Hnd as [Hfresh Hnd].
    cbn [length accept_nodes]. unfold Accept. rewrite Hback. cbn [app].
    unfold channel_Send, channel_write.
    cbn [channel_socket_ TCPSocket.sockfd links channel_end].
    rewrite (Hidle fd) by left. cbv beta iota zeta. cbn [to_relay to_controller app].
    match goal with
    | |- context [accept_nodes (length fds) (i + 1) num_groups ?s1 ?w1] =>
        destruct (IH (i + 1) s1 w1)
          as (s' & w' & -> & Hch & Hso & Hb & Hr & Hframe & Hl)
    end.
    + reflexivity.
    + exact Hnd.
    + intros fd' Hin. cbn [links set_links].
      rewrite lookup_insert_ne by (intros ->; contradiction).
      apply Hidle. now right.
    + exists s', w'. cbn in Hch, Hso, Hb, Hr, Hframe, Hl.
      split; [reflexivity |].
      split; [rewrite Hch, <- app_assoc; reflexivity |].
      split; [rewrite Hso, <- app_assoc; reflexivity |].
      split; [exact Hb |]. split; [exact Hr |]. split.
      * intros fd' Hnotin. apply not_elem_of_cons in Hnotin as [Hne Hnotin].
        rewrite (Hframe fd' Hnotin). now apply lookup_insert_ne.
      * intros [| j] fd' Hj; cbn in Hj.
        -- injection Hj as <-. rewrite (Hframe fd Hfresh).
           rewrite lookup_insert_eq.
           replace (i + Z.of_nat 0 + 1) with (i + 1) by lia. reflexivity.
        -- rewrite (Hl j fd' Hj).
           replace (i + Z.of_nat (S j) + 1) with (i + 1 + Z.of_nat j + 1) by lia.
           reflexivity.
Qed.

Lemma RemoteSocketSession_new_metadata (fd num_local_workers : Z)
    (num_nodes wpn num_groups node_id : Z) (w : World L) :
  links w !! fd
  = Some {| to_relay := [metadata num_nodes wpn num_groups node_id];
            to_controller := [] |} ->
  wpn <= num_local_workers ->
  exists r w',
    RemoteSocketSession_new {| TCPSocket.sockfd := fd |} num_local_workers w
    = Ok (r, w')
    /\ RemoteSocketSession.num_nodes_ r = num_nodes
    /\ RemoteSocketSession.num_workers_per_node_ r = wpn
    /\ RemoteSocketSession.num_groups_ r = num_groups
    /\ RemoteSocketSession.node_id_ r = node_id
    /\ links w' !! fd = Some idle.
Proof.
  intros Hlink Hfit.
  unfold RemoteSocketSession_new, channel_Recv, channel_read.
  cbn [channel_socket_ TCPSocket.sockfd channel_end].
  rewrite Hlink. cbn [to_relay to_controller metadata].
  destruct (Z.leb_spec wpn num_local_workers); [| lia].
  eexists _, _. split; [reflexivity |]. cbn.
  repeat split. now rewrite lookup_insert_eq.
Qed.
End HandshakeFacts.

Lemma metadata_on_the_wire `{TypeIndex}
    (num_nodes wpn num_groups node_id : Z) :
  on_the_wire [metadata num_nodes wpn num_groups node_id]
  = le_split 8 56 ++ le_split 4 (RPCCode_value kReturn) ++ le_split 4 4
    ++ int_arg_wire num_nodes ++ int_arg_wire wpn
    ++ int_arg_wire num_groups ++ int_arg_wire node_id.
Proof.
  unfold on_the_wire, metadata, packet, seq_wire, int_arg_wire.
  cbn [map concat args_wire rejects length]. unfold arg_wire.
  cbn [payload_wire type_index object_repr].
  rewrite !app_nil_r, !length_app, !length_le_split.
  cbn [Nat.add Z.of_nat Pos.of_succ_nat Pos.succ].
  rewrite <- !app_assoc. reflexivity.
Qed.

(** C7, amended. For each relay that has connected, the constructor of
    the controller accepts the connection and sends on it, before anything
    else and once, the tuple (num_nodes, workers_per_node, num_groups,
    node_id), node ids counting from 1 in the order of acceptance.  The
    tuple travels as one packet of the common framing: the 64-bit length
    56, the command code, the count 4, and for each of the four values its
    type index and its 64 bits; 64 bytes in all.  The relay reads it as the
    first sequence after it has connected and takes its four fields from
    it. *)
Theorem handshake_is_first_packet
    `{TypeIndex} {L : Type} `{BcastSession L}
    (num_nodes wpn num_groups : Z) (listening : TCPSocket.t) (w0 : World L) :
  Z.of_nat (length (backlog w0)) = num_nodes - 1 ->
  NoDup (backlog w0) ->
  (forall fd, fd ∈ backlog w0 -> links w0 !! fd = Some idle) ->
  exists s w,
    SocketSessionObj_new num_nodes wpn num_groups listening w0 = Ok (s, w)
    /\ SocketSessionObj.remote_channels_ s
       = map controller_channel (backlog w0)
    /\ forall (i : nat) fd,
         backlog w0 !! i = Some fd ->
         let node_id := Z.of_nat i + 1 in
         links w !! fd
         = Some {| to_relay := [metadata num_nodes wpn num_groups node_id];
                   to_controller := [] |}
         /\ on_the_wire [metadata num_nodes wpn num_groups node_id]
            = le_split 8 56 ++ le_split 4 (RPCCode_value kReturn)
              ++ le_split 4 4
              ++ int_arg_wire num_nodes ++ int_arg_wire wpn
              ++ int_arg_wire num_groups ++ int_arg_wire node_id
         /\ forall num_local_workers,
              wpn <= num_local_workers ->
              exists r w',
                RemoteSocketSession_new {| TCPSocket.sockfd := fd |}
                  num_local_workers w = Ok (r, w')
                /\ RemoteSocketSession.num_nodes_ r = num_nodes
                /\ RemoteSocketSession.num_workers_per_node_ r = wpn
                /\ RemoteSocketSession.num_groups_ r = num_groups
                /\ RemoteSocketSession.node_id_ r = node_id
                /\ links w' !! fd = Some idle.
Proof.
  intros Hcount Hnd Hidle. unfold SocketSessionObj_new.
  replace (Z.to_nat (num_nodes - 1)) with (length (backlog w0)) by lia.
  match goal with
  | |- context [accept_nodes _ 0 num_groups ?s0 w0] =>
      destruct (accept_nodes_handshakes (backlog w0) [] 0 num_groups s0 w0)
        as (s & w & Hnew & Hch & _ & _ & _ & _ & Hl)
  end.
  - now rewrite app_nil_r.
  - exact Hnd.
  - exact Hidle.
  - exists s, w. split; [exact Hnew |]. split; [exact Hch |].
    intros i fd Hi. specialize (Hl i fd Hi).
    cbn [SocketSessionObj.num_nodes_ SocketSessionObj.num_workers_per_node_] in Hl.
    replace (0 + Z.of_nat i + 1) with (Z.of_nat i + 1) in Hl by lia.
    split; [exact Hl |]. split; [apply metadata_on_the_wire |].
    intros num_local_workers Hfit.
    now apply (RemoteSocketSession_new_metadata fd num_local_workers).
Qed.

(** C7 as stated fails: on the wire the handshake is not four bare
    integers. *)
Lemma handshake_is_not_bare_integers :
  ~ handshake_is_bare_integers (H := sample_type_index) 4 2 4 1 1.
Proof.
  unfold handshake_is_bare_integers. vm_compute. discriminate.
Qed.

Lemma socket_shutdown_is_idempotent_witness :
  exists s1 w1,
    Socket_Shutdown (sample_controller, sample_world) = Ok (s1, w1)
    /\ Socket_Shutdown (s1, w1) = Ok (s1, Finalize w1)
    /\ Socket_destructor (s1, w1) = Ok (s1, Finalize w1).
Proof.
  destruct (proj2 (socket_shutdown_is_idempotent sample_controller sample_world))
    as (s1 & w1 & Hfirst).
  - repeat constructor.
  - constructor; [| constructor].
    cbn [channel_socket_ TCPSocket.sockfd controller_channel sample_world links].
    rewrite lookup_singleton_eq. eauto.
  - exists s1, w1.
    destruct (proj1 (socket_shutdown_is_idempotent sample_controller sample_world)
                s1 w1 Hfirst) as (_ & _ & _ & Hsecond & Hdtor & _).
    auto.
Defined.

Lemma socket_relay_is_transparent_witness :
  let A := [AInt 42; ABool 1] in
  exists w1 w2,
    Socket_SendPacked 3 A (sample_controller, sample_world)
    = Ok (sample_controller, w1)
    /\ Socket_RecvReplyPacked 3 (sample_controller, w1)
       = Ok (A, (sample_controller, w2))
    /\ relays w2 !! 7 = Some (with_local [] sample_relay)
    /\ links w2 !! 7 = Some idle.
Proof.
  intros A.
  destruct (socket_relay_is_transparent sample_controller sample_world
              sample_relay (controller_channel 7) 3 A A [(1, A)] [])
    as (w1 & w2 & Hsend & _ & Hrecv & Hrelay & Hlink & _).
  - cbn. lia.
  - cbn. lia.
  - reflexivity.
  - reflexivity.
  - apply lookup_singleton_eq.
  - apply lookup_singleton_eq.
  - reflexivity.
  - reflexivity.
  - reflexivity.
  - reflexivity.
  - exists w1, w2. auto.
Defined.

Lemma handshake_is_first_packet_witness :
  exists s w,
    SocketSessionObj_new 3 2 1
      {| TCPSocket.sockfd := 3 |} sample_listening_world = Ok (s, w)
    /\ SocketSessionObj.remote_channels_ s = map controller_channel [7; 9]
    /\ links w !! 9
       = Some {| to_relay := [metadata 3 2 1 2]; to_controller := [] |}
    /\ length (on_the_wire (H := sample_type_index) [metadata 3 2 1 2]) = 64%nat.
Proof.
  destruct (@handshake_is_first_packet sample_type_index _
              echo_session 3 2 1 {| TCPSocket.sockfd := 3 |}
              sample_listening_world)
    as (s & w & Hnew & Hch & Hall).
  - reflexivity.
  - apply (bool_decide_unpack _). vm_compute. exact I.
  - intros fd Hin. cbn [backlog sample_listening_world links] in *.
    apply elem_of_cons in Hin as [-> | Hin].
    + apply lookup_insert_eq.
    + apply list_elem_of_singleton in Hin as ->.
      rewrite lookup_insert_ne by lia. apply lookup_singleton_eq.
  - exists s, w. split; [exact Hnew |]. split; [exact Hch |].
    destruct (Hall 1%nat 9 eq_refl) as (Hlink & Hwire & _).
    split; [exact Hlink |]. reflexivity.
Defined.

(* ================================================================== *)
(** * Further properties *)
(* ================================================================== *)

(** ** Raw strings *)

Lemma StrLength_app_nul (s t : list byte) :
  Forall (fun c => c <> Byte.x00) s ->
  StrLength (s ++ Byte.x00 :: t) = Z.of_nat (length s).
Proof.
  induction 1 as [| c s Hc _ IH]; cbn [app StrLength length].
  - reflexivity.
  - destruct (Byte.eqb c Byte.x00) eqn:Heq.
    + apply Byte.byte_dec_bl in Heq. contradiction.
    + rewrite IH. lia.
Qed.

Lemma StrLength_prefix (str : list byte) :
  Forall (fun c => c <> Byte.x00) (take (Z.to_nat (StrLength str)) str).
Proof.
  induction str as [| c str IH]; cbn [StrLength].
  - constructor.
  - destruct (Byte.eqb c Byte.x00) eqn:Heq; [constructor |].
    pose proof (StrLength_range str).
    replace (Z.to_nat (1 + StrLength str))
      with (S (Z.to_nat (StrLength str))) by lia.
    cbn [take]. constructor; [| exact IH].
    intros ->. discriminate.
Qed.

Lemma StrLength_at (str : list byte) :
  StrLength str < Z.of_nat (length str) ->
  str !! Z.to_nat (StrLength str) = Some Byte.x00.
Proof.
  induction str as [| c str IH]; cbn [StrLength length]; [lia |].
  destruct (Byte.eqb c Byte.x00) eqn:Heq; intros Hlt.
  - apply Byte.byte_dec_bl in Heq. now subst c.
  - pose proof (StrLength_range str).
    replace (Z.to_nat (1 + StrLength str))
      with (S (Z.to_nat (StrLength str))) by lia.
    cbn. apply IH. lia.
Qed.

(** X1. [StrLength] returns the index of the first NUL of the memory it
    is given: no byte before that index is NUL, the byte at it is (when
    the memory reaches that far), and the bytes behind the first NUL do not
    matter. *)
Theorem StrLength_is_first_nul (str : list byte) :
  0 <= StrLength str <= Z.of_nat (length str)
  /\ Forall (fun c => c <> Byte.x00) (take (Z.to_nat (StrLength str)) str)
  /\ (StrLength str < Z.of_nat (length str) ->
      str !! Z.to_nat (StrLength str) = Some Byte.x00)
  /\ (forall s t,
        Forall (fun c => c <> Byte.x00) s ->
        StrLength (s ++ Byte.x00 :: t) = Z.of_nat (length s)).
Proof.
  split; [apply StrLength_range |].
  split; [apply StrLength_prefix |].
  split; [apply StrLength_at |].
  apply StrLength_app_nul.
Qed.

Lemma c_str_terminated (str : list byte) :
  StrLength (c_str str) = StrLength str
  /\ StrLength (c_str str) + 1 = Z.of_nat (length (c_str str)).
Proof.
  pose proof (StrLength_range str) as Hr.
  pose proof (StrLength_prefix str) as Hp.
  unfold c_str.
  rewrite StrLength_app_nul by exact Hp.
  rewrite length_app, length_take. cbn [length]. lia.
Qed.

Lemma c_str_take (str : list byte) :
  take (Z.to_nat (StrLength (c_str str))) (c_str str)
  = take (Z.to_nat (StrLength str)) str.
Proof.
  destruct (c_str_terminated str) as [-> _].
  pose proof (StrLength_range str) as Hr.
  unfold c_str. rewrite take_app_le by (rewrite length_take; lia).
  rewrite take_take. f_equal. lia.
Qed.

Lemma arg_wire_c_str `{TypeIndex} (client_mode : bool) (str : list byte) :
  arg_wire client_mode (ARawStr str) = arg_wire client_mode (ARawStr (c_str str)).
Proof.
  unfold arg_wire. cbn [type_index payload_wire].
  rewrite c_str_take. destruct (c_str_terminated str) as [-> _]. reflexivity.
Qed.

Lemma c_str_representable (str : list byte) :
  Z.of_nat (length str) < 2 ^ 64 -> representable (ARawStr (c_str str)).
Proof.
  intros Hlen. cbn [representable].
  destruct (c_str_terminated str) as [Hs Ht]. split; [exact Ht |].
  pose proof (StrLength_range str). lia.
Qed.

Lemma args_wire_middle `{TypeIndex} (client_mode : bool)
    (pre post : list TVMFFIAny) (a b : TVMFFIAny) :
  arg_wire client_mode a = arg_wire client_mode b ->
  rejects client_mode a = rejects client_mode b ->
  args_wire client_mode (pre ++ a :: post)
  = args_wire client_mode (pre ++ b :: post)
  /\ args_status client_mode (pre ++ a :: post)
     = args_status client_mode (pre ++ b :: post).
Proof.
  intros Hw Hr.
  induction pre as [| x pre [IHw IHs]]; cbn [app args_wire args_status].
  - now rewrite Hw, Hr.
  - now rewrite IHw, IHs.
Qed.

(** X2. A raw string crosses up to its first NUL: whatever lies behind the
    terminator in the sender's memory is not sent, and the receiver gets
    the characters before it and one terminator, the other arguments of
    the sequence unchanged. *)
Theorem raw_string_crosses_up_to_first_nul
    `{TypeIndex} {Ch : Type} `{Stream Ch} `{Protocol Ch} `{Sink Ch}
    `{Source Ch} `{!ChannelLaws Ch}
    (pre post : list TVMFFIAny) (str : list byte) (client_mode : bool)
    (s : Ch) :
  Forall representable pre ->
  Forall representable post ->
  Z.of_nat (length str) < 2 ^ 64 ->
  Z.of_nat (length (pre ++ ARawStr str :: post)) < 2 ^ 31 ->
  valid s -> readable s = [] ->
  let args := pre ++ ARawStr str :: post in
  let received := pre ++ ARawStr (c_str str) :: post in
  exists s1 s2,
    SendPackedSeq args (Z.of_nat (length args)) client_mode s = Done tt s1
    /\ SendPackedSeq received (Z.of_nat (length received)) client_mode s
       = Done tt s1
    /\ RecvPackedSeq s1 = Done (Z.of_nat (length args), received) s2
    /\ readable s2 = [].
Proof.
  intros Hpre Hpost Hstr Hlen Hvalid Hempty args received.
  assert (Hsame : length args = length received)
    by (unfold args, received; now rewrite !length_app).
  assert (Hrep : Forall representable received).
  { apply Forall_app. split; [exact Hpre |].
    constructor; [now apply c_str_representable | exact Hpost]. }
  assert (Hb : Forall builtin args).
  { apply Forall_app. split.
    - eapply Forall_impl; [exact Hpre | apply representable_builtin].
    - constructor; [exact I |].
      eapply Forall_impl; [exact Hpost | apply representable_builtin]. }
  destruct (args_wire_middle client_mode pre post (ARawStr str)
              (ARawStr (c_str str)) (arg_wire_c_str client_mode str) eq_refl)
    as [Hwire Hstatus].
  fold args received in Hwire, Hstatus.
  assert (Hseq : seq_wire client_mode args = seq_wire client_mode received)
    by (unfold seq_wire; now rewrite Hwire, Hsame).
  exists (put (seq_wire client_mode received) s).
  exists (consume (length (seq_wire client_mode received))
            (put (seq_wire client_mode received) s)).
  assert (Hrem : remains (put (seq_wire client_mode received) s) 0
                   (seq_wire client_mode received ++ [])).
  { split; rewrite consume_O.
    - now apply valid_put.
    - now rewrite readable_put, Hempty, app_nil_r. }
  split; [| split; [| split]].
  - rewrite SendPackedSeq_put by exact Hb.
    now rewrite Hstatus, representable_status, Hseq.
  - rewrite SendPackedSeq_put
      by (eapply Forall_impl; [exact Hrep | apply representable_builtin]).
    now rewrite representable_status.
  - rewrite <- (consume_O (put (seq_wire client_mode received) s)) at 1.
    rewrite Hsame.
    rewrite (RecvPackedSeq_wire client_mode received _ 0 [] Hrep); auto.
    now rewrite <- Hsame.
  - apply remains_step in Hrem. destruct Hrem as [_ Hr]. exact Hr.
Qed.

(** ** Handles in a call from a client *)

Lemma transferable_builtin (client_mode : bool) (a : TVMFFIAny) :
  transferable client_mode a -> builtin a.
Proof. destruct a; cbn; tauto. Qed.

Lemma transferable_not_rejected (client_mode : bool) (a : TVMFFIAny) :
  transferable client_mode a -> rejects client_mode a = None.
Proof.
  destruct a; cbn [transferable]; try apply representable_not_rejected.
  - now intros [-> _].
  - now intros [-> _].
Qed.

Lemma transferable_status (client_mode : bool) (args : list TVMFFIAny) :
  Forall (transferable client_mode) args -> args_status client_mode args = None.
Proof.
  induction 1 as [| a args Ha _ IH]; cbn [args_status]; [reflexivity |].
  now rewrite transferable_not_rejected.
Qed.

Section DecodeHandles.
Context `{TypeIndex} {Ch : Type} `{Stream Ch} `{Protocol Ch}
      `{Source Ch} `{!SourceLaws Ch}.

Lemma RecvArg_wire_transferable (client_mode : bool) (a : TVMFFIAny) (s0 : Ch)
    (m : nat) (rest : list byte) :
  transferable client_mode a ->
  remains s0 m (arg_wire client_mode a ++ rest) ->
  RecvArg (consume m s0)
  = Done a (consume (m + length (arg_wire client_mode a)) s0).
Proof.
  intros Ha Hrem.
  destruct a; try (now apply (RecvArg_wire client_mode _ s0 m rest)).
  all: destruct Ha as [-> Hh]; label_facts;
    unfold RecvArg, Read; unfold arg_wire in *;
    cbn [payload_wire type_index] in *;
    rewrite <- ?app_assoc in Hrem;
    read_one Hrem; cbn [object_repr];
    rewrite to_int32_split by assumption; resolve_switch;
    clear - Hh Hrem SourceLaws0;
    read_one Hrem; cbn [object_repr];
    rewrite to_uint64_split by assumption; done_at.
Qed.

Lemma RecvArgs_wire_transferable (client_mode : bool) (args : list TVMFFIAny)
    (s0 : Ch) (m : nat) (rest : list byte) :
  Forall (transferable client_mode) args ->
  remains s0 m (args_wire client_mode args ++ rest) ->
  RecvArgs (length args) (consume m s0)
  = Done args (consume (m + length (args_wire client_mode args)) s0).
Proof.
  intros Hrep. revert m.
  induction Hrep as [| a args Ha _ IH]; intros m Hrem;
    cbn [RecvArgs args_wire length] in *.
  - unfold ret. now rewrite Nat.add_0_r.
  - rewrite transferable_not_rejected in * by assumption.
    rewrite <- app_assoc in Hrem.
    unfold bind at 1.
    rewrite (RecvArg_wire_transferable client_mode a s0 m _ Ha Hrem).
    apply remains_step in Hrem.
    unfold bind at 1. rewrite (IH _ Hrem). unfold ret.
    rewrite length_app, Nat.add_assoc. reflexivity.
Qed.

Lemma RecvPackedSeq_wire_transferable (client_mode : bool)
    (args : list TVMFFIAny) (s0 : Ch) (m : nat) (rest : list byte) :
  Forall (transferable client_mode) args ->
  Z.of_nat (length args) < 2 ^ 31 ->
  remains s0 m (seq_wire client_mode args ++ rest) ->
  RecvPackedSeq (consume m s0)
  = Done (Z.of_nat (length args), args)
      (consume (m + length (seq_wire client_mode args)) s0).
Proof.
  intros Hrep Hlen Hrem. unfold RecvPackedSeq, Read, seq_wire in *.
  rewrite <- app_assoc in Hrem.
  read_one Hrem. cbn [object_repr] in *.
  rewrite to_int32_split by (unfold int32_range; lia).
  destruct (Z.eqb_spec (Z.of_nat (length args)) 0) as [Hz | Hnz].
  - destruct args; [| cbn [length] in Hz; lia].
    cbn [args_wire length]. unfold ret. rewrite app_nil_r. reflexivity.
  - rewrite Nat2Z.id. unfold bind.
    rewrite (RecvArgs_wire_transferable client_mode args s0 _ rest Hrep Hrem).
    unfold ret. rewrite length_app, Nat.add_assoc. reflexivity.
Qed.
End DecodeHandles.

Lemma handle_status (args : list TVMFFIAny) :
  Forall (transferable true) args ->
  (exists handle, AFunction handle ∈ args \/ AModule handle ∈ args) ->
  args_status false args = Some kInvalidTypeCodeObject.
Proof.
  induction 1 as [| a args Ha _ IH]; intros (h & Hin).
  - destruct Hin as [Hin | Hin]; inversion Hin.
  - cbn [args_status]. destruct (rejects false a) as [st |] eqn:Hr.
    + destruct a; cbn [rejects transferable representable] in *;
        try discriminate; try congruence; try contradiction.
      destruct Ha as (_ & _ & _ & _ & _ & _ & Hs & _).
      rewrite Hs in Hr. discriminate.
    + apply IH. exists h.
      destruct Hin as [Hin | Hin]; apply elem_of_cons in Hin as [<- | Hin];
        first [discriminate | auto].
Qed.

(** X3. In a call from a client ([client_mode] true) the handles of
    functions and modules cross as well: a sequence of representable values
    and such handles is decoded to the sequence sent.  With [client_mode]
    false the same sequence is refused as soon as it holds a handle. *)
Theorem client_handles_round_trip
    `{TypeIndex} {Ch : Type} `{Stream Ch} `{Protocol Ch} `{Sink Ch}
    `{Source Ch} `{!ChannelLaws Ch}
    (args : list TVMFFIAny) (s : Ch) :
  Forall (transferable true) args ->
  Z.of_nat (length args) < 2 ^ 31 ->
  valid s -> readable s = [] ->
  (exists s1 s2,
     SendPackedSeq args (Z.of_nat (length args)) true s = Done tt s1
     /\ RecvPackedSeq s1 = Done (Z.of_nat (length args), args) s2
     /\ readable s2 = [])
  /\ ((exists handle, AFunction handle ∈ args \/ AModule handle ∈ args) ->
      exists s',
        SendPackedSeq args (Z.of_nat (length args)) false s
        = Throw (RPCError kInvalidTypeCodeObject) s').
Proof.
  intros Htr Hlen Hvalid Hempty.
  assert (Hb : Forall builtin args)
    by (eapply Forall_impl; [exact Htr | apply transferable_builtin]).
  split.
  - exists (put (seq_wire true args) s).
    exists (consume (length (seq_wire true args)) (put (seq_wire true args) s)).
    assert (Hrem : remains (put (seq_wire true args) s) 0
                     (seq_wire true args ++ [])).
    { split; rewrite consume_O.
      - now apply valid_put.
      - now rewrite readable_put, Hempty, app_nil_r. }
    split; [| split].
    + rewrite SendPackedSeq_put by exact Hb.
      now rewrite transferable_status.
    + rewrite <- (consume_O (put (seq_wire true args) s)) at 1.
      now rewrite (RecvPackedSeq_wire_transferable true args _ 0 [] Htr Hlen Hrem).
    + apply remains_step in Hrem. destruct Hrem as [_ Hr]. exact Hr.
  - intros Hhandle. rewrite SendPackedSeq_put by exact Hb.
    rewrite (handle_status args Htr Hhandle).
    cbn [finish]. eauto.
Qed.

(** ** Values outside the built-in kinds *)

Lemma bind_ret_tt {S : Type} (c : M S unit) (s : S) :
  (c ;;; ret tt) s = c s.
Proof. unfold bind, ret. destruct (c s) as [[] s' | e s']; reflexivity. Qed.

Section EncodeFacts.
Context `{TypeIndex} {Ch : Type} `{TChannel Ch}.

Lemma SendArgs_app (client_mode : bool) (xs ys : list TVMFFIAny) (s : Ch) :
  SendArgs client_mode (xs ++ ys) s
  = (SendArgs client_mode xs ;;; SendArgs client_mode ys) s.
Proof.
  revert s. induction xs as [| x xs IH]; intros s; cbn [app SendArgs].
  - reflexivity.
  - unfold bind. destruct (SendArg client_mode x s) as [u s' | e s'];
      [| reflexivity].
    rewrite IH. reflexivity.
Qed.
End EncodeFacts.

Section ObjectIndex.
Context `{TypeIndex} {Ch : Type} `{Stream Ch} `{Protocol Ch}
      `{Source Ch} `{!SourceLaws Ch}.

Lemma RecvArg_object (tag : Z) (s0 : Ch) (m : nat) (tail : list byte) :
  int32_range tag ->
  tag ∉ recv_labels ->
  kTVMFFIStaticObjectBegin <= tag ->
  remains s0 m (object_repr (v_int32 tag) ++ tail) ->
  RecvArg (consume m s0)
  = proto_ReadFFIAny tag (consume (m + length (object_repr (v_int32 tag))) s0).
Proof.
  intros Hrange Hnot Hhigh Hrem.
  unfold recv_labels in Hnot. rewrite !not_elem_of_cons in Hnot.
  unfold RecvArg, Read. read_one Hrem. cbn [object_repr].
  rewrite to_int32_split by assumption.
  repeat match goal with
         | |- context [tag =? ?b] =>
             destruct (Z.eqb_spec tag b); [exfalso; intuition congruence |]
         end.
  rewrite Z.geb_leb.
  destruct (Z.leb_spec kTVMFFIStaticObjectBegin tag); [| exfalso; lia].
  reflexivity.
Qed.

Lemma RecvArgs_object (client_mode : bool) (pre : list TVMFFIAny) (tag : Z)
    (s0 : Ch) (m : nat) (tail : list byte) :
  Forall representable pre ->
  int32_range tag ->
  tag ∉ recv_labels ->
  kTVMFFIStaticObjectBegin <= tag ->
  remains s0 m
    (args_wire client_mode pre ++ object_repr (v_int32 tag) ++ tail) ->
  RecvArgs (length pre + 1) (consume m s0)
  = (a <~ proto_ReadFFIAny tag ;; ret (pre ++ [a]))
      (consume (m + length (args_wire client_mode pre
                            ++ object_repr (v_int32 tag))) s0).
Proof.
  intros Hrep Hrange Hnot Hhigh. revert m.
  induction Hrep as [| a pre Ha _ IH]; intros m Hrem;
    cbn [length Nat.add RecvArgs args_wire app] in *.
  - unfold bind at 1. rewrite (RecvArg_object tag s0 m tail) by assumption.
    unfold bind, ret.
    destruct (proto_ReadFFIAny tag _); reflexivity.
  - rewrite representable_not_rejected in * by assumption.
    rewrite <- app_assoc in Hrem.
    unfold bind at 1.
    rewrite (RecvArg_wire client_mode a s0 m _ Ha Hrem).
    apply remains_step in Hrem.
    unfold bind at 1. rewrite (IH _ Hrem).
    rewrite <- app_assoc, (length_app (arg_wire client_mode a)), Nat.add_assoc.
    unfold bind, ret.
    destruct (proto_ReadFFIAny tag _); reflexivity.
Qed.
End ObjectIndex.

(** X4. A value whose type index is no case label is handed to the
    protocol extension on both sides.  The encoder has by then written the
    count, the earlier arguments and the index, and calls [WriteFFIAny];
    the decoder, for an index from [kTVMFFIStaticObjectBegin] on, has read
    exactly those bytes and calls [ReadFFIAny], whose value becomes the
    argument. *)
Theorem extension_values_are_delegated
    `{TypeIndex} {Ch : Type} `{Stream Ch} `{Protocol Ch} `{Sink Ch}
    `{Source Ch} `{!ChannelLaws Ch}
    (pre : list TVMFFIAny) (index v_obj : Z) (client_mode : bool)
    (tail : list byte) (s r : Ch) :
  Forall representable pre ->
  int32_range index ->
  index ∉ case_labels ->
  kTVMFFIStaticObjectBegin <= index ->
  Z.of_nat (length pre) + 1 < 2 ^ 31 ->
  let args := pre ++ [AOther index v_obj] in
  let head :=
    object_repr (v_int32 (Z.of_nat (length args)))
    ++ args_wire client_mode pre ++ object_repr (v_int32 index) in
  valid r -> readable r = head ++ tail ->
  SendPackedSeq args (Z.of_nat (length args)) client_mode s
  = proto_WriteFFIAny (AOther index v_obj) (put head s)
  /\ RecvPackedSeq r
     = (a <~ proto_ReadFFIAny index ;;
        ret (Z.of_nat (length args), pre ++ [a])) (consume (length head) r)
  /\ readable (consume (length head) r) = tail.
Proof.
  intros Hrep Hrange Hnot Hhigh Hlen args head Hvalid Hread.
  assert (Hb : Forall builtin pre)
    by (eapply Forall_impl; [exact Hrep | apply representable_builtin]).
  assert (Hlabels : index ∉ recv_labels).
  { unfold recv_labels, case_labels in *.
    rewrite !not_elem_of_cons in *. tauto. }
  assert (Hcount : length args = (length pre + 1)%nat)
    by (unfold args; now rewrite length_app).
  assert (Hrem : remains r 0 (head ++ tail))
    by (split; now rewrite consume_O).
  subst args head. rewrite Hcount in *.
  split; [| split].
  - unfold SendPackedSeq.
    replace (Z.to_nat (Z.of_nat (length pre + 1)))
      with (length (pre ++ [AOther index v_obj]))
      by (rewrite length_app; cbn [length]; lia).
    rewrite firstn_all.
    unfold bind at 1. unfold lift at 1. rewrite Write_put.
    rewrite SendArgs_app. unfold bind at 1.
    rewrite SendArgs_put by exact Hb.
    rewrite representable_status by exact Hrep. cbn [finish SendArgs].
    rewrite bind_ret_tt. unfold SendArg. cbn [type_index].
    unfold bind at 1. unfold lift at 1. rewrite Write_put, put_app.
    now rewrite <- app_assoc.
  - rewrite <- (consume_O r) at 1.
    unfold RecvPackedSeq, Read.
    rewrite <- !app_assoc in Hrem.
    read_one Hrem. cbn [object_repr] in *.
    rewrite to_int32_split by (unfold int32_range; lia).
    destruct (Z.eqb_spec (Z.of_nat (length pre + 1)) 0) as [Hz | _]; [lia |].
    rewrite Nat2Z.id. unfold bind at 1.
    rewrite (RecvArgs_object client_mode pre index r _ tail) by assumption.
    rewrite !length_app, !Nat.add_assoc. cbn [Nat.add].
    unfold bind, ret. destruct (proto_ReadFFIAny index _); reflexivity.
  - apply remains_step in Hrem. exact (proj2 Hrem).
Qed.

(** ** Sequences one behind the other *)

(** X5. Two packed sequences written one behind the other are read back
    one after the other: the decoder stops exactly at the end of the first,
    so that the second is decoded from its first byte. *)
Theorem sequences_are_self_delimiting
    `{TypeIndex} {Ch : Type} `{Stream Ch} `{Protocol Ch} `{Sink Ch}
    `{Source Ch} `{!ChannelLaws Ch}
    (args1 args2 : list TVMFFIAny) (client_mode : bool) (s : Ch) :
  Forall representable args1 ->
  Forall representable args2 ->
  Z.of_nat (length args1) < 2 ^ 31 ->
  Z.of_nat (length args2) < 2 ^ 31 ->
  valid s -> readable s = [] ->
  exists s1 s2,
    (SendPackedSeq args1 (Z.of_nat (length args1)) client_mode ;;;
     SendPackedSeq args2 (Z.of_nat (length args2)) client_mode) s
    = Done tt s1
    /\ (x <~ RecvPackedSeq ;; y <~ RecvPackedSeq ;; ret (x, y)) s1
       = Done ((Z.of_nat (length args1), args1),
               (Z.of_nat (length args2), args2)) s2
    /\ readable s2 = [].
Proof.
  intros Hrep1 Hrep2 Hlen1 Hlen2 Hvalid Hempty.
  set (wire := seq_wire client_mode args1 ++ seq_wire client_mode args2).
  exists (put wire s), (consume (length wire) (put wire s)).
  assert (Hrem : remains (put wire s) 0
                   (seq_wire client_mode args1
                    ++ seq_wire client_mode args2 ++ [])).
  { split; rewrite consume_O.
    - now apply valid_put.
    - now rewrite readable_put, Hempty, app_nil_r. }
  split; [| split].
  - unfold bind.
    rewrite SendPackedSeq_put, representable_status
      by (first [assumption
                | eapply Forall_impl; [eassumption | apply representable_builtin]]).
    cbn [finish].
    rewrite SendPackedSeq_put, representable_status
      by (first [assumption
                | eapply Forall_impl; [eassumption | apply representable_builtin]]).
    cbn [finish]. now rewrite put_app.
  - rewrite <- (consume_O (put wire s)) at 1. unfold bind at 1.
    rewrite (RecvPackedSeq_wire client_mode args1 _ 0 _ Hrep1 Hlen1 Hrem).
    apply remains_step in Hrem. unfold bind at 1.
    rewrite (RecvPackedSeq_wire client_mode args2 _ _ _ Hrep2 Hlen2 Hrem).
    unfold ret, wire. now rewrite length_app.
  - apply remains_step in Hrem. apply remains_step in Hrem.
    destruct Hrem as [_ Hr]. unfold wire. rewrite length_app.
    cbn [Nat.add] in Hr. exact Hr.
Qed.

(** ** Arrays behind a pointer and a count *)

Lemma arg_wire_counted_bytes `{TypeIndex} (client_mode : bool)
    (b : TVMFFIByteArray) :
  0 <= ba_size b < 2 ^ 64 ->
  arg_wire client_mode (AByteArrayPtr b)
  = arg_wire client_mode (AByteArrayPtr (counted_bytes b)).
Proof.
  intros Hsize. unfold arg_wire, counted_bytes.
  cbn [type_index payload_wire ba_size ba_data].
  unfold size_t. rewrite wrap64_small by lia.
  now rewrite take_take, Nat.min_id.
Qed.

Lemma arg_wire_counted_shape `{TypeIndex} (client_mode : bool) (arr : DLTensor) :
  0 <= ndim arr < 2 ^ 31 ->
  arg_wire client_mode (ADLTensorPtr arr)
  = arg_wire client_mode (ADLTensorPtr (counted_shape arr)).
Proof.
  intros Hnd. unfold arg_wire, counted_shape.
  cbn [type_index payload_wire]. unfold DLTensor_fields_wire.
  cbn [data device ndim dtype shape strides byte_offset].
  unfold size_t. rewrite wrap64_small by lia.
  now rewrite take_take, Nat.min_id.
Qed.

(** X6. An array behind a pointer crosses by its count.  Of the memory of
    a byte array the first [size] bytes are sent, of the shape of a tensor
    descriptor the first [ndim] extents; what lies behind them in the
    sender's memory is not, and the receiver gets a byte array of exactly
    [size] bytes and a descriptor whose shape has exactly [ndim] extents,
    the other arguments of the sequence unchanged. *)
Theorem counted_arrays_cross_by_count
    `{TypeIndex} {Ch : Type} `{Stream Ch} `{Protocol Ch} `{Sink Ch}
    `{Source Ch} `{!ChannelLaws Ch}
    (pre post : list TVMFFIAny) (b : TVMFFIByteArray) (arr : DLTensor)
    (client_mode : bool) (s : Ch) :
  Forall representable pre ->
  Forall representable post ->
  0 <= ba_size b <= Z.of_nat (length (ba_data b)) ->
  ba_size b < 2 ^ 64 ->
  0 <= ndim arr <= Z.of_nat (length (shape arr)) ->
  DLTensor_ok (counted_shape arr) ->
  Z.of_nat (length (pre ++ AByteArrayPtr b :: ADLTensorPtr arr :: post))
    < 2 ^ 31 ->
  valid s -> readable s = [] ->
  let args := pre ++ AByteArrayPtr b :: ADLTensorPtr arr :: post in
  let received :=
    pre ++ AByteArrayPtr (counted_bytes b)
        :: ADLTensorPtr (counted_shape arr) :: post in
  exists s1 s2,
    SendPackedSeq args (Z.of_nat (length args)) client_mode s = Done tt s1
    /\ RecvPackedSeq s1 = Done (Z.of_nat (length args), received) s2
    /\ readable s2 = []
    /\ length (ba_data (counted_bytes b)) = Z.to_nat (ba_size b)
    /\ length (shape (counted_shape arr)) = Z.to_nat (ndim arr).
Proof.
  intros Hpre Hpost Hsize Hmax Hnd Hok Hlen Hvalid Hempty args received.
  assert (Hnd31 : 0 <= ndim arr < 2 ^ 31)
    by (destruct Hok as (_ & _ & Hr & _); exact Hr).
  assert (Hsame : length args = length received)
    by (unfold args, received; now rewrite !length_app).
  assert (Hrepb : representable (AByteArrayPtr (counted_bytes b))).
  { cbn [representable counted_bytes ba_size ba_data].
    rewrite length_take. split; lia. }
  assert (Hrep : Forall representable received).
  { apply Forall_app. split; [exact Hpre |].
    constructor; [exact Hrepb |]. constructor; [exact Hok | exact Hpost]. }
  assert (Hstr : strides arr = None)
    by (destruct Hok as (_ & _ & _ & _ & _ & _ & Hs & _); exact Hs).
  assert (Hb : Forall builtin args).
  { apply Forall_app. split.
    - eapply Forall_impl; [exact Hpre | apply representable_builtin].
    - constructor; [exact I |]. constructor; [exact I |].
      eapply Forall_impl; [exact Hpost | apply representable_builtin]. }
  destruct (args_wire_middle client_mode pre (ADLTensorPtr arr :: post)
              (AByteArrayPtr b) (AByteArrayPtr (counted_bytes b))
              (arg_wire_counted_bytes client_mode b ltac:(lia)) eq_refl)
    as [Hw1 Hs1].
  destruct (args_wire_middle client_mode
              (pre ++ [AByteArrayPtr (counted_bytes b)]) post
              (ADLTensorPtr arr) (ADLTensorPtr (counted_shape arr))
              (arg_wire_counted_shape client_mode arr Hnd31) eq_refl)
    as [Hw2 Hs2].
  rewrite <- !app_assoc in Hw2, Hs2. cbn [app] in Hw2, Hs2.
  fold args in Hw1, Hs1. fold received in Hw2, Hs2.
  assert (Hseq : seq_wire client_mode args = seq_wire client_mode received)
    by (unfold seq_wire; now rewrite Hw1, Hw2, Hsame).
  exists (put (seq_wire client_mode received) s).
  exists (consume (length (seq_wire client_mode received))
            (put (seq_wire client_mode received) s)).
  assert (Hrem : remains (put (seq_wire client_mode received) s) 0
                   (seq_wire client_mode received ++ [])).
  { split; rewrite consume_O.
    - now apply valid_put.
    - now rewrite readable_put, Hempty, app_nil_r. }
  split; [| split; [| split; [| split]]].
  - rewrite SendPackedSeq_put by exact Hb.
    now rewrite Hs1, Hs2, representable_status, Hseq.
  - rewrite <- (consume_O (put (seq_wire client_mode received) s)) at 1.
    rewrite Hsame.
    rewrite (RecvPackedSeq_wire client_mode received _ 0 [] Hrep); auto.
    now rewrite <- Hsame.
  - apply remains_step in Hrem. destruct Hrem as [_ Hr]. exact Hr.
  - cbn [counted_bytes ba_data]. rewrite length_take. lia.
  - cbn [counted_shape shape]. rewrite length_take. lia.
Qed.

(** ** The count and the array *)

(** X7. The count selects a prefix of the array: with [num_args] between
    zero and the length of the array behind [packed_args],
    [SendPackedSeq] writes the count and the first [num_args] values, no
    others, and [RecvPackedSeq] returns that count and those values. *)
Theorem count_selects_prefix
    `{TypeIndex} {Ch : Type} `{Stream Ch} `{Protocol Ch} `{Sink Ch}
    `{Source Ch} `{!ChannelLaws Ch}
    (packed_args : list TVMFFIAny) (num_args : Z) (client_mode : bool)
    (s : Ch) :
  0 <= num_args <= Z.of_nat (length packed_args) ->
  num_args < 2 ^ 31 ->
  Forall representable (take (Z.to_nat num_args) packed_args) ->
  valid s -> readable s = [] ->
  exists s1 s2,
    SendPackedSeq packed_args num_args client_mode s = Done tt s1
    /\ readable s1
       = seq_wire client_mode (take (Z.to_nat num_args) packed_args)
    /\ RecvPackedSeq s1
       = Done (num_args, take (Z.to_nat num_args) packed_args) s2
    /\ readable s2 = [].
Proof.
  intros Hnum Hmax Hrep Hvalid Hempty.
  set (args := take (Z.to_nat num_args) packed_args) in *.
  assert (Hlen : Z.of_nat (length args) = num_args)
    by (unfold args; rewrite length_take; lia).
  assert (Hsend : SendPackedSeq packed_args num_args client_mode s
                  = SendPackedSeq args (Z.of_nat (length args)) client_mode s).
  { unfold SendPackedSeq. rewrite Hlen. fold args.
    replace (take (Z.to_nat num_args) args) with args;
      [reflexivity |].
    unfold args. rewrite take_take. f_equal. lia. }
  exists (put (seq_wire client_mode args) s).
  exists (consume (length (seq_wire client_mode args))
            (put (seq_wire client_mode args) s)).
  assert (Hrem : remains (put (seq_wire client_mode args) s) 0
                   (seq_wire client_mode args ++ [])).
  { split; rewrite consume_O.
    - now apply valid_put.
    - now rewrite readable_put, Hempty, app_nil_r. }
  split; [| split; [| split]].
  - rewrite Hsend, SendPackedSeq_put
      by (eapply Forall_impl; [exact Hrep | apply representable_builtin]).
    now rewrite representable_status.
  - now rewrite readable_put, Hempty.
  - rewrite <- (consume_O (put (seq_wire client_mode args) s)) at 1.
    rewrite (RecvPackedSeq_wire client_mode args _ 0 [] Hrep); [| lia | exact Hrem].
    now rewrite Hlen.
  - apply remains_step in Hrem. destruct Hrem as [_ Hr]. exact Hr.
Qed.

(** ** The names of the codes *)

(** X8. [RPCServerStatusToString] gives every status a name of its own,
    none of them empty; every name starts with k but that of
    [kRPCCodeNotSupported], which lacks the leading k. *)
Theorem status_names_are_distinct :
  (forall a b,
     RPCServerStatusToString a = RPCServerStatusToString b -> a = b)
  /\ (forall a, RPCServerStatusToString a <> String.EmptyString)
  /\ (forall a,
        String.prefix "k" (RPCServerStatusToString a) = true
        <-> a <> kRPCCodeNotSupported)
  /\ RPCServerStatusToString kRPCCodeNotSupported
     = "RPCCodeNotSupported"%string.
Proof.
  split; [| split; [| split]].
  - intros a b. destruct a, b; cbn; intros Heq;
      first [reflexivity | discriminate Heq].
  - intros a. destruct a; discriminate.
  - intros a. destruct a; cbn; split; intros Hx;
      first [reflexivity | discriminate | congruence].
  - reflexivity.
Qed.

(** X9. [RPCCodeToString] has no case for [kNone] and none for
    [kDevGetCurrentStream]: for these two, and only for them, the name is
    the empty string.  Every other code has a name of its own. *)
Theorem code_names_leave_out_two :
  (forall c,
     RPCCodeToString c = String.EmptyString
     <-> c = kNone \/ c = kDevGetCurrentStream)
  /\ (forall a b,
        RPCCodeToString a = RPCCodeToString b ->
        a = b \/ RPCCodeToString a = String.EmptyString).
Proof.
  split.
  - intros c. destruct c; cbn; split; intros Hx;
      first [ now left | now right | discriminate
            | destruct Hx as [Hx | Hx]; discriminate Hx
            | reflexivity ].
  - intros a b. destruct a, b; cbn; intros Heq;
      first [now left | now right | discriminate Heq].
Qed.

(** ** Reply packets read back *)

Section ReadPacket.
Context `{TypeIndex} {Ch : Type} `{Stream Ch} `{Protocol Ch}
      `{Source Ch} `{!SourceLaws Ch}.

Lemma read_packet_wire (cmd : RPCCode) (args : list TVMFFIAny) (s0 : Ch)
    (m : nat) (rest : list byte) :
  Forall representable args ->
  Z.of_nat (length args) < 2 ^ 31 ->
  Z.of_nat (length (seq_wire false args)) + sizeof t_RPCCode < 2 ^ 64 ->
  remains s0 m (packet cmd (seq_wire false args) ++ rest) ->
  read_packet (consume m s0)
  = Done (sizeof t_RPCCode + Z.of_nat (length (seq_wire false args)),
          RPCCode_value cmd, (Z.of_nat (length args), args))
      (consume (m + length (packet cmd (seq_wire false args))) s0).
Proof.
  intros Hrep Hlen Hfit Hrem. unfold read_packet, packet, Read in *.
  rewrite <- !app_assoc in Hrem.
  read_one Hrem. read_one Hrem. unfold bind at 1.
  rewrite (RecvPackedSeq_wire false args s0 _ rest Hrep Hlen Hrem).
  unfold ret. cbn [object_repr sizeof] in *.
  rewrite to_uint64_split
    by (unfold uint64_range; rewrite length_app, length_le_split; lia).
  rewrite to_int32_split by (destruct cmd; unfold int32_range; cbn; lia).
  rewrite !length_app, !length_le_split, !Nat.add_assoc.
  replace (Z.of_nat (4 + length (seq_wire false args)))
    with (4 + Z.of_nat (length (seq_wire false args))) by lia.
  reflexivity.
Qed.
End ReadPacket.

Section ReplyPackets.
Context `{TypeIndex} {Ch : Type} `{Stream Ch} `{Protocol Ch} `{Framed Ch}
      `{Sink Ch} `{!SinkLaws Ch}.

Lemma ReturnException_packet (msg : list byte) (s : Ch) :
  Z.of_nat (length msg) + 20 < 2 ^ 64 ->
  ReturnException msg s
  = Done tt (MessageDone
               (put (packet kException (seq_wire false [ARawStr msg]))
                  (MessageStart
                     (sizeof t_RPCCode
                      + Z.of_nat (length (seq_wire false [ARawStr msg]))) s))).
Proof.
  intros Hmsg. pose proof (StrLength_range msg) as Hlen.
  unfold ReturnException, bind, lift.
  rewrite !Write_put, WriteArray_put by apply Forall_ctype_map_char.
  rewrite !put_app. unfold packet, seq_wire.
  cbn [args_wire rejects length]. unfold arg_wire.
  cbn [payload_wire type_index Z.of_nat Pos.of_succ_nat].
  fold (array_repr (map v_char (take (Z.to_nat (StrLength msg)) msg))).
  rewrite array_repr_chars, !app_nil_r.
  rewrite !length_app, !Nat2Z.inj_add, !length_object_repr, length_take.
  cbn [ctype_of sizeof Z.of_nat Pos.of_succ_nat Pos.succ].
  replace (Z.of_nat (Z.to_nat (StrLength msg) `min` length msg))
    with (StrLength msg) by lia.
  rewrite wrap64_small by lia.
  replace (4 + (4 + (4 + (8 + StrLength msg))))
    with (4 + 4 + 4 + 8 + StrLength msg) by lia.
  rewrite <- ?app_assoc. reflexivity.
Qed.

Lemma ReturnVoid_packet (s : Ch) :
  ReturnVoid s
  = Done tt (MessageDone
               (put (packet kReturn (seq_wire false [ANone]))
                  (MessageStart
                     (sizeof t_RPCCode
                      + Z.of_nat (length (seq_wire false [ANone]))) s))).
Proof.
  unfold ReturnVoid, bind, lift.
  rewrite !Write_put, !put_app. unfold packet, seq_wire.
  cbn [args_wire rejects length]. unfold arg_wire.
  cbn [payload_wire type_index Z.of_nat Pos.of_succ_nat].
  rewrite !app_nil_r.
  rewrite !length_app, !Nat2Z.inj_add, !length_object_repr.
  cbn [ctype_of sizeof Z.of_nat Pos.of_succ_nat Pos.succ].
  rewrite wrap64_small by lia.
  rewrite <- ?app_assoc. reflexivity.
Qed.
End ReplyPackets.

Lemma seq_wire_c_str `{TypeIndex} (msg : list byte) :
  seq_wire false [ARawStr msg] = seq_wire false [ARawStr (c_str msg)].
Proof.
  unfold seq_wire. cbn [args_wire rejects length].
  now rewrite (arg_wire_c_str false msg).
Qed.

Lemma length_seq_wire_str `{TypeIndex} (msg : list byte) :
  Z.of_nat (length (seq_wire false [ARawStr msg])) = 16 + StrLength msg.
Proof.
  pose proof (StrLength_range msg).
  unfold seq_wire. cbn [args_wire rejects length]. unfold arg_wire.
  cbn [payload_wire type_index object_repr].
  rewrite array_repr_chars.
  rewrite !length_app, !length_le_split, length_take. cbn [length]. lia.
Qed.

Lemma length_seq_wire_none `{TypeIndex} :
  length (seq_wire false [ANone]) = 8%nat.
Proof.
  unfold seq_wire. cbn [args_wire rejects length]. unfold arg_wire.
  cbn [payload_wire type_index object_repr].
  rewrite !length_app, !length_le_split. reflexivity.
Qed.

(** X10. The packet of [ReturnException], read back on a channel that adds
    nothing at the message boundaries: the length is the number of bytes
    behind it, the code is [kException], and the sequence holds one raw
    string, the message up to its terminator. *)
Theorem exception_packet_reads_back
    `{TypeIndex} {Ch : Type} `{Stream Ch} `{Protocol Ch} `{Framed Ch}
    `{Sink Ch} `{Source Ch} `{!ChannelLaws Ch}
    (msg : list byte) (s : Ch) :
  (forall n c, MessageStart n c = c) ->
  (forall c, MessageDone c = c) ->
  Z.of_nat (length msg) + 20 < 2 ^ 64 ->
  valid s -> readable s = [] ->
  exists s1 s2,
    ReturnException msg s = Done tt s1
    /\ Z.of_nat (length (readable s1)) = 8 + 20 + StrLength msg
    /\ read_packet s1
       = Done (20 + StrLength msg, RPCCode_value kException,
               (1, [ARawStr (c_str msg)])) s2
    /\ readable s2 = [].
Proof.
  intros Hstart Hdone Hmsg Hvalid Hempty.
  pose proof (StrLength_range msg) as Hrange.
  pose proof (length_seq_wire_str msg) as Hlen.
  set (wire := packet kException (seq_wire false [ARawStr msg])).
  exists (put wire s), (consume (length wire) (put wire s)).
  assert (Hrem : remains (put wire s) 0 (wire ++ [])).
  { split; rewrite consume_O.
    - now apply valid_put.
    - now rewrite readable_put, Hempty, app_nil_r. }
  split; [| split; [| split]].
  - rewrite ReturnException_packet by exact Hmsg.
    now rewrite Hdone, Hstart.
  - rewrite readable_put, Hempty. cbn [app]. unfold wire, packet.
    rewrite !length_app. cbn [object_repr]. rewrite !length_le_split. lia.
  - rewrite <- (consume_O (put wire s)) at 1.
    assert (Hrep : Forall representable [ARawStr (c_str msg)]).
    { constructor; [| constructor]. apply c_str_representable. lia. }
    unfold wire in *. rewrite seq_wire_c_str in Hrem |- *.
    rewrite (read_packet_wire kException [ARawStr (c_str msg)] _ 0 [] Hrep);
      [ | cbn; lia | rewrite <- seq_wire_c_str, Hlen; cbn [sizeof]; lia
        | exact Hrem ].
    rewrite <- seq_wire_c_str, Hlen. cbn [sizeof length Z.of_nat Pos.of_succ_nat].
    replace (4 + (16 + StrLength msg)) with (20 + StrLength msg) by lia.
    reflexivity.
  - apply remains_step in Hrem. exact (proj2 Hrem).
Qed.

(** X11. The packet of [ReturnVoid], read back on such a channel: twenty
    bytes, the length twelve, the code [kReturn], and a sequence of one
    argument, the none value. *)
Theorem void_packet_reads_back
    `{TypeIndex} {Ch : Type} `{Stream Ch} `{Protocol Ch} `{Framed Ch}
    `{Sink Ch} `{Source Ch} `{!ChannelLaws Ch} (s : Ch) :
  (forall n c, MessageStart n c = c) ->
  (forall c, MessageDone c = c) ->
  valid s -> readable s = [] ->
  exists s1 s2,
    ReturnVoid s = Done tt s1
    /\ length (readable s1) = 20%nat
    /\ read_packet s1 = Done (12, RPCCode_value kReturn, (1, [ANone])) s2
    /\ readable s2 = [].
Proof.
  intros Hstart Hdone Hvalid Hempty.
  set (wire := packet kReturn (seq_wire false [ANone])).
  exists (put wire s), (consume (length wire) (put wire s)).
  assert (Hrem : remains (put wire s) 0 (wire ++ [])).
  { split; rewrite consume_O.
    - now apply valid_put.
    - now rewrite readable_put, Hempty, app_nil_r. }
  split; [| split; [| split]].
  - rewrite ReturnVoid_packet. now rewrite Hdone, Hstart.
  - rewrite readable_put, Hempty. cbn [app]. unfold wire, packet.
    rewrite !length_app, length_seq_wire_none. cbn [object_repr].
    now rewrite !length_le_split.
  - rewrite <- (consume_O (put wire s)) at 1. unfold wire in *.
    assert (Hrep : Forall representable [ANone])
      by (constructor; [exact I | constructor]).
    rewrite (read_packet_wire kReturn [ANone] _ 0 [] Hrep);
      [| cbn; lia | rewrite length_seq_wire_none; cbn; lia | exact Hrem ].
    rewrite length_seq_wire_none. reflexivity.
  - apply remains_step in Hrem. exact (proj2 Hrem).
Qed.

(** ** A reply that is refused *)

(** X12. When the sequence of a reply holds a value the encoder refuses,
    [ReturnPackedSeq] raises while it counts the bytes: the channel is as
    it was, no message has been started and no byte written.  On the queue
    of the threaded session, [Send] then leaves the queue as it was:
    nothing is committed and the packet count is unchanged. *)
Theorem refused_reply_writes_nothing
    `{TypeIndex} {Ch : Type} `{Stream Ch} `{Protocol Ch} `{Framed Ch}
    `{Sink Ch} `{!SinkLaws Ch} `{Protocol DiscoThreadedMessageQueue.t}
    (pre post : list TVMFFIAny) (a : TVMFFIAny) (s : Ch)
    (q : DiscoThreadedMessageQueue.t) :
  Forall builtin (pre ++ a :: post) ->
  Forall (fun x => ~ offending false x) pre ->
  offending false a ->
  let args := pre ++ a :: post in
  exists st,
    rejects false a = Some st
    /\ ReturnPackedSeq args (Z.of_nat (length args)) s = Throw (RPCError st) s
    /\ DiscoThreadedMessageQueue.Send args q = Throw (RPCError st) q.
Proof.
  intros Hb Hpre Ha args.
  destruct (offending_rejects _ _ Ha) as [st Hst]. exists st.
  destruct (args_at_first_offender false pre a post st Hpre Hst) as [Hstatus _].
  split; [exact Hst |]. split.
  - now apply ReturnPackedSeq_rejected.
  - unfold DiscoThreadedMessageQueue.Send, bind.
    now rewrite (ReturnPackedSeq_rejected (Ch := DiscoThreadedMessageQueue.t)
                   args st q Hb Hstatus).
Qed.

(** ** Tensor descriptors as received *)

(** X13. Whatever the channel holds, a tensor descriptor that
    [ReceiveDLTensor] returns has no strides and a shape of as many
    entries as its rank converted to [size_t]; so [SendDLTensor] does not
    refuse a descriptor that was received. *)
Theorem received_tensor_is_dense
    `{TypeIndex} {Ch : Type} `{Stream Ch} `{Protocol Ch}
    `{Sink Ch} `{!SinkLaws Ch}
    (s s' out : Ch) (arr : DLTensor) :
  ReceiveDLTensor s = Done arr s' ->
  strides arr = None
  /\ length (shape arr) = Z.to_nat (size_t (ndim arr))
  /\ exists out', SendDLTensor arr out = Done tt out'.
Proof.
  unfold ReceiveDLTensor, Read, ReadArray, bind, ret.
  destruct (stream_Read (sizeof t_uint64) s) as [handle s1 |]; [| discriminate].
  destruct (stream_Read (sizeof t_DLDevice) s1) as [dev s2 |]; [| discriminate].
  destruct (stream_Read (sizeof t_int32) s2) as [nd s3 |]; [| discriminate].
  destruct (stream_Read (sizeof t_DLDataType) s3) as [dt s4 |]; [| discriminate].
  destruct (stream_Read _ s4) as [sh s5 |]; [| discriminate].
  destruct (stream_Read (sizeof t_uint64) s5) as [off s6 |]; [| discriminate].
  intros [= <- <-]. cbn [strides ndim shape].
  split; [reflexivity |]. split.
  - generalize (Z.to_nat (size_t (to_int32 nd))). intros n. revert sh.
    induction n as [| n IH]; intros sh; cbn [to_int64_array length];
      [reflexivity | now rewrite IH].
  - rewrite SendDLTensor_put. cbn [rejects strides finish]. eauto.
Qed.

(** ** A packet that ends early *)

Section ShortPacket.
Context `{TypeIndex} `{Protocol DiscoThreadedMessageQueue.t}.

Lemma Read_past_end (size : Z) (q : DiscoThreadedMessageQueue.t) :
  valid q -> readable q = [] -> 0 < size ->
  DiscoThreadedMessageQueue.Read size q
  = Throw CheckFailed
      (DiscoThreadedMessageQueue.set_read_offset
         (DiscoThreadedMessageQueue.read_offset_ q + size) q).
Proof.
  intros Hv Hr Hsize. cbn [valid readable queue_source] in Hv, Hr.
  apply (f_equal (@length byte)) in Hr. rewrite length_drop in Hr.
  cbn [length] in Hr.
  unfold DiscoThreadedMessageQueue.Read.
  cbn [DiscoThreadedMessageQueue.set_read_offset
       DiscoThreadedMessageQueue.read_offset_
       DiscoThreadedMessageQueue.read_buffer_].
  destruct (Z.leb_spec (DiscoThreadedMessageQueue.read_offset_ q + size)
              (Z.of_nat (length (DiscoThreadedMessageQueue.read_buffer_ q))));
    [lia | reflexivity].
Qed.

Lemma RecvArgs_short (pre : list TVMFFIAny) (k : nat)
    (q0 : DiscoThreadedMessageQueue.t) (m : nat) :
  Forall representable pre ->
  remains q0 m (args_wire false pre ++ []) ->
  exists q',
    RecvArgs (length pre + S k) (consume m q0) = Throw CheckFailed q'
    /\ DiscoThreadedMessageQueue.ring_buffer_ q'
       = DiscoThreadedMessageQueue.ring_buffer_ q0
    /\ DiscoThreadedMessageQueue.msg_cnt_ q'
       = DiscoThreadedMessageQueue.msg_cnt_ q0.
Proof.
  intros Hrep. revert m.
  induction Hrep as [| a pre Ha _ IH]; intros m Hrem;
    cbn [length Nat.add RecvArgs args_wire app] in *.
  - destruct Hrem as [Hv Hr].
    unfold bind at 1. unfold RecvArg, Read, bind at 1.
    change (stream_Read (sizeof t_int32))
      with (DiscoThreadedMessageQueue.Read (sizeof t_int32)).
    rewrite Read_past_end by (first [assumption | cbn; lia]).
    eexists. split; [reflexivity |]. split; reflexivity.
  - rewrite representable_not_rejected in * by assumption.
    rewrite <- app_assoc in Hrem.
    unfold bind at 1.
    rewrite (RecvArg_wire false a q0 m _ Ha Hrem).
    apply remains_step in Hrem.
    destruct (IH _ Hrem) as (q' & Hrun & Hkeep).
    unfold bind at 1. rewrite Hrun. eauto.
Qed.
End ShortPacket.

(** X14. A packet whose sequence ends before the count it announces is
    never handed out in part.  [Recv] takes the whole packet off the ring
    buffer and decodes the arguments that are there; the read of the next
    type index would pass the end of the packet, and the check in [Read]
    fails.  The packets behind it are still queued. *)
Theorem short_packet_fails_the_check
    `{TypeIndex} `{Protocol DiscoThreadedMessageQueue.t}
    (pre : list TVMFFIAny) (count : Z) (tail : list byte)
    (q : DiscoThreadedMessageQueue.t) :
  Forall representable pre ->
  Z.of_nat (length pre) < count < 2 ^ 31 ->
  0 < DiscoThreadedMessageQueue.msg_cnt_ q ->
  let body := object_repr (v_int32 count) ++ args_wire false pre in
  Z.of_nat (length body) + sizeof t_RPCCode < 2 ^ 64 ->
  DiscoThreadedMessageQueue.ring_buffer_ q = packet kReturn body ++ tail ->
  exists q',
    DiscoThreadedMessageQueue.Recv q = Some (Throw CheckFailed q')
    /\ DiscoThreadedMessageQueue.ring_buffer_ q' = tail
    /\ DiscoThreadedMessageQueue.msg_cnt_ q'
       = wrap_int (DiscoThreadedMessageQueue.msg_cnt_ q - 1).
Proof.
  intros Hrep Hcount Hcnt body Hfit Hring.
  unfold DiscoThreadedMessageQueue.Recv,
    DiscoThreadedMessageQueue.DequeueNextPacket.
  destruct (Z.ltb_spec 0 (DiscoThreadedMessageQueue.msg_cnt_ q)); [| lia].
  unfold bind at 1.
  rewrite (dequeue_locked_packet body tail q Hring Hfit).
  match goal with
  | |- context [bind _ _ ?st] => set (q1 := st)
  end.
  assert (Hrem : remains q1 0
            (object_repr (v_RPCCode kReturn) ++ object_repr (v_int32 count)
             ++ args_wire false pre ++ [])).
  { split; rewrite consume_O.
    - cbn. lia.
    - cbn. unfold body. now rewrite app_nil_r. }
  rewrite <- (consume_O q1).
  change (DiscoThreadedMessageQueue.Read (sizeof t_RPCCode))
    with (stream_Read (S := DiscoThreadedMessageQueue.t) (sizeof t_RPCCode)).
  read_one Hrem. unfold ret at 1.
  unfold RecvPackedSeq, Read. read_one Hrem. cbn [object_repr] in *.
  rewrite to_int32_split by (unfold int32_range; lia).
  destruct (Z.eqb_spec count 0); [lia |].
  replace (Z.to_nat count)
    with (length pre + S (Z.to_nat count - length pre - 1))%nat by lia.
  destruct (RecvArgs_short pre (Z.to_nat count - length pre - 1) q1 _ Hrep Hrem)
    as (q' & Hrun & Hring' & Hcnt').
  unfold bind at 1. rewrite Hrun.
  exists q'. split; [reflexivity |]. split; [exact Hring' | exact Hcnt'].
Qed.

(** ** The channel of a worker thread *)

Section ThreadChannelFacts.
Context `{TypeIndex} `{Protocol DiscoThreadedMessageQueue.t}.

Lemma Recv_blocks (q : DiscoThreadedMessageQueue.t) :
  holds_packets [] q -> DiscoThreadedMessageQueue.Recv q = None.
Proof.
  intros (_ & Hcnt & _).
  unfold DiscoThreadedMessageQueue.Recv, DiscoThreadedMessageQueue.DequeueNextPacket.
  rewrite Hcnt. reflexivity.
Qed.
Lemma ThreadChannel_Send_holds (requests replies : list (list TVMFFIAny))
    (a : list TVMFFIAny) (c : DiscoThreadChannel) :
  channel_holds requests replies c ->
  sendable a ->
  Z.of_nat (length requests) + 1 < 2 ^ 31 ->
  exists c',
    ThreadChannel_Send a c = Done tt c'
    /\ channel_holds (requests ++ [a]) replies c'
    /\ worker_to_controler_ c' = worker_to_controler_ c.
Proof.
  intros [Hreq Hrep] Ha Hroom.
  destruct (Send_enqueues requests a _ Hreq Ha Hroom) as (q & Hsend & Hq & _).
  unfold ThreadChannel_Send, on_queue. rewrite Hsend.
  eexists. split; [reflexivity |]. split; [split; assumption | reflexivity].
Qed.

Lemma ThreadChannel_Reply_holds (requests replies : list (list TVMFFIAny))
    (a : list TVMFFIAny) (c : DiscoThreadChannel) :
  channel_holds requests replies c ->
  sendable a ->
  Z.of_nat (length replies) + 1 < 2 ^ 31 ->
  exists c',
    ThreadChannel_Reply a c = Done tt c'
    /\ channel_holds requests (replies ++ [a]) c'
    /\ controler_to_worker_ c' = controler_to_worker_ c.
Proof.
  intros [Hreq Hrep] Ha Hroom.
  destruct (Send_enqueues replies a _ Hrep Ha Hroom) as (q & Hsend & Hq & _).
  unfold ThreadChannel_Reply, on_queue. rewrite Hsend.
  eexists. split; [reflexivity |]. split; [split; assumption | reflexivity].
Qed.

Lemma ThreadChannel_Recv_holds (requests replies : list (list TVMFFIAny))
    (c : DiscoThreadChannel) :
  channel_holds requests replies c ->
  Forall sendable requests ->
  Z.of_nat (length requests) < 2 ^ 31 ->
  match requests with
  | [] => ThreadChannel_Recv c = None
  | x :: rest =>
      exists c',
        ThreadChannel_Recv c = Some (Done (Z.of_nat (length x), x) c')
        /\ channel_holds rest replies c'
        /\ worker_to_controler_ c' = worker_to_controler_ c
  end.
Proof.
  intros [Hreq Hrep] Hs Hroom.
  unfold ThreadChannel_Recv, await_queue.
  destruct requests as [| x rest].
  - now rewrite (Recv_blocks _ Hreq).
  - destruct (Recv_dequeues x rest _ Hreq) as (q & Hrecv & Hq & _).
    + now inversion Hs.
    + exact Hroom.
    + rewrite Hrecv. eexists. split; [reflexivity |].
      split; [split; assumption | reflexivity].
Qed.

Lemma ThreadChannel_RecvReply_holds (requests replies : list (list TVMFFIAny))
    (c : DiscoThreadChannel) :
  channel_holds requests replies c ->
  Forall sendable replies ->
  Z.of_nat (length replies) < 2 ^ 31 ->
  match replies with
  | [] => ThreadChannel_RecvReply c = None
  | x :: rest =>
      exists c',
        ThreadChannel_RecvReply c = Some (Done (Z.of_nat (length x), x) c')
        /\ channel_holds requests rest c'
        /\ controler_to_worker_ c' = controler_to_worker_ c
  end.
Proof.
  intros [Hreq Hrep] Hs Hroom.
  unfold ThreadChannel_RecvReply, await_queue.
  destruct replies as [| x rest].
  - now rewrite (Recv_blocks _ Hrep).
  - destruct (Recv_dequeues x rest _ Hrep) as (q & Hrecv & Hq & _).
    + now inversion Hs.
    + exact Hroom.
    + rewrite Hrecv. eexists. split; [reflexivity |].
      split; [split; assumption | reflexivity].
Qed.
End ThreadChannelFacts.

(** X15. The two directions of a worker's channel are two queues that do
    not mix.  [Send] appends to the requests and [Reply] to the replies,
    each leaving the other queue as it is; [Recv] takes the oldest request
    and [RecvReply] the oldest reply; [RecvReply] blocks while no reply is
    queued, whatever requests are pending, and [Recv] likewise. *)
Theorem thread_channel_directions_are_separate
    `{TypeIndex} `{Protocol DiscoThreadedMessageQueue.t}
    (requests replies : list (list TVMFFIAny)) (a : list TVMFFIAny)
    (c : DiscoThreadChannel) :
  channel_holds requests replies c ->
  sendable a ->
  Forall sendable requests ->
  Forall sendable replies ->
  Z.of_nat (length requests) + 1 < 2 ^ 31 ->
  Z.of_nat (length replies) + 1 < 2 ^ 31 ->
  (exists c',
     ThreadChannel_Send a c = Done tt c'
     /\ channel_holds (requests ++ [a]) replies c'
     /\ worker_to_controler_ c' = worker_to_controler_ c)
  /\ (exists c',
        ThreadChannel_Reply a c = Done tt c'
        /\ channel_holds requests (replies ++ [a]) c'
        /\ controler_to_worker_ c' = controler_to_worker_ c)
  /\ match requests with
     | [] => ThreadChannel_Recv c = None
     | x :: rest =>
         exists c',
           ThreadChannel_Recv c = Some (Done (Z.of_nat (length x), x) c')
           /\ channel_holds rest replies c'
           /\ worker_to_controler_ c' = worker_to_controler_ c
     end
  /\ match replies with
     | [] => ThreadChannel_RecvReply c = None
     | x :: rest =>
         exists c',
           ThreadChannel_RecvReply c = Some (Done (Z.of_nat (length x), x) c')
           /\ channel_holds requests rest c'
           /\ controler_to_worker_ c' = controler_to_worker_ c
     end.
Proof.
  intros Hc Ha Hsreq Hsrep Hroom1 Hroom2.
  split; [| split; [| split]].
  - now apply ThreadChannel_Send_holds.
  - now apply ThreadChannel_Reply_holds.
  - apply ThreadChannel_Recv_holds; [assumption .. | lia].
  - apply ThreadChannel_RecvReply_holds; [assumption .. | lia].
Qed.

(** ** The calls of the threaded session *)

Lemma vector_at_None {A : Type} (v : list A) (i : Z) :
  vector_at v i = None <-> i < 0 \/ Z.of_nat (length v) <= i.
Proof.
  unfold vector_at. destruct (Z.ltb_spec i 0) as [Hneg | Hpos].
  - split; [intros _; now left | reflexivity].
  - rewrite lookup_ge_None. split; [intros Hge; right; lia |].
    intros [Hlt | Hge]; lia.
Qed.

Lemma vector_at_insert_ne {A : Type} (v : list A) (i j : Z) (x : A) :
  0 <= i -> j <> i ->
  vector_at (<[Z.to_nat i := x]> v) j = vector_at v j.
Proof.
  intros Hi Hne. unfold vector_at.
  destruct (Z.ltb_spec j 0); [reflexivity |].
  apply list_lookup_insert_ne. lia.
Qed.

(** X16. [SendPacked] of the threaded session addresses one worker.  A
    worker id below zero or not below the number of workers raises
    ([vector::at]); otherwise only the request queue of that worker
    changes: the number of workers, every other worker, and the worker
    object and reply queue of the addressed one stay as they are. *)
Theorem threaded_send_addresses_one_worker
    `{TypeIndex} `{Protocol DiscoThreadedMessageQueue.t}
    (wid : Z) (args : list TVMFFIAny) (n : ThreadedSessionObj) :
  (wid < 0 \/ GetNumWorkers n <= wid ->
   ThreadedSession_SendPacked wid args n = None)
  /\ forall n',
       ThreadedSession_SendPacked wid args n = Some n' ->
       0 <= wid < GetNumWorkers n
       /\ GetNumWorkers n' = GetNumWorkers n
       /\ (forall j, j <> wid ->
             vector_at (workers_ n') j = vector_at (workers_ n) j)
       /\ exists w w' q,
            vector_at (workers_ n) wid = Some w
            /\ vector_at (workers_ n') wid = Some w'
            /\ DiscoThreadedMessageQueue.Send args
                 (controler_to_worker_ (channel w)) = Done tt q
            /\ controler_to_worker_ (channel w') = q
            /\ worker_to_controler_ (channel w')
               = worker_to_controler_ (channel w)
            /\ worker w' = worker w.
Proof.
  unfold ThreadedSession_SendPacked, GetNumWorkers. split.
  - intros Hout. apply vector_at_None in Hout. now rewrite Hout.
  - intros n'.
    destruct (vector_at (workers_ n) wid) as [w |] eqn:Hw; [| discriminate].
    destruct (DiscoThreadedMessageQueue.Send args _) as [[] q | e q] eqn:Hsend;
      [| discriminate].
    intros [= <-].
    pose proof Hw as Hw'. apply vector_at_Some in Hw' as [Hpos Hlook].
    apply lookup_lt_Some in Hlook as Hlt.
    split; [lia |]. cbn [set_worker workers_].
    split; [now rewrite length_insert |].
    split; [intros j Hj; now apply vector_at_insert_ne |].
    exists w,
      {| channel :=
           {| controler_to_worker_ := q;
              worker_to_controler_ := worker_to_controler_ (channel w) |};
         worker := worker w |}, q.
    split; [reflexivity |].
    split; [| split; [exact Hsend | repeat split]].
    apply vector_at_Some. split; [exact Hpos |].
    now apply list_lookup_insert_eq.
Qed.

Section BroadcastFacts.
Context `{TypeIndex} `{Protocol DiscoThreadedMessageQueue.t}.

Lemma broadcast_workers_enqueues (args : list TVMFFIAny)
    (workers : list DiscoWorkerThread) (pending : list (list (list TVMFFIAny))) :
  sendable args ->
  Forall2 (fun w p =>
             holds_packets p (controler_to_worker_ (channel w))
             /\ Z.of_nat (length p) + 1 < 2 ^ 31) workers pending ->
  exists workers',
    broadcast_workers args workers = Some workers'
    /\ Forall2 (fun w' wp =>
                  holds_packets (wp.2 ++ [args])
                    (controler_to_worker_ (channel w'))
                  /\ worker_to_controler_ (channel w')
                     = worker_to_controler_ (channel wp.1)
                  /\ worker w' = worker wp.1)
         workers' (zip workers pending).
Proof.
  intros Ha. induction 1 as [| w p workers pending [Hq Hroom] _ IH];
    cbn [broadcast_workers zip zip_with].
  - exists []. split; [reflexivity | constructor].
  - destruct (Send_enqueues p args _ Hq Ha Hroom) as (q & Hsend & Hq' & _).
    unfold ThreadChannel_Send, on_queue. rewrite Hsend.
    destruct IH as (workers' & -> & Hall).
    eexists. split; [reflexivity |].
    constructor; [| exact Hall]. cbn. auto.
Qed.
End BroadcastFacts.

(** X17. [BroadcastPacked] of the threaded session puts one packet of the
    sequence behind what each worker already has pending, in the request
    queue of every worker; the number of workers, their reply queues and
    the worker objects stay as they are. *)
Theorem threaded_broadcast_reaches_every_worker
    `{TypeIndex} `{Protocol DiscoThreadedMessageQueue.t}
    (args : list TVMFFIAny) (n : ThreadedSessionObj)
    (pending : list (list (list TVMFFIAny))) :
  sendable args ->
  Forall2 (fun w p =>
             holds_packets p (controler_to_worker_ (channel w))
             /\ Z.of_nat (length p) + 1 < 2 ^ 31) (workers_ n) pending ->
  exists n',
    ThreadedSession_BroadcastPacked args n = Some n'
    /\ GetNumWorkers n' = GetNumWorkers n
    /\ forall (i : nat) w p,
         workers_ n !! i = Some w ->
         pending !! i = Some p ->
         exists w',
           workers_ n' !! i = Some w'
           /\ holds_packets (p ++ [args]) (controler_to_worker_ (channel w'))
           /\ worker_to_controler_ (channel w')
              = worker_to_controler_ (channel w)
           /\ worker w' = worker w.
Proof.
  intros Ha Hall.
  destruct (broadcast_workers_enqueues args _ _ Ha Hall) as (workers' & Hb & Hres).
  unfold ThreadedSession_BroadcastPacked. rewrite Hb.
  eexists. split; [reflexivity |].
  pose proof (Forall2_length _ _ _ Hres) as Hlen1.
  pose proof (Forall2_length _ _ _ Hall) as Hlen2.
  rewrite length_zip_with in Hlen1.
  split.
  - unfold GetNumWorkers. cbn [workers_]. lia.
  - intros i w p Hw Hp. cbn [workers_].
    assert (Hzip : zip (workers_ n) pending !! i = Some (w, p)).
    { rewrite lookup_zip_with, Hw. cbn. now rewrite Hp. }
    destruct (Forall2_lookup_r _ _ _ _ _ Hres Hzip) as (w' & Hw' & Hprop).
    exists w'. split; [exact Hw' | exact Hprop].
Qed.

Lemma ThreadedSessionObj_new_at (n_workers n_groups wid : Z) :
  0 <= wid < n_workers ->
  vector_at (workers_ (ThreadedSessionObj_new n_workers n_groups)) wid
  = Some (DiscoWorkerThread_new wid n_workers n_groups).
Proof.
  intros Hwid. apply vector_at_Some. split; [lia |].
  unfold ThreadedSessionObj_new. cbn [workers_].
  rewrite list_lookup_fmap.
  rewrite (proj2 (lookup_seqZ 0 n_workers (Z.to_nat wid) wid)) by lia.
  reflexivity.
Qed.

Lemma channel_holds_new `{TypeIndex} (wid n_workers n_groups : Z) :
  channel_holds [] [] (channel (DiscoWorkerThread_new wid n_workers n_groups)).
Proof. split; apply holds_packets_empty. Qed.

Lemma vector_at_set_worker_ne (i j : Z) (w : DiscoWorkerThread)
    (n : ThreadedSessionObj) :
  0 <= i -> j <> i ->
  vector_at (workers_ (set_worker i w n)) j = vector_at (workers_ n) j.
Proof. intros Hi Hne. now apply vector_at_insert_ne. Qed.

(** X18. A request and its reply through a threaded session just
    constructed.  What [SendPacked] sends to a worker is what the thread
    of that worker receives on its end of the channel, and what it then
    replies is what [RecvReplyPacked] returns for that worker.  The other
    workers have nothing to receive, and [RecvReplyPacked] blocks both
    before the worker has replied and after the reply has been taken. *)
Theorem threaded_session_request_and_reply
    `{TypeIndex} `{Protocol DiscoThreadedMessageQueue.t}
    (n_workers n_groups wid : Z) (args reply : list TVMFFIAny) :
  0 <= wid < n_workers ->
  sendable args ->
  sendable reply ->
  let n0 := ThreadedSessionObj_new n_workers n_groups in
  exists n1 n2 n3 n4,
    ThreadedSession_SendPacked wid args n0 = Some n1
    /\ worker_Recv wid n1 = Ok (args, n2)
    /\ worker_Reply wid reply n2 = Ok n3
    /\ ThreadedSession_RecvReplyPacked wid n3 = Ok (reply, n4)
    /\ (forall j, 0 <= j < n_workers -> j <> wid -> worker_Recv j n1 = Blocked)
    /\ ThreadedSession_RecvReplyPacked wid n1 = Blocked
    /\ ThreadedSession_RecvReplyPacked wid n4 = Blocked.
Proof.
  intros Hwid Hargs Hreply n0.
  pose proof (ThreadedSessionObj_new_at n_workers n_groups wid Hwid) as Hw0.
  fold n0 in Hw0.
  set (w0 := DiscoWorkerThread_new wid n_workers n_groups) in *.
  pose proof (channel_holds_new wid n_workers n_groups) as Hc0. fold w0 in Hc0.
  (* the request is sent *)
  destruct (ThreadChannel_Send_holds [] [] args _ Hc0 Hargs)
    as (c1 & Hsend & Hc1 & Hkeep1); [cbn; lia |].
  assert (Hsend' : DiscoThreadedMessageQueue.Send args
                     (controler_to_worker_ (channel w0))
                   = Done tt (controler_to_worker_ c1)
                   /\ c1 = set_controler_to_worker (controler_to_worker_ c1)
                             (channel w0)).
  { unfold ThreadChannel_Send, on_queue in Hsend.
    destruct (DiscoThreadedMessageQueue.Send args _) as [[] q | e q];
      [| discriminate].
    injection Hsend as <-. split; reflexivity. }
  destruct Hsend' as [Hq1 Hc1eq].
  set (w1 := set_channel c1 w0).
  set (n1 := set_worker wid w1 n0).
  assert (Hn1 : ThreadedSession_SendPacked wid args n0 = Some n1).
  { unfold ThreadedSession_SendPacked. rewrite Hw0, Hq1.
    unfold n1, w1, set_channel. rewrite Hc1eq at 2. reflexivity. }
  assert (Hw1 : vector_at (workers_ n1) wid = Some w1)
    by (apply (vector_at_set_worker wid w0 w1 n0 Hw0)).
  (* the worker receives it *)
  cbn [app] in Hc1.
  pose proof (ThreadChannel_Recv_holds [args] [] c1 Hc1) as Hrecv.
  destruct Hrecv as (c2 & Hrecv & Hc2 & Hkeep2);
    [now constructor | cbn; lia |].
  set (w2 := set_channel c2 w1).
  set (n2 := set_worker wid w2 n1).
  assert (Hw2 : vector_at (workers_ n2) wid = Some w2)
    by (apply (vector_at_set_worker wid w1 w2 n1 Hw1)).
  (* the worker replies *)
  destruct (ThreadChannel_Reply_holds [] [] reply _ Hc2 Hreply)
    as (c3 & Hrep & Hc3 & Hkeep3); [cbn; lia |].
  set (w3 := set_channel c3 w2).
  set (n3 := set_worker wid w3 n2).
  assert (Hw3 : vector_at (workers_ n3) wid = Some w3)
    by (apply (vector_at_set_worker wid w2 w3 n2 Hw2)).
  (* the controller takes the reply *)
  cbn [app] in Hc3.
  pose proof (ThreadChannel_RecvReply_holds [] [reply] c3 Hc3) as Hrr.
  destruct Hrr as (c4 & Hrr & Hc4 & Hkeep4);
    [now constructor | cbn; lia |].
  set (w4 := set_channel c4 w3).
  set (n4 := set_worker wid w4 n3).
  assert (Hw4 : vector_at (workers_ n4) wid = Some w4)
    by (apply (vector_at_set_worker wid w3 w4 n3 Hw3)).
  exists n1, n2, n3, n4.
  split; [exact Hn1 |].
  split; [unfold worker_Recv; rewrite Hw1; cbn [w1 set_channel channel];
          now rewrite Hrecv |].
  split; [unfold worker_Reply; rewrite Hw2; cbn [w2 set_channel channel];
          now rewrite Hrep |].
  split; [unfold ThreadedSession_RecvReplyPacked; rewrite Hw3;
          cbn [w3 set_channel channel]; now rewrite Hrr |].
  split; [| split].
  - intros j Hj Hne. unfold worker_Recv.
    unfold n1. rewrite vector_at_set_worker_ne by lia. unfold n0.
    rewrite (ThreadedSessionObj_new_at n_workers n_groups j Hj).
    assert (Hblock : ThreadChannel_Recv
                       (channel (DiscoWorkerThread_new j n_workers n_groups))
                     = None).
    { apply (ThreadChannel_Recv_holds [] [] _
               (channel_holds_new j n_workers n_groups));
        [constructor | cbn; lia]. }
    now rewrite Hblock.
  - unfold ThreadedSession_RecvReplyPacked. rewrite Hw1.
    cbn [w1 set_channel channel].
    assert (Hblock : ThreadChannel_RecvReply c1 = None).
    { apply (ThreadChannel_RecvReply_holds [args] [] c1 Hc1);
        [constructor | cbn; lia]. }
    now rewrite Hblock.
  - unfold ThreadedSession_RecvReplyPacked. rewrite Hw4.
    cbn [w4 set_channel channel].
    assert (Hblock : ThreadChannel_RecvReply c4 = None).
    { apply (ThreadChannel_RecvReply_holds [] [] c4 Hc4);
        [constructor | cbn; lia]. }
    now rewrite Hblock.
Qed.

(** ** Targeted and broadcast commands of one session *)

Section SessionRequests.
Context `{TypeIndex} `{Protocol DiscoThreadedMessageQueue.t}.

Lemma session_requests_new (n_workers n_groups : Z) :
  session_requests (replicate (Z.to_nat n_workers) [])
    (ThreadedSessionObj_new n_workers n_groups).
Proof.
  unfold session_requests, ThreadedSessionObj_new. cbn [workers_].
  apply Forall2_same_length_lookup. split.
  - now rewrite length_map, length_seqZ, length_replicate.
  - intros i w p Hw Hp. apply lookup_replicate in Hp as [-> _].
    rewrite list_lookup_fmap in Hw.
    destruct (seqZ 0 n_workers !! i); [| discriminate].
    injection Hw as <-. split; [apply holds_packets_empty |].
    split; [cbn; lia | constructor].
Qed.

Lemma session_requests_lookup (pending : list (list (list TVMFFIAny)))
    (n : ThreadedSessionObj) (wid : Z) (p : list (list TVMFFIAny)) :
  session_requests pending n ->
  0 <= wid -> pending !! Z.to_nat wid = Some p ->
  exists w,
    vector_at (workers_ n) wid = Some w
    /\ holds_packets p (controler_to_worker_ (channel w))
    /\ Z.of_nat (length p) < 2 ^ 31
    /\ Forall sendable p.
Proof.
  intros Hall Hwid Hp.
  destruct (Forall2_lookup_r _ _ _ _ _ Hall Hp) as (w & Hw & Hprop).
  exists w. split; [| exact Hprop]. apply vector_at_Some. auto.
Qed.

Lemma SendPacked_requests (pending : list (list (list TVMFFIAny)))
    (n : ThreadedSessionObj) (wid : Z) (p : list (list TVMFFIAny))
    (args : list TVMFFIAny) :
  session_requests pending n ->
  0 <= wid -> pending !! Z.to_nat wid = Some p ->
  sendable args ->
  Z.of_nat (length p) + 1 < 2 ^ 31 ->
  exists n',
    ThreadedSession_SendPacked wid args n = Some n'
    /\ session_requests (<[Z.to_nat wid := p ++ [args]]> pending) n'.
Proof.
  intros Hall Hwid Hp Ha Hroom.
  destruct (session_requests_lookup _ _ _ _ Hall Hwid Hp)
    as (w & Hw & Hq & _ & Hs).
  destruct (Send_enqueues p args _ Hq Ha Hroom) as (q & Hsend & Hq' & _).
  unfold ThreadedSession_SendPacked. rewrite Hw, Hsend.
  eexists. split; [reflexivity |].
  unfold session_requests, set_worker. cbn [workers_].
  apply Forall2_insert; [exact Hall |]. cbn [channel controler_to_worker_].
  split; [exact Hq' |]. split.
  - rewrite length_app. cbn [length]. lia.
  - apply Forall_app. split; [exact Hs | now constructor].
Qed.

Lemma BroadcastPacked_requests (pending : list (list (list TVMFFIAny)))
    (n : ThreadedSessionObj) (args : list TVMFFIAny) :
  session_requests pending n ->
  sendable args ->
  Forall (fun p => Z.of_nat (length p) + 1 < 2 ^ 31) pending ->
  exists n',
    ThreadedSession_BroadcastPacked args n = Some n'
    /\ session_requests (map (fun p => p ++ [args]) pending) n'.
Proof.
  intros Hall Ha Hroom. unfold ThreadedSession_BroadcastPacked, session_requests.
  destruct n as [workers]. cbn [workers_] in *.
  unfold session_requests in Hall. cbn [workers_] in Hall.
  induction Hall as [| w p workers pending (Hq & _ & Hs) _ IH];
    cbn [broadcast_workers map].
  - eexists. split; [reflexivity | constructor].
  - apply Forall_cons in Hroom as [Hp Hroom].
    destruct (Send_enqueues p args _ Hq Ha Hp) as (q & Hsend & Hq' & _).
    unfold ThreadChannel_Send, on_queue. rewrite Hsend.
    destruct (IH Hroom) as (n' & Hb & Hall').
    destruct (broadcast_workers args workers) as [workers' |]; [| discriminate].
    injection Hb as <-. cbn [workers_] in Hall'.
    eexists. split; [reflexivity |]. cbn [workers_].
    constructor; [| exact Hall'].
    cbn [set_channel channel set_controler_to_worker controler_to_worker_].
    split; [exact Hq' |]. split.
    + rewrite length_app. cbn [length]. lia.
    + apply Forall_app. split; [exact Hs | now constructor].
Qed.

Lemma worker_Recv_requests (pending : list (list (list TVMFFIAny)))
    (n : ThreadedSessionObj) (wid : Z) (p : list (list TVMFFIAny)) :
  session_requests pending n ->
  0 <= wid -> pending !! Z.to_nat wid = Some p ->
  match p with
  | [] => worker_Recv wid n = Blocked
  | x :: rest =>
      exists n',
        worker_Recv wid n = Ok (x, n')
        /\ session_requests (<[Z.to_nat wid := rest]> pending) n'
  end.
Proof.
  intros Hall Hwid Hp.
  destruct (session_requests_lookup _ _ _ _ Hall Hwid Hp)
    as (w & Hw & Hq & Hlen & Hs).
  unfold worker_Recv, ThreadChannel_Recv, await_queue. rewrite Hw.
  destruct p as [| x rest].
  - now rewrite (Recv_blocks _ Hq).
  - destruct (Recv_dequeues x rest _ Hq) as (q & Hrecv & Hq' & _);
      [now inversion Hs | exact Hlen |].
    rewrite Hrecv. eexists. split; [reflexivity |].
    unfold session_requests, set_worker. cbn [workers_].
    apply Forall2_insert; [exact Hall |].
    cbn [set_channel channel set_controler_to_worker controler_to_worker_].
    split; [exact Hq' |]. split.
    + cbn [length] in Hlen. lia.
    + now inversion Hs.
Qed.
End SessionRequests.

(** X19. Targeted and broadcast commands reach a worker in the order the
    controller issued them.  On a session just constructed, after
    [SendPacked(w, a)], [BroadcastPacked(b)] and [SendPacked(w, c)], worker
    [w] receives [a], then [b], then [c], and then has nothing to receive;
    every other worker receives [b] and then has nothing to receive. *)
Theorem commands_reach_a_worker_in_order
    `{TypeIndex} `{Protocol DiscoThreadedMessageQueue.t}
    (n_workers n_groups wid : Z) (a b c : list TVMFFIAny) :
  0 <= wid < n_workers ->
  sendable a -> sendable b -> sendable c ->
  exists n1 n2 n3,
    ThreadedSession_SendPacked wid a (ThreadedSessionObj_new n_workers n_groups)
    = Some n1
    /\ ThreadedSession_BroadcastPacked b n1 = Some n2
    /\ ThreadedSession_SendPacked wid c n2 = Some n3
    /\ (exists m1 m2 m3,
          worker_Recv wid n3 = Ok (a, m1)
          /\ worker_Recv wid m1 = Ok (b, m2)
          /\ worker_Recv wid m2 = Ok (c, m3)
          /\ worker_Recv wid m3 = Blocked)
    /\ (forall j,
          0 <= j < n_workers -> j <> wid ->
          exists m1,
            worker_Recv j n3 = Ok (b, m1) /\ worker_Recv j m1 = Blocked).
Proof.
  intros Hwid Ha Hb Hc.
  set (P0 := replicate (Z.to_nat n_workers) ([] : list (list TVMFFIAny))).
  pose proof (session_requests_new n_workers n_groups) as H0'. fold P0 in H0'.
  assert (Hlook0 : forall j, 0 <= j < n_workers -> P0 !! Z.to_nat j = Some [])
    by (intros j Hj; apply lookup_replicate; split; [reflexivity | lia]).
  destruct (SendPacked_requests P0 _ wid [] a H0' ltac:(lia) (Hlook0 wid Hwid) Ha)
    as (n1 & Hn1 & H1'); [cbn; lia |].
  cbn [app] in H1'. set (P1 := <[Z.to_nat wid := [a]]> P0) in *.
  destruct (BroadcastPacked_requests P1 n1 b H1' Hb) as (n2 & Hn2 & H2').
  { unfold P1. apply Forall_insert; [| cbn; lia].
    unfold P0. apply Forall_replicate. cbn. lia. }
  set (P2 := map (fun p => p ++ [b]) P1) in *.
  assert (Hlook2 : P2 !! Z.to_nat wid = Some [a; b]).
  { unfold P2, P1. rewrite list_lookup_fmap, list_lookup_insert_eq.
    - reflexivity.
    - unfold P0. rewrite length_replicate. lia. }
  assert (Hlook2' : forall j, 0 <= j < n_workers -> j <> wid ->
                      P2 !! Z.to_nat j = Some [b]).
  { intros j Hj Hne. unfold P2, P1.
    rewrite list_lookup_fmap, list_lookup_insert_ne by lia.
    now rewrite (Hlook0 j Hj). }
  destruct (SendPacked_requests P2 n2 wid [a; b] c H2' ltac:(lia) Hlook2 Hc)
    as (n3 & Hn3 & H3'); [cbn; lia |].
  cbn [app] in H3'. set (P3 := <[Z.to_nat wid := [a; b; c]]> P2) in *.
  assert (Hlen2 : length P2 = Z.to_nat n_workers)
    by (unfold P2, P1, P0;
        now rewrite length_map, length_insert, length_replicate).
  exists n1, n2, n3.
  split; [exact Hn1 |]. split; [exact Hn2 |]. split; [exact Hn3 |]. split.
  - pose proof (worker_Recv_requests P3 n3 wid [a; b; c] H3' ltac:(lia)) as R1.
    destruct R1 as (m1 & Hr1 & Hm1);
      [unfold P3; apply list_lookup_insert_eq; lia |].
    pose proof (worker_Recv_requests _ m1 wid [b; c] Hm1 ltac:(lia)) as R2.
    destruct R2 as (m2 & Hr2 & Hm2);
      [apply list_lookup_insert_eq; unfold P3; rewrite length_insert; lia |].
    pose proof (worker_Recv_requests _ m2 wid [c] Hm2 ltac:(lia)) as R3.
    destruct R3 as (m3 & Hr3 & Hm3);
      [apply list_lookup_insert_eq; unfold P3; rewrite !length_insert; lia |].
    pose proof (worker_Recv_requests _ m3 wid [] Hm3 ltac:(lia)) as R4.
    exists m1, m2, m3. split; [exact Hr1 |]. split; [exact Hr2 |].
    split; [exact Hr3 |]. apply R4.
    apply list_lookup_insert_eq. unfold P3. rewrite !length_insert. lia.
  - intros j Hj Hne.
    pose proof (worker_Recv_requests P3 n3 j [b] H3' ltac:(lia)) as R1.
    destruct R1 as (m1 & Hr1 & Hm1).
    { unfold P3. rewrite list_lookup_insert_ne by lia. now apply Hlook2'. }
    pose proof (worker_Recv_requests _ m1 j [] Hm1 ltac:(lia)) as R2.
    exists m1. split; [exact Hr1 |]. apply R2.
    apply list_lookup_insert_eq. unfold P3. rewrite length_insert. lia.
Qed.

(** ** Worker ids across the nodes of a socket session *)

Lemma quot_small (a b : Z) : 0 < b -> - b < a < b -> Z.quot a b = 0.
Proof.
  intros Hb Ha. destruct (Z.le_gt_cases 0 a) as [Hpos | Hneg].
  - apply Z.quot_small. lia.
  - rewrite <- (Z.opp_involutive a), Z.quot_opp_l by lia.
    rewrite Z.quot_small by lia. reflexivity.
Qed.

Lemma quot_node (j k wpn : Z) :
  0 < wpn -> 0 <= j < wpn -> 0 <= k -> Z.quot (j + k * wpn) wpn = k.
Proof.
  intros Hw Hj Hk. rewrite Z.quot_div_nonneg by nia.
  rewrite Z.div_add by lia. rewrite Z.div_small by lia. lia.
Qed.

(** X20. The worker ids that [socket_session_init_workers] assigns agree
    with the routing.  A worker with local id [j] on node [k] becomes
    worker [j + k * workers_per_node] of [num_nodes * workers_per_node]
    (a product that fits an [int]);
    the controller computes node [k] for that id, the relay of node [k]
    computes the local id [j] again, and two workers get the same id only
    if they are the same worker of the same node. *)
Theorem global_worker_ids_match_routing
    `{DiscoAction} {L : Type} `{BcastSession L}
    (num_nodes node_id n_groups wpn : Z) (worker : DiscoWorker)
    (s : SocketSessionObj.t L) (r : RemoteSocketSession.t L)
    (payload : list TVMFFIAny) :
  0 < wpn ->
  0 <= node_id < num_nodes ->
  num_nodes * wpn < 2 ^ 31 ->
  0 <= worker_id worker < wpn ->
  SocketSessionObj.num_nodes_ s = num_nodes ->
  SocketSessionObj.num_workers_per_node_ s = wpn ->
  RemoteSocketSession.node_id_ r = node_id ->
  RemoteSocketSession.num_workers_per_node_ r = wpn ->
  let init := socket_session_init_workers num_nodes in
  let worker' := init node_id n_groups wpn worker in
  worker_id worker' = worker_id worker + node_id * wpn
  /\ 0 <= worker_id worker' < Socket_GetNumWorkers s
  /\ num_workers worker' = Socket_GetNumWorkers s
  /\ num_groups worker' = n_groups
  /\ node_of (worker_id worker') s = Ok node_id
  /\ MainLoop_body
       (AInt DiscoSocketAction.kSend :: AInt (worker_id worker') :: payload) r
     = match SendPacked (worker_id worker) payload
               (RemoteSocketSession.local_session_ r) with
       | Ok l => Continue (with_local l r) None
       | _ => Halt
       end
  /\ MainLoop_body
       [AInt DiscoSocketAction.kReceive; AInt (worker_id worker')] r
     = match RecvReplyPacked (worker_id worker)
               (RemoteSocketSession.local_session_ r) with
       | Ok (reply, l) => Continue (with_local l r) (Some reply)
       | _ => Halt
       end
  /\ forall node_id2 worker2,
       0 <= node_id2 -> 0 <= worker_id worker2 < wpn ->
       worker_id (init node_id2 n_groups wpn worker2) = worker_id worker' ->
       node_id2 = node_id /\ worker_id worker2 = worker_id worker.
Proof.
  intros Hwpn Hnode _ Hlocal Hsn Hsw Hrn Hrw init worker'.
  subst init worker'. unfold socket_session_init_workers, Socket_GetNumWorkers.
  cbn [worker_id num_workers num_groups]. rewrite Hsn, Hsw.
  assert (Hq : Z.quot (worker_id worker + node_id * wpn) wpn = node_id)
    by (apply quot_node; lia).
  split; [reflexivity |]. split; [nia |]. split; [reflexivity |].
  split; [reflexivity |]. split; [| split; [| split]].
  - unfold node_of. rewrite Hsw.
    destruct (Z.eqb_spec wpn 0); [lia |]. now rewrite Hq.
  - unfold MainLoop_body. rewrite Z.eqb_refl, Hrn, Hrw.
    destruct (Z.eqb_spec (worker_id worker + node_id * wpn) (-1)); [nia |].
    replace (worker_id worker + node_id * wpn - node_id * wpn)
      with (worker_id worker) by lia.
    reflexivity.
  - unfold MainLoop_body, DiscoSocketAction.kSend, DiscoSocketAction.kReceive.
    destruct (Z.eqb_spec (kShutDown + 2) (kShutDown + 1)); [lia |].
    rewrite Z.eqb_refl, Hrn, Hrw.
    replace (worker_id worker + node_id * wpn - node_id * wpn)
      with (worker_id worker) by lia.
    reflexivity.
  - intros node_id2 worker2 Hn2 Hl2 Heq.
    assert (Hq2 : Z.quot (worker_id worker2 + node_id2 * wpn) wpn = node_id2)
      by (apply quot_node; lia).
    rewrite Heq, Hq in Hq2. subst node_id2. split; [reflexivity | lia].
Qed.

(** X21. The division that picks the node truncates towards zero, so every
    worker id between [-workers_per_node] and [workers_per_node], the
    negative ones included, is served by the local session of the
    controller with the id unchanged; no connection is touched. *)
Theorem small_worker_ids_stay_local
    `{DiscoAction} {L : Type} `{BcastSession L}
    (wid : Z) (args : list TVMFFIAny) (s : SocketSessionObj.t L) (w : World L) :
  let wpn := SocketSessionObj.num_workers_per_node_ s in
  0 < wpn ->
  - wpn < wid < wpn ->
  node_of wid s = Ok 0
  /\ Socket_SendPacked wid args (s, w)
     = match SendPacked wid args (SocketSessionObj.local_session_ s) with
       | Ok l => Ok (ctl_with_local l s, w)
       | Fatal => Fatal
       | Blocked => Blocked
       end
  /\ Socket_RecvReplyPacked wid (s, w)
     = match RecvReplyPacked wid (SocketSessionObj.local_session_ s) with
       | Ok (reply, l) => Ok (reply, (ctl_with_local l s, w))
       | Fatal => Fatal
       | Blocked => Blocked
       end.
Proof.
  intros wpn Hwpn Hwid.
  assert (Hnode : node_of wid s = Ok 0).
  { unfold node_of. fold wpn. destruct (Z.eqb_spec wpn 0); [lia |].
    now rewrite quot_small. }
  split; [exact Hnode |]. split.
  - unfold Socket_SendPacked. now rewrite Hnode.
  - unfold Socket_RecvReplyPacked. now rewrite Hnode.
Qed.

Section RoutingFacts.
Context `{DiscoAction} {L : Type} `{BcastSession L}.

Lemma vector_index_map_controller (fds : list Z) (j : nat) (fd : Z) :
  fds !! j = Some fd ->
  vector_index (map controller_channel fds) (Z.of_nat j)
  = Ok (controller_channel fd).
Proof.
  intros Hj. unfold vector_index, vector_at.
  destruct (Z.ltb_spec (Z.of_nat j) 0); [lia |].
  rewrite Nat2Z.id, list_lookup_fmap, Hj. reflexivity.
Qed.

Lemma accept_nodes_fields (count : nat) (i n_groups : Z)
    (s s' : SocketSessionObj.t L) (w w' : World L) :
  accept_nodes count i n_groups s w = Ok (s', w') ->
  SocketSessionObj.num_nodes_ s' = SocketSessionObj.num_nodes_ s
  /\ SocketSessionObj.num_workers_per_node_ s'
     = SocketSessionObj.num_workers_per_node_ s
  /\ SocketSessionObj.socket_ s' = SocketSessionObj.socket_ s
  /\ SocketSessionObj.local_session_ s' = SocketSessionObj.local_session_ s.
Proof.
  revert i s w. induction count as [| count IH]; intros i s w;
    cbn [accept_nodes].
  - intros [= <- <-]. auto.
  - destruct (Accept w) as [[sock w1] | |]; try discriminate.
    destruct (channel_Send _ _ w1) as [w2 | |]; try discriminate.
    intros Hrec. apply IH in Hrec. exact Hrec.
Qed.
End RoutingFacts.

(** X22. After the constructor of the controller, a command for a worker
    of a remote node travels on the connection whose handshake carried the
    id of that node: for a worker id from [workers_per_node] up to the
    number of workers, [SendPacked] appends the command, prefixed by the
    send action and the worker id, to the connection accepted as number
    [worker_id / workers_per_node], behind the metadata that names this
    very node id. *)
Theorem commands_follow_the_handshake
    `{DiscoAction} {L : Type} `{BcastSession L}
    (num_nodes wpn n_groups wid : Z) (args : list TVMFFIAny)
    (listening : TCPSocket.t) (w0 : World L) :
  Z.of_nat (length (backlog w0)) = num_nodes - 1 ->
  NoDup (backlog w0) ->
  (forall fd, fd ∈ backlog w0 -> links w0 !! fd = Some idle) ->
  0 < wpn ->
  num_nodes * wpn < 2 ^ 31 ->
  wpn <= wid < num_nodes * wpn ->
  let node_id := Z.quot wid wpn in
  exists s w w' fd,
    SocketSessionObj_new num_nodes wpn n_groups listening w0 = Ok (s, w)
    /\ Socket_GetNumWorkers s = num_nodes * wpn
    /\ 1 <= node_id < num_nodes
    /\ backlog w0 !! Z.to_nat (node_id - 1) = Some fd
    /\ Socket_SendPacked wid args (s, w) = Ok (s, w')
    /\ links w' !! fd
       = Some {| to_relay :=
                   [metadata num_nodes wpn n_groups node_id;
                    AInt DiscoSocketAction.kSend :: AInt wid :: args];
                 to_controller := [] |}.
Proof.
  intros Hcount Hnd Hidle Hwpn _ Hwid node_id.
  unfold SocketSessionObj_new.
  replace (Z.to_nat (num_nodes - 1)) with (length (backlog w0)) by lia.
  match goal with
  | |- context [accept_nodes _ 0 n_groups ?s0 w0] =>
      destruct (accept_nodes_handshakes (backlog w0) [] 0 n_groups s0 w0)
        as (s & w & Hnew & Hch & _ & _ & _ & _ & Hl);
        [now rewrite app_nil_r | exact Hnd | exact Hidle |]
  end.
  pose proof (accept_nodes_fields _ _ _ _ _ _ _ Hnew) as (Hsn & Hsw & _).
  cbn [SocketSessionObj.num_nodes_ SocketSessionObj.num_workers_per_node_]
    in Hsn, Hsw.
  cbn [SocketSessionObj.num_nodes_ SocketSessionObj.num_workers_per_node_
       SocketSessionObj.remote_channels_ app] in Hch, Hl.
  destruct (quot_node_range wid wpn Hwpn ltac:(lia)) as [Hnode1 Hlocal].
  fold node_id in Hnode1, Hlocal.
  assert (Hnode2 : node_id < num_nodes) by nia.
  assert (Hj : (Z.to_nat (node_id - 1) < length (backlog w0))%nat) by lia.
  apply lookup_lt_is_Some in Hj as [fd Hfd].
  specialize (Hl _ _ Hfd).
  replace (0 + Z.of_nat (Z.to_nat (node_id - 1)) + 1) with node_id in Hl by lia.
  exists s, w.
  eexists. exists fd.
  split; [exact Hnew |].
  split; [unfold Socket_GetNumWorkers; now rewrite Hsn, Hsw |].
  split; [lia |]. split; [exact Hfd |].
  assert (Hsend : Socket_SendPacked wid args (s, w)
                  = Ok (s, set_links
                             (insert fd
                                {| to_relay :=
                                     [metadata num_nodes wpn n_groups node_id;
                                      AInt DiscoSocketAction.kSend
                                      :: AInt wid :: args];
                                   to_controller := [] |}) w)).
  { unfold Socket_SendPacked, node_of. rewrite Hsw.
    destruct (Z.eqb_spec wpn 0); [lia |]. fold node_id.
    destruct (Z.eqb_spec node_id 0); [lia |].
    rewrite Hch.
    replace (node_id - 1) with (Z.of_nat (Z.to_nat (node_id - 1))) by lia.
    rewrite (vector_index_map_controller _ _ _ Hfd).
    unfold channel_Send, channel_write.
    cbn [controller_channel channel_socket_ TCPSocket.sockfd channel_end].
    rewrite Hl. reflexivity. }
  split; [exact Hsend |].
  cbn [links set_links]. now rewrite lookup_insert_eq.
Qed.

(** ** The two constructors of the socket session *)

Section ConstructorFacts.
Context `{DiscoAction} {L : Type} `{BcastSession L}.

Lemma accept_nodes_blocks (fds : list Z) (count : nat) (i n_groups : Z)
    (s : SocketSessionObj.t L) (w : World L) :
  backlog w = fds ->
  (length fds < count)%nat ->
  (forall fd, fd ∈ fds -> is_Some (links w !! fd)) ->
  accept_nodes count i n_groups s w = Blocked.
Proof.
  revert count i s w.
  induction fds as [| fd fds IH]; intros count i s w Hback Hshort Hlinks;
    (destruct count as [| count]; [cbn [length] in Hshort; lia |]);
    cbn [accept_nodes]; unfold Accept; rewrite Hback.
  - reflexivity.
  - destruct (Hlinks fd) as [c Hc]; [left |].
    unfold channel_Send, channel_write.
    cbn [channel_socket_ TCPSocket.sockfd links channel_end].
    rewrite Hc. apply IH.
    + reflexivity.
    + cbn [length] in Hshort. lia.
    + intros fd' Hin. cbn [links set_links].
      rewrite lookup_insert. case_decide; [eauto |].
      apply Hlinks. now right.
Qed.
End ConstructorFacts.

(** X23. The constructor of the controller returns only when
    [num_nodes - 1] relays have connected: with fewer connections waiting
    it stays blocked in [Accept].  With one node, or none, it accepts
    nobody, sends nothing and has no remote channel. *)
Theorem constructor_waits_for_every_node
    `{DiscoAction} {L : Type} `{BcastSession L}
    (num_nodes wpn n_groups : Z) (listening : TCPSocket.t) (w0 : World L) :
  (forall fd, fd ∈ backlog w0 -> is_Some (links w0 !! fd)) ->
  (Z.of_nat (length (backlog w0)) < num_nodes - 1 ->
   SocketSessionObj_new num_nodes wpn n_groups listening w0 = Blocked)
  /\ (num_nodes <= 1 ->
      SocketSessionObj_new num_nodes wpn n_groups listening w0
      = Ok ({| SocketSessionObj.num_nodes_ := num_nodes;
               SocketSessionObj.num_workers_per_node_ := wpn;
               SocketSessionObj.socket_ := listening;
               SocketSessionObj.remote_sockets_ := [];
               SocketSessionObj.remote_channels_ := [];
               SocketSessionObj.local_session_ :=
                 InitLocalSession num_nodes 0 n_groups wpn |}, w0)).
Proof.
  intros Hlinks. unfold SocketSessionObj_new. split.
  - intros Hshort.
    apply (accept_nodes_blocks (backlog w0)); [reflexivity | lia | exact Hlinks].
  - intros Hone. replace (Z.to_nat (num_nodes - 1)) with 0%nat by lia.
    reflexivity.
Qed.

(** X24. The constructor of the relay takes the first sequence that
    arrives as the handshake and checks it.  While nothing has arrived it
    blocks; a first sequence that does not have four elements is a failed
    check; four integers within the range of [int] are taken as the number
    of nodes, the workers per node, the number of groups and the node id,
    in this order, the local session is made from them, and what arrived
    behind the handshake stays on the connection; but if they ask for more
    workers per node than the relay was started with, the constructor
    fails. *)
Theorem relay_constructor_checks_the_handshake
    `{DiscoAction} {L : Type} `{BcastSession L}
    (fd num_local_workers : Z) (inbox out : list (list TVMFFIAny))
    (w : World L) :
  links w !! fd = Some {| to_relay := inbox; to_controller := out |} ->
  let socket := {| TCPSocket.sockfd := fd |} in
  match inbox with
  | [] => RemoteSocketSession_new socket num_local_workers w = Blocked
  | first :: rest =>
      (length first <> 4%nat ->
       RemoteSocketSession_new socket num_local_workers w = Fatal)
      /\ forall num_nodes wpn n_groups node_id,
           first = [AInt num_nodes; AInt wpn; AInt n_groups; AInt node_id] ->
           int32_range num_nodes -> int32_range wpn ->
           int32_range n_groups -> int32_range node_id ->
           if wpn <=? num_local_workers then
             exists r w',
               RemoteSocketSession_new socket num_local_workers w = Ok (r, w')
               /\ RemoteSocketSession.num_nodes_ r = num_nodes
               /\ RemoteSocketSession.num_workers_per_node_ r = wpn
               /\ RemoteSocketSession.num_groups_ r = n_groups
               /\ RemoteSocketSession.node_id_ r = node_id
               /\ RemoteSocketSession.local_session_ r
                  = InitLocalSession num_nodes node_id n_groups wpn
               /\ links w' !! fd
                  = Some {| to_relay := rest; to_controller := out |}
           else RemoteSocketSession_new socket num_local_workers w = Fatal
  end.
Proof.
  intros Hlink socket.
  unfold RemoteSocketSession_new, channel_Recv, channel_read.
  cbn [channel_socket_ channel_end socket TCPSocket.sockfd].
  rewrite Hlink. cbn [to_relay to_controller].
  destruct inbox as [| first rest]; [reflexivity |]. split.
  - intros Hlen.
    destruct first as [| [] [| [] [| [] [| [] [| ? ?]]]]];
      first [reflexivity | cbn [length] in Hlen; lia].
  - intros num_nodes wpn n_groups node_id -> _ _ _ _.
    destruct (wpn <=? num_local_workers); [| reflexivity].
    eexists _, _. split; [reflexivity |].
    cbn [RemoteSocketSession.num_nodes_ RemoteSocketSession.node_id_
         RemoteSocketSession.num_workers_per_node_
         RemoteSocketSession.num_groups_ RemoteSocketSession.local_session_
         links set_links].
    rewrite lookup_insert_eq. repeat split.
Qed.

(** ** What the controller sends to all nodes *)

Section BroadcastToNodes.
Context `{DiscoAction} {L : Type} `{BcastSession L}.

Lemma send_to_all_appends (fds : list Z) (args : list TVMFFIAny) (w : World L) :
  NoDup fds ->
  (forall fd, fd ∈ fds -> is_Some (links w !! fd)) ->
  exists w',
    send_to_all (map controller_channel fds) args w = Ok w'
    /\ relays w' = relays w
    /\ backlog w' = backlog w
    /\ closed w' = closed w
    /\ finalized w' = finalized w
    /\ (forall fd, fd ∉ fds -> links w' !! fd = links w !! fd)
    /\ (forall fd c,
          fd ∈ fds -> links w !! fd = Some c ->
          links w' !! fd
          = Some {| to_relay := to_relay c ++ [args];
                    to_controller := to_controller c |}).
Proof.
  revert w. induction fds as [| fd fds IH]; intros w Hnd Hlinks.
  - exists w. cbn [map send_to_all]. repeat split; try reflexivity.
    intros fd c Hin. inversion Hin.
  - apply NoDup_cons in Hnd as [Hfresh Hnd].
    destruct (Hlinks fd) as [c Hc]; [left |].
    cbn [map send_to_all]. unfold channel_Send, channel_write.
    cbn [controller_channel channel_socket_ TCPSocket.sockfd channel_end].
    rewrite Hc.
    match goal with
    | |- context [send_to_all _ args ?w0] => set (w1 := w0)
    end.
    destruct (IH w1 Hnd) as (w' & Hsend & Hr & Hb & Hcl & Hf & Hout & Hin).
    { intros fd' Hfd'. unfold w1. cbn [links set_links].
      rewrite lookup_insert_ne by (intros ->; contradiction).
      apply Hlinks. now right. }
    exists w'. split; [exact Hsend |].
    split; [exact Hr |]. split; [exact Hb |]. split; [exact Hcl |].
    split; [exact Hf |]. split.
    + intros fd' Hnot. apply not_elem_of_cons in Hnot as [Hne Hnot].
      rewrite (Hout fd' Hnot). unfold w1. cbn [links set_links].
      now apply lookup_insert_ne.
    + intros fd' c' Hfd' Hc'. apply elem_of_cons in Hfd' as [-> | Hfd'].
      * rewrite (Hout fd Hfresh). unfold w1. cbn [links set_links].
        rewrite lookup_insert_eq. congruence.
      * apply Hin; [exact Hfd' |]. unfold w1. cbn [links set_links].
        rewrite lookup_insert_ne by (intros ->; contradiction). exact Hc'.
Qed.

Lemma run_relay_one (fd : Z) (cmd : list TVMFFIAny) (out : list (list TVMFFIAny))
    (r : RemoteSocketSession.t L) (w : World L) :
  links w !! fd = Some {| to_relay := [cmd]; to_controller := out |} ->
  relays w !! fd = Some r ->
  (forall r', MainLoop_body cmd r = Continue r' None ->
     relays (run_relay fd w) !! fd = Some r'
     /\ links (run_relay fd w) !! fd
        = Some {| to_relay := []; to_controller := out |})
  /\ (forall r', MainLoop_body cmd r = Return r' ->
        relays (run_relay fd w) !! fd = None
        /\ links (run_relay fd w) !! fd
           = Some {| to_relay := []; to_controller := out |}).
Proof.
  intros Hlink Hrelay. unfold run_relay. rewrite Hrelay, Hlink.
  cbn [to_relay to_controller MainLoop].
  split; intros r' ->; cbn [links relays set_links set_relays].
  - rewrite !lookup_insert_eq, app_nil_r. auto.
  - rewrite lookup_delete_eq, lookup_insert_eq, app_nil_r. auto.
Qed.
End BroadcastToNodes.

(** X25. [BroadcastPacked] of the socket session broadcasts on the local
    session of the controller and appends one and the same command, the
    sequence prefixed by the send action and the worker id [-1], to the
    connection of every remote node, behind what is already travelling
    there; other connections are untouched.  The relay that takes this
    command off an otherwise idle connection broadcasts the sequence,
    without the prefix, on its own local session and sends nothing back. *)
Theorem socket_broadcast_reaches_every_node
    `{DiscoAction} {L : Type} `{BcastSession L}
    (args : list TVMFFIAny) (fds : list Z) (l : L)
    (s : SocketSessionObj.t L) (w : World L) :
  SocketSessionObj.remote_channels_ s = map controller_channel fds ->
  NoDup fds ->
  (forall fd, fd ∈ fds -> is_Some (links w !! fd)) ->
  BroadcastPacked args (SocketSessionObj.local_session_ s) = Ok l ->
  let cmd := AInt DiscoSocketAction.kSend :: AInt (-1) :: args in
  exists w',
    Socket_BroadcastPacked args (s, w) = Ok (ctl_with_local l s, w')
    /\ (forall fd c,
          fd ∈ fds -> links w !! fd = Some c ->
          links w' !! fd
          = Some {| to_relay := to_relay c ++ [cmd];
                    to_controller := to_controller c |})
    /\ (forall fd, fd ∉ fds -> links w' !! fd = links w !! fd)
    /\ (forall fd r l',
          fd ∈ fds -> links w !! fd = Some idle -> relays w !! fd = Some r ->
          BroadcastPacked args (RemoteSocketSession.local_session_ r) = Ok l' ->
          relays (run_relay fd w') !! fd = Some (with_local l' r)
          /\ links (run_relay fd w') !! fd = Some idle).
Proof.
  intros Hch Hnd Hlinks Hlocal cmd.
  destruct (send_to_all_appends fds cmd w Hnd Hlinks)
    as (w' & Hsend & Hr & _ & _ & _ & Hout & Hin).
  exists w'. split; [| split; [exact Hin | split; [exact Hout |]]].
  - unfold Socket_BroadcastPacked. rewrite Hlocal, Hch. fold cmd.
    now rewrite Hsend.
  - intros fd r l' Hfd Hidle Hrelay Hbc.
    specialize (Hin fd idle Hfd Hidle). cbn [idle to_relay to_controller app] in Hin.
    rewrite <- Hr in Hrelay.
    destruct (run_relay_one fd cmd [] r w' Hin Hrelay) as [Hcont _].
    apply Hcont. unfold cmd, MainLoop_body.
    rewrite !Z.eqb_refl. now rewrite Hbc.
Qed.

(** ** The first shutdown *)

Section ShutdownFacts.
Context `{DiscoAction} {L : Type} `{BcastSession L}.

Lemma close_all_fds (fds : list Z) (w : World L) :
  Forall (fun fd => fd <> TCPSocket.INVALID_SOCKET) fds ->
  exists sockets' w',
    close_all (map (fun fd => {| TCPSocket.sockfd := fd |}) fds) w
    = Ok (sockets', w')
    /\ links w' = links w
    /\ relays w' = relays w
    /\ finalized w' = finalized w
    /\ closed w' = closed w ++ fds.
Proof.
  revert w. induction fds as [| fd fds IH]; intros w Hall.
  - exists [], w. cbn. now rewrite app_nil_r.
  - apply Forall_cons in Hall as [Hopen Hrest]. cbn [map close_all].
    unfold Close, TCPSocket.IsClosed. cbn [TCPSocket.sockfd].
    destruct (Z.eqb_spec fd TCPSocket.INVALID_SOCKET); [contradiction |].
    match goal with
    | |- context [close_all _ ?w1] =>
        destruct (IH w1 Hrest) as (sockets' & w' & -> & Hl & Hr & Hf & Hc)
    end.
    eexists _, w'. split; [reflexivity |]. cbn in *.
    rewrite Hl, Hr, Hf, Hc, <- app_assoc. auto.
Qed.
End ShutdownFacts.

(** X26. The first [Shutdown()] of a socket session with every socket
    open: each remote node is sent the shutdown action with worker id
    [-1], behind what is already travelling to it; then the remote sockets
    are closed in the order they were accepted, then the listening socket,
    each once; then [Socket::Finalize()] is called once.  The relay that
    takes the shutdown command off an otherwise idle connection shuts its
    local session down and leaves its loop. *)
Theorem socket_shutdown_notifies_then_closes
    `{DiscoAction} {L : Type} `{BcastSession L}
    (fds : list Z) (s : SocketSessionObj.t L) (w : World L) :
  SocketSessionObj.remote_channels_ s = map controller_channel fds ->
  SocketSessionObj.remote_sockets_ s
  = map (fun fd => {| TCPSocket.sockfd := fd |}) fds ->
  NoDup fds ->
  Forall (fun fd => fd <> TCPSocket.INVALID_SOCKET) fds ->
  (forall fd, fd ∈ fds -> is_Some (links w !! fd)) ->
  TCPSocket.IsClosed (SocketSessionObj.socket_ s) = false ->
  let cmd := [AInt DiscoSocketAction.kShutdown; AInt (-1)] in
  exists s1 w1,
    Socket_Shutdown (s, w) = Ok (s1, w1)
    /\ (forall fd c,
          fd ∈ fds -> links w !! fd = Some c ->
          links w1 !! fd
          = Some {| to_relay := to_relay c ++ [cmd];
                    to_controller := to_controller c |})
    /\ closed w1
       = closed w ++ fds ++ [TCPSocket.sockfd (SocketSessionObj.socket_ s)]
    /\ finalized w1 = finalized w + 1
    /\ (forall fd r l,
          fd ∈ fds -> links w !! fd = Some idle -> relays w !! fd = Some r ->
          Shutdown (RemoteSocketSession.local_session_ r) = Ok l ->
          MainLoop_body cmd r = Return (with_local l r)
          /\ relays (run_relay fd w1) !! fd = None
          /\ links (run_relay fd w1) !! fd = Some idle).
Proof.
  intros Hch Hso Hnd Hopen Hlinks Hlisten cmd.
  destruct (send_to_all_appends fds cmd w Hnd Hlinks)
    as (w2 & Hsend & Hr2 & _ & Hc2 & Hf2 & _ & Hin).
  destruct (close_all_fds fds w2 Hopen)
    as (socks & w3 & Hclose & Hl3 & Hr3 & Hf3 & Hc3).
  unfold Socket_Shutdown. rewrite Hch, Hso. fold cmd.
  rewrite Hsend, Hclose, Hlisten. cbn [negb]. unfold Close. rewrite Hlisten.
  eexists _, _. split; [reflexivity |].
  cbn [Finalize links closed finalized relays].
  assert (Hbody : forall r l,
            Shutdown (RemoteSocketSession.local_session_ r) = Ok l ->
            MainLoop_body cmd r = Return (with_local l r)).
  { intros r l Hl. unfold cmd, MainLoop_body, DiscoSocketAction.kSend,
      DiscoSocketAction.kReceive, DiscoSocketAction.kShutdown.
    destruct (Z.eqb_spec kShutDown (kShutDown + 1)); [lia |].
    destruct (Z.eqb_spec kShutDown (kShutDown + 2)); [lia |].
    now rewrite Z.eqb_refl, Hl. }
  split; [| split; [| split]].
  - intros fd c Hfd Hc. rewrite Hl3. now apply Hin.
  - rewrite Hc3, Hc2, <- app_assoc. reflexivity.
  - rewrite Hf3, Hf2. reflexivity.
  - intros fd r l Hfd Hidle Hrelay Hl.
    split; [now apply Hbody |].
    specialize (Hin fd idle Hfd Hidle).
    cbn [idle to_relay to_controller app] in Hin.
    match goal with
    | |- context [run_relay fd ?w0] => set (w1 := w0)
    end.
    assert (Hlink1 : links w1 !! fd
                     = Some {| to_relay := [cmd]; to_controller := [] |})
      by (unfold w1; cbn [links]; now rewrite Hl3).
    assert (Hrelay1 : relays w1 !! fd = Some r)
      by (unfold w1; cbn [relays]; now rewrite Hr3, Hr2).
    destruct (run_relay_one fd cmd [] r w1 Hlink1 Hrelay1) as [_ Hret].
    apply (Hret (with_local l r)). now apply Hbody.
Qed.

(** ** The loop of the relay *)

Section RelayLoop.
Context `{DiscoAction} {L : Type} `{BcastSession L}.

Lemma MainLoop_app (a b : list (list TVMFFIAny)) (r : RemoteSocketSession.t L)
    (replies : list (list TVMFFIAny)) :
  MainLoop (a ++ b) r replies
  = match MainLoop a r replies with
    | AwaitingRecv r' replies' => MainLoop b r' replies'
    | Returned r' replies' unread => Returned r' replies' (unread ++ b)
    | Halted replies' => Halted replies'
    end.
Proof.
  revert r replies. induction a as [| x a IH]; intros r replies;
    cbn [app MainLoop]; [reflexivity |].
  destruct (MainLoop_body x r) as [r' [reply |] | r' |];
    first [apply IH | reflexivity].
Qed.

Lemma MainLoop_body_invalid (action wid : Z) (payload : list TVMFFIAny)
    (r : RemoteSocketSession.t L) :
  action <> DiscoSocketAction.kShutdown ->
  action <> DiscoSocketAction.kSend ->
  action <> DiscoSocketAction.kReceive ->
  MainLoop_body (AInt action :: AInt wid :: payload) r = Halt.
Proof.
  intros Hs Hd Hr. unfold MainLoop_body.
  destruct (Z.eqb_spec action DiscoSocketAction.kSend); [contradiction |].
  destruct (Z.eqb_spec action DiscoSocketAction.kReceive); [contradiction |].
  destruct (Z.eqb_spec action DiscoSocketAction.kShutdown); [contradiction |].
  reflexivity.
Qed.

Lemma MainLoop_body_shutdown (wid : Z) (payload : list TVMFFIAny) (l : L)
    (r : RemoteSocketSession.t L) :
  Shutdown (RemoteSocketSession.local_session_ r) = Ok l ->
  MainLoop_body (AInt DiscoSocketAction.kShutdown :: AInt wid :: payload) r
  = Return (with_local l r).
Proof.
  intros Hl. unfold MainLoop_body, DiscoSocketAction.kSend,
    DiscoSocketAction.kReceive, DiscoSocketAction.kShutdown.
  destruct (Z.eqb_spec kShutDown (kShutDown + 1)); [lia |].
  destruct (Z.eqb_spec kShutDown (kShutDown + 2)); [lia |].
  now rewrite Z.eqb_refl, Hl.
Qed.

Lemma MainLoop_body_socket (args : list TVMFFIAny)
    (r r' : RemoteSocketSession.t L) (reply : option (list TVMFFIAny)) :
  MainLoop_body args r = Continue r' reply ->
  RemoteSocketSession.socket_ r' = RemoteSocketSession.socket_ r.
Proof.
  unfold MainLoop_body.
  destruct args as [| [] [| [] payload]]; try discriminate.
  destruct (_ =? DiscoSocketAction.kSend).
  - destruct (if _ =? -1 then _ else _) as [l | |]; try discriminate.
    now intros [= <- _].
  - destruct (_ =? DiscoSocketAction.kReceive).
    + destruct (RecvReplyPacked _ _) as [[reply' l] | |]; try discriminate.
      now intros [= <- _].
    + destruct (_ =? DiscoSocketAction.kShutdown); [| discriminate].
      destruct (Shutdown _); discriminate.
Qed.

Lemma MainLoop_awaiting_socket (inbox : list (list TVMFFIAny))
    (r r1 : RemoteSocketSession.t L) (acc replies : list (list TVMFFIAny)) :
  MainLoop inbox r acc = AwaitingRecv r1 replies ->
  RemoteSocketSession.socket_ r1 = RemoteSocketSession.socket_ r.
Proof.
  revert r acc. induction inbox as [| args inbox IH]; intros r acc;
    cbn [MainLoop].
  - now intros [= <- _].
  - destruct (MainLoop_body args r) as [r' [reply |] | r' |] eqn:Hbody;
      try discriminate.
    + intros Hrec. apply IH in Hrec. rewrite Hrec.
      exact (MainLoop_body_socket _ _ _ _ Hbody).
    + intros Hrec. apply IH in Hrec. rewrite Hrec.
      exact (MainLoop_body_socket _ _ _ _ Hbody).
Qed.
End RelayLoop.

(** X27. The loop of the relay ends in two ways.  After any commands it
    has handled, the shutdown action, whatever worker id and arguments come
    with it, shuts the local session down and returns, leaving what arrived
    later unread; an action that is none of shutdown, send and receive is
    fatal, and nothing behind it is executed.  In both cases the replies
    made before stay as they are.  The sequences are taken within [int]:
    leading integers in the range of [int] and a local worker id computed
    without overflow. *)
Theorem relay_loop_ends_at_shutdown_or_invalid_action
    `{DiscoAction} {L : Type} `{BcastSession L}
    (first rest : list (list TVMFFIAny)) (r r1 : RemoteSocketSession.t L)
    (replies : list (list TVMFFIAny)) :
  Forall (within_int r) first ->
  MainLoop first r [] = AwaitingRecv r1 replies ->
  (forall wid payload l,
     within_int r (AInt DiscoSocketAction.kShutdown :: AInt wid :: payload) ->
     Shutdown (RemoteSocketSession.local_session_ r1) = Ok l ->
     MainLoop
       (first ++ (AInt DiscoSocketAction.kShutdown :: AInt wid :: payload)
                 :: rest) r []
     = Returned (with_local l r1) replies rest)
  /\ (forall action wid payload,
        within_int r (AInt action :: AInt wid :: payload) ->
        action <> DiscoSocketAction.kShutdown ->
        action <> DiscoSocketAction.kSend ->
        action <> DiscoSocketAction.kReceive ->
        MainLoop (first ++ (AInt action :: AInt wid :: payload) :: rest) r []
        = Halted replies).
Proof.
  intros _ Hfirst. split.
  - intros wid payload l _ Hl. rewrite MainLoop_app, Hfirst. cbn [MainLoop].
    now rewrite (MainLoop_body_shutdown wid payload l r1 Hl).
  - intros action wid payload _ Hs Hd Hr. rewrite MainLoop_app, Hfirst.
    cbn [MainLoop]. now rewrite MainLoop_body_invalid.
Qed.

(** ** The relay process from start to end *)

(** X28. [RemoteSocketSessionEntryPoint] on a connection that holds the
    handshake, then commands, then the shutdown action, all of them with
    integers within the range of [int]: the relay takes its four fields
    from the handshake, makes its local session from them, runs the
    commands in order, sends their replies back, shuts down at the shutdown
    action leaving what is behind it unread, closes its socket once and
    calls [Socket::Finalize()] once.  If the controller asks for more
    workers per node than the relay was started with, the entry point
    fails before any command is taken. *)
Theorem relay_entry_point_runs_to_shutdown
    `{DiscoAction} {L : Type} `{BcastSession L}
    (fd num_local_workers num_nodes wpn n_groups node_id wid : Z)
    (cmds unread out replies : list (list TVMFFIAny))
    (payload : list TVMFFIAny) (r1 : RemoteSocketSession.t L) (l : L)
    (w : World L) :
  let socket := {| TCPSocket.sockfd := fd |} in
  let proxy :=
    {| RemoteSocketSession.socket_ := socket;
       RemoteSocketSession.local_session_ :=
         InitLocalSession num_nodes node_id n_groups wpn;
       RemoteSocketSession.channel_ :=
         {| channel_socket_ := socket; channel_end := RelayEnd |};
       RemoteSocketSession.num_nodes_ := num_nodes;
       RemoteSocketSession.node_id_ := node_id;
       RemoteSocketSession.num_groups_ := n_groups;
       RemoteSocketSession.num_workers_per_node_ := wpn |} in
  let last := AInt DiscoSocketAction.kShutdown :: AInt wid :: payload in
  links w !! fd
  = Some {| to_relay :=
              metadata num_nodes wpn n_groups node_id
              :: cmds ++ last :: unread;
            to_controller := out |} ->
  fd <> TCPSocket.INVALID_SOCKET ->
  int32_range num_nodes -> int32_range wpn ->
  int32_range n_groups -> int32_range node_id ->
  Forall (within_int proxy) (cmds ++ [last]) ->
  MainLoop cmds proxy [] = AwaitingRecv r1 replies ->
  Shutdown (RemoteSocketSession.local_session_ r1) = Ok l ->
  (wpn <= num_local_workers ->
   exists w',
     RemoteSocketSessionEntryPoint socket num_local_workers w = Ok w'
     /\ links w' !! fd
        = Some {| to_relay := unread; to_controller := out ++ replies |}
     /\ closed w' = closed w ++ [fd]
     /\ finalized w' = finalized w + 1)
  /\ (num_local_workers < wpn ->
      RemoteSocketSessionEntryPoint socket num_local_workers w = Fatal).
Proof.
  intros socket proxy last Hlink Hopen _ _ _ _ _ Hcmds Hshut.
  unfold RemoteSocketSessionEntryPoint, RemoteSocketSession_new,
    channel_Recv, channel_read.
  cbn [channel_socket_ channel_end socket TCPSocket.sockfd].
  rewrite Hlink. cbn [to_relay to_controller metadata].
  split; intros Hfit.
  - destruct (Z.leb_spec wpn num_local_workers); [| lia].
    cbn [links set_links]. rewrite lookup_insert_eq.
    cbn [to_relay to_controller]. fold socket. fold proxy.
    rewrite MainLoop_app, Hcmds. cbn [MainLoop]. unfold last.
    rewrite (MainLoop_body_shutdown wid payload l r1 Hshut).
    unfold RemoteSocketSession_destructor, Close, TCPSocket.IsClosed.
    assert (Hsock : RemoteSocketSession.socket_ (with_local l r1) = socket)
      by (cbn [with_local RemoteSocketSession.socket_];
          exact (MainLoop_awaiting_socket _ _ _ _ _ Hcmds)).
    rewrite Hsock. cbn [socket TCPSocket.sockfd].
    destruct (Z.eqb_spec fd TCPSocket.INVALID_SOCKET); [contradiction |].
    eexists. split; [reflexivity |].
    cbn [Finalize links closed finalized set_links].
    rewrite lookup_insert_eq. auto.
  - destruct (Z.leb_spec wpn num_local_workers); [lia | reflexivity].
Qed.

(** ** Reading a register of a remote worker *)

Section RemoteCall.
Context `{DiscoAction} {L : Type} `{BcastSession L}.

(** A command sent to a remote worker and the reply fetched for it, on an
    idle connection. *)
Lemma remote_send_then_receive (s : SocketSessionObj.t L) (w : World L)
    (r : RemoteSocketSession.t L) (ch : DiscoSocketChannel) (target : Z)
    (A reply : list TVMFFIAny) (l1 l2 : L) :
  let wpn := SocketSessionObj.num_workers_per_node_ s in
  let node_id := Z.quot target wpn in
  let fd := TCPSocket.sockfd (channel_socket_ ch) in
  let local_worker_id := target - node_id * wpn in
  0 < wpn ->
  wpn <= target ->
  vector_at (SocketSessionObj.remote_channels_ s) (node_id - 1) = Some ch ->
  channel_end ch = ControllerEnd ->
  links w !! fd = Some idle ->
  relays w !! fd = Some r ->
  RemoteSocketSession.node_id_ r = node_id ->
  RemoteSocketSession.num_workers_per_node_ r = wpn ->
  SendPacked local_worker_id A (RemoteSocketSession.local_session_ r) = Ok l1 ->
  RecvReplyPacked local_worker_id l1 = Ok (reply, l2) ->
  exists w1 w2,
    channel_Send ch (AInt DiscoSocketAction.kSend :: AInt target :: A) w = Ok w1
    /\ Socket_RecvReplyPacked target (s, w1) = Ok (reply, (s, w2))
    /\ relays w2 !! fd = Some (with_local l2 r)
    /\ links w2 !! fd = Some idle.
Proof.
  intros wpn node_id fd local_worker_id
    Hwpn Htarget Hch Hend Hlink Hrelay Hnode Hrwpn Hsend Hrecv.
  destruct (quot_node_range target wpn Hwpn Htarget) as [Hnode1 Hlocal].
  fold node_id in Hnode1. fold node_id local_worker_id in Hlocal.
  assert (Hkinds : (DiscoSocketAction.kSend =? DiscoSocketAction.kSend) = true
                   /\ (DiscoSocketAction.kReceive =? DiscoSocketAction.kSend) = false
                   /\ (DiscoSocketAction.kReceive =? DiscoSocketAction.kReceive) = true).
  { unfold DiscoSocketAction.kSend, DiscoSocketAction.kReceive.
    repeat split; lia. }
  destruct Hkinds as (Hss & Hrs & Hrr).
  set (cmd := AInt DiscoSocketAction.kSend :: AInt target :: A).
  set (w1 := set_links (insert fd {| to_relay := [cmd]; to_controller := [] |}) w).
  exists w1.
  exists (set_links (insert fd idle)
            (set_relays (insert fd (with_local l2 r))
               (set_links (insert fd {| to_relay := [];
                                        to_controller := [reply] |})
                  (set_links (insert fd
                     {| to_relay := [cmd; [AInt DiscoSocketAction.kReceive;
                                           AInt target]];
                        to_controller := [] |}) w1)))).
  assert (Hnode_of : node_of target s = Ok node_id).
  { unfold node_of. fold wpn.
    destruct (Z.eqb_spec wpn 0); [lia | reflexivity]. }
  assert (Hnz : (node_id =? 0) = false) by lia.
  assert (Hidx : vector_index (SocketSessionObj.remote_channels_ s) (node_id - 1)
                 = Ok ch) by (unfold vector_index; now rewrite Hch).
  split; [| split; [| split]].
  - unfold channel_Send, channel_write. fold fd. rewrite Hlink, Hend.
    reflexivity.
  - unfold Socket_RecvReplyPacked. rewrite Hnode_of, Hnz, Hidx.
    unfold channel_Send, channel_write. fold fd.
    unfold w1 at 1. cbn [links set_links]. rewrite lookup_insert_eq, Hend.
    cbv beta iota zeta. cbn [to_relay to_controller app].
    unfold channel_await, run_relay. fold fd.
    cbn [links relays set_links set_relays]. unfold w1 at 1 2.
    cbn [links relays set_links set_relays].
    rewrite lookup_insert_eq, Hrelay.
    cbn [to_relay to_controller MainLoop]. fold cmd.
    unfold cmd at 1. unfold MainLoop_body at 1.
    rewrite Hss, Hnode, Hrwpn.
    destruct (Z.eqb_spec target (-1)); [lia |].
    fold local_worker_id. rewrite Hsend.
    cbn [MainLoop]. unfold MainLoop_body.
    rewrite Hrs, Hrr.
    cbn [with_local RemoteSocketSession.node_id_
         RemoteSocketSession.num_workers_per_node_
         RemoteSocketSession.local_session_].
    rewrite Hnode, Hrwpn. fold local_worker_id. rewrite Hrecv.
    cbn [app].
    unfold channel_Recv, channel_read. fold fd.
    cbn [links relays set_links set_relays].
    rewrite lookup_insert_eq, Hend. cbn [to_controller to_relay].
    reflexivity.
  - cbn [links relays set_links set_relays]. now rewrite lookup_insert_eq.
  - cbn [links relays set_links set_relays]. now rewrite lookup_insert_eq.
Qed.
End RemoteCall.

(** X29. [DebugGetFromRemote] of the socket session.  For a worker of the
    controller's own node it is the call of the local session.  For a
    worker of a remote node, with the connection idle, it sends the debug
    action with the register and worker ids as a command to that worker,
    fetches the reply, and returns its second element, provided the reply
    has two elements of which the first is the debug action again; a reply
    whose first element is an integer within the range of [int] that names
    another action is a failed check. *)
Theorem socket_debug_get_from_remote
    `{DiscoAction} `{DiscoDebugAction} {L : Type} `{BcastSession L}
    `{DebugSession L}
    (s : SocketSessionObj.t L) (w : World L) (r : RemoteSocketSession.t L)
    (ch : DiscoSocketChannel) (reg_id target tag : Z) (value : TVMFFIAny)
    (l1 l2 : L) :
  let wpn := SocketSessionObj.num_workers_per_node_ s in
  let node_id := Z.quot target wpn in
  let fd := TCPSocket.sockfd (channel_socket_ ch) in
  let local_worker_id := target - node_id * wpn in
  let cmd := [AInt kDebugGetFromRemote; AInt reg_id; AInt target] in
  0 < wpn ->
  wpn <= target ->
  vector_at (SocketSessionObj.remote_channels_ s) (node_id - 1) = Some ch ->
  channel_end ch = ControllerEnd ->
  links w !! fd = Some idle ->
  relays w !! fd = Some r ->
  RemoteSocketSession.node_id_ r = node_id ->
  RemoteSocketSession.num_workers_per_node_ r = wpn ->
  SendPacked local_worker_id cmd (RemoteSocketSession.local_session_ r) = Ok l1 ->
  RecvReplyPacked local_worker_id l1 = Ok ([AInt tag; value], l2) ->
  int32_range tag ->
  (tag = kDebugGetFromRemote ->
   exists w',
     Socket_DebugGetFromRemote reg_id target (s, w) = Ok (value, (s, w'))
     /\ relays w' !! fd = Some (with_local l2 r)
     /\ links w' !! fd = Some idle)
  /\ (tag <> kDebugGetFromRemote ->
      Socket_DebugGetFromRemote reg_id target (s, w) = Fatal)
  /\ (forall local_id,
        - wpn < local_id < wpn ->
        Socket_DebugGetFromRemote reg_id local_id (s, w)
        = match Local_DebugGetFromRemote reg_id local_id
                  (SocketSessionObj.local_session_ s) with
          | Ok (v, l) => Ok (v, (ctl_with_local l s, w))
          | Fatal => Fatal
          | Blocked => Blocked
          end).
Proof.
  intros wpn node_id fd local_worker_id cmd
    Hwpn Htarget Hch Hend Hlink Hrelay Hnode Hrwpn Hsend Hrecv _.
  destruct (remote_send_then_receive s w r ch target cmd [AInt tag; value]
              l1 l2 Hwpn Htarget Hch Hend Hlink Hrelay Hnode Hrwpn Hsend Hrecv)
    as (w1 & w2 & Hs1 & Hr2 & Hrel & Hidle).
  destruct (quot_node_range target wpn Hwpn Htarget) as [Hnode1 _].
  fold node_id in Hnode1.
  assert (Hrun : Socket_DebugGetFromRemote reg_id target (s, w)
                 = if tag =? kDebugGetFromRemote
                   then Ok (value, (s, w2)) else Fatal).
  { unfold Socket_DebugGetFromRemote, node_of. fold wpn.
    destruct (Z.eqb_spec wpn 0); [lia |]. fold node_id.
    destruct (Z.eqb_spec node_id 0); [lia |].
    unfold vector_index. rewrite Hch.
    unfold cmd in Hs1. cbn [app] in Hs1. rewrite Hs1, Hr2. reflexivity. }
  split; [| split].
  - intros ->. exists w2. rewrite Hrun, Z.eqb_refl. auto.
  - intros Hne. rewrite Hrun.
    destruct (Z.eqb_spec tag kDebugGetFromRemote); [contradiction | reflexivity].
  - intros local_id Hlocal.
    unfold Socket_DebugGetFromRemote, node_of. fold wpn.
    destruct (Z.eqb_spec wpn 0); [lia |].
    rewrite quot_small by assumption. reflexivity.
Qed.

(** ** The further properties at sample values *)

Lemma raw_string_crosses_up_to_first_nul_witness :
  let mem := [Byte.x68; Byte.x69; Byte.x00; Byte.x6a; Byte.x00] in
  exists s1 s2 : list byte,
    SendPackedSeq (H := sample_type_index)
      (H0 := @stream_channel _ Pipe.pipe_stream (no_extension (list byte)))
      [AInt 1; ARawStr mem; ANone] 3 true [] = Done tt s1
    /\ RecvPackedSeq (H := sample_type_index) (H1 := no_extension (list byte)) s1
       = Done (3, [AInt 1; ARawStr [Byte.x68; Byte.x69; Byte.x00]; ANone]) s2
    /\ readable s2 = [].
Proof.
  intros mem.
  destruct (@raw_string_crosses_up_to_first_nul sample_type_index (list byte)
              Pipe.pipe_stream (no_extension (list byte)) pipe_sink pipe_source
              (@pipe_channel_laws (no_extension (list byte)))
              [AInt 1] [ANone] mem true [])
    as (s1 & s2 & Hsend & _ & Hrecv & Hrest).
  - repeat (constructor; [in_range |]). constructor.
  - repeat (constructor; [in_range |]). constructor.
  - cbn. lia.
  - cbn. lia.
  - exact I.
  - reflexivity.
  - exists s1, s2. auto.
Defined.

Lemma client_handles_round_trip_witness :
  let args := [AInt 5; AFunction 4096; AModule 8192] in
  (exists s1 s2 : list byte,
     SendPackedSeq (H := sample_type_index)
       (H0 := @stream_channel _ Pipe.pipe_stream (no_extension (list byte)))
       args 3 true [] = Done tt s1
     /\ RecvPackedSeq (H := sample_type_index) (H1 := no_extension (list byte)) s1
        = Done (3, args) s2
     /\ readable s2 = [])
  /\ exists s' : list byte,
       SendPackedSeq (H := sample_type_index)
         (H0 := @stream_channel _ Pipe.pipe_stream (no_extension (list byte)))
         args 3 false [] = Throw (RPCError kInvalidTypeCodeObject) s'.
Proof.
  intros args.
  destruct (@client_handles_round_trip sample_type_index (list byte)
              Pipe.pipe_stream (no_extension (list byte)) pipe_sink pipe_source
              (@pipe_channel_laws (no_extension (list byte))) args [])
    as [Hround Hrefused].
  - unfold args. repeat (constructor; [in_range |]). constructor.
  - cbn. lia.
  - exact I.
  - reflexivity.
  - split; [exact Hround |]. apply Hrefused.
    exists 4096. left. unfold args. right. left.
Defined.

Lemma extension_values_are_delegated_witness :
  let head :=
    object_repr (v_int32 2) ++ args_wire true [AInt 5]
    ++ object_repr (v_int32 65) in
  SendPackedSeq (H := sample_type_index)
    (H0 := @stream_channel _ Pipe.pipe_stream (no_extension (list byte)))
    [AInt 5; AOther 65 4096] 2 true []
  = Throw Unsupported head
  /\ RecvPackedSeq (H := sample_type_index) (H1 := no_extension (list byte))
       (head ++ [Byte.x01])
     = Throw Unsupported [Byte.x01].
Proof.
  intros head.
  destruct (@extension_values_are_delegated sample_type_index (list byte)
              Pipe.pipe_stream (no_extension (list byte)) pipe_sink pipe_source
              (@pipe_channel_laws (no_extension (list byte)))
              [AInt 5] 65 4096 true [Byte.x01] [] (head ++ [Byte.x01]))
    as (Hsend & Hrecv & _).
  - repeat (constructor; [in_range |]). constructor.
  - unfold int32_range. lia.
  - apply (bool_decide_unpack _). vm_compute. exact I.
  - cbn. lia.
  - cbn. lia.
  - exact I.
  - reflexivity.
  - split; [exact Hsend | exact Hrecv].
Defined.

Lemma sequences_are_self_delimiting_witness :
  exists s1 s2 : list byte,
    (SendPackedSeq (H := sample_type_index)
       (H0 := @stream_channel _ Pipe.pipe_stream (no_extension (list byte)))
       sample_args (Z.of_nat (length sample_args)) false ;;;
     SendPackedSeq (H := sample_type_index)
       (H0 := @stream_channel _ Pipe.pipe_stream (no_extension (list byte)))
       [AInt 42] 1 false) [] = Done tt s1
    /\ (x <~ RecvPackedSeq (H := sample_type_index)
               (H1 := no_extension (list byte)) ;;
        y <~ RecvPackedSeq (H := sample_type_index)
               (H1 := no_extension (list byte)) ;;
        ret (x, y)) s1
       = Done ((Z.of_nat (length sample_args), sample_args), (1, [AInt 42])) s2
    /\ readable s2 = [].
Proof.
  apply (@sequences_are_self_delimiting sample_type_index (list byte)
           Pipe.pipe_stream (no_extension (list byte)) pipe_sink pipe_source
           (@pipe_channel_laws (no_extension (list byte)))
           sample_args [AInt 42] false []).
  - exact sample_args_representable.
  - repeat (constructor; [in_range |]). constructor.
  - cbn. lia.
  - cbn. lia.
  - exact I.
  - reflexivity.
Defined.

Lemma exception_packet_reads_back_witness :
  let msg := [Byte.x65; Byte.x72; Byte.x72; Byte.x00; Byte.x21] in
  exists s1 s2 : list byte,
    ReturnException (H := sample_type_index) (H1 := no_extension (list byte))
      msg [] = Done tt s1
    /\ Z.of_nat (length (readable s1)) = 8 + 20 + 3
    /\ read_packet (H := sample_type_index) (H1 := no_extension (list byte)) s1
       = Done (23, RPCCode_value kException,
               (1, [ARawStr [Byte.x65; Byte.x72; Byte.x72; Byte.x00]])) s2
    /\ readable s2 = [].
Proof.
  intros msg.
  apply (@exception_packet_reads_back sample_type_index (list byte)
           Pipe.pipe_stream (no_extension (list byte)) Pipe.pipe_framed
           pipe_sink pipe_source
           (@pipe_channel_laws (no_extension (list byte))) msg []).
  - reflexivity.
  - reflexivity.
  - cbn. lia.
  - exact I.
  - reflexivity.
Defined.

Lemma void_packet_reads_back_witness :
  exists s1 s2 : list byte,
    ReturnVoid (H := sample_type_index) (H1 := no_extension (list byte)) []
    = Done tt s1
    /\ length (readable s1) = 20%nat
    /\ read_packet (H := sample_type_index) (H1 := no_extension (list byte)) s1
       = Done (12, RPCCode_value kReturn, (1, [ANone])) s2
    /\ readable s2 = [].
Proof.
  apply (@void_packet_reads_back sample_type_index (list byte)
           Pipe.pipe_stream (no_extension (list byte)) Pipe.pipe_framed
           pipe_sink pipe_source
           (@pipe_channel_laws (no_extension (list byte))) []).
  - reflexivity.
  - reflexivity.
  - exact I.
  - reflexivity.
Defined.

Lemma refused_reply_writes_nothing_witness :
  let args := [AInt 1; ANDArray 7; ANone] in
  ReturnPackedSeq (H := sample_type_index) (H1 := no_extension (list byte))
    args 3 [Byte.x2a]
  = Throw (RPCError kInvalidTypeCodeNDArray) [Byte.x2a]
  /\ DiscoThreadedMessageQueue.Send (H := sample_type_index)
       (H0 := no_extension DiscoThreadedMessageQueue.t)
       args DiscoThreadedMessageQueue.empty
     = Throw (RPCError kInvalidTypeCodeNDArray) DiscoThreadedMessageQueue.empty.
Proof.
  intros args.
  destruct (@refused_reply_writes_nothing sample_type_index (list byte)
              Pipe.pipe_stream (no_extension (list byte)) Pipe.pipe_framed
              pipe_sink (@pipe_sink_laws (no_extension (list byte)))
              (no_extension DiscoThreadedMessageQueue.t)
              [AInt 1] [ANone] (ANDArray 7) [Byte.x2a]
              DiscoThreadedMessageQueue.empty)
    as (st & Hst & Hret & Hsend).
  - repeat (constructor; [exact I |]). constructor.
  - constructor; [| constructor]. intros Hoff. exact Hoff.
  - exact I.
  - injection Hst as <-. split; [exact Hret | exact Hsend].
Defined.

Lemma received_tensor_is_dense_witness :
  exists out' : list byte,
    SendDLTensor
      (H0 := @stream_channel _ Pipe.pipe_stream (no_extension (list byte)))
      sample_tensor [] = Done tt out'.
Proof.
  apply (@received_tensor_is_dense sample_type_index (list byte)
           Pipe.pipe_stream (no_extension (list byte)) pipe_sink
           (@pipe_sink_laws (no_extension (list byte)))
           (payload_wire false (ADLTensorPtr sample_tensor)) [] []
           sample_tensor).
  vm_compute. reflexivity.
Defined.

Lemma sendable_int (v : Z) :
  int64_range v -> sendable (H := sample_type_index) [AInt v].
Proof.
  intros Hv. split; [constructor; [exact Hv | constructor] |].
  split; vm_compute; reflexivity.
Defined.

Lemma thread_channel_directions_are_separate_witness :
  let c :=
    {| controler_to_worker_ := DiscoThreadedMessageQueue.empty;
       worker_to_controler_ := DiscoThreadedMessageQueue.empty |} in
  (exists c',
     ThreadChannel_Send (H := sample_type_index)
       (H0 := no_extension DiscoThreadedMessageQueue.t) [AInt 42] c = Done tt c'
     /\ channel_holds (H := sample_type_index) [[AInt 42]] [] c'
     /\ worker_to_controler_ c' = worker_to_controler_ c)
  /\ ThreadChannel_RecvReply (H := sample_type_index)
       (H0 := no_extension DiscoThreadedMessageQueue.t) c = None.
Proof.
  intros c.
  destruct (@thread_channel_directions_are_separate sample_type_index
              (no_extension DiscoThreadedMessageQueue.t) [] [] [AInt 42] c)
    as (Hsend & _ & _ & Hblock).
  - split; apply holds_packets_empty.
  - apply sendable_int. unfold int64_range. lia.
  - constructor.
  - constructor.
  - cbn. lia.
  - cbn. lia.
  - split; [exact Hsend | exact Hblock].
Defined.

Lemma threaded_broadcast_reaches_every_worker_witness :
  exists n',
    ThreadedSession_BroadcastPacked (H := sample_type_index)
      (H0 := no_extension DiscoThreadedMessageQueue.t)
      [AInt 42] (ThreadedSessionObj_new 2 1) = Some n'
    /\ GetNumWorkers n' = 2.
Proof.
  destruct (@threaded_broadcast_reaches_every_worker sample_type_index
              (no_extension DiscoThreadedMessageQueue.t)
              [AInt 42] (ThreadedSessionObj_new 2 1) [[]; []])
    as (n' & Hb & Hn & _).
  - apply sendable_int. unfold int64_range. lia.
  - repeat (constructor;
            [split; [apply holds_packets_empty | cbn; lia] |]).
    constructor.
  - exists n'. split; [exact Hb | exact Hn].
Defined.

Lemma threaded_session_request_and_reply_witness :
  exists n1 n2 n3 n4,
    ThreadedSession_SendPacked (H := sample_type_index)
      (H0 := no_extension DiscoThreadedMessageQueue.t)
      1 [AInt 42] (ThreadedSessionObj_new 3 1) = Some n1
    /\ worker_Recv (H := sample_type_index)
         (H0 := no_extension DiscoThreadedMessageQueue.t) 1 n1
       = Ok ([AInt 42], n2)
    /\ worker_Reply (H := sample_type_index)
         (H0 := no_extension DiscoThreadedMessageQueue.t) 1 [AInt 43] n2
       = Ok n3
    /\ ThreadedSession_RecvReplyPacked (H := sample_type_index)
         (H0 := no_extension DiscoThreadedMessageQueue.t) 1 n3
       = Ok ([AInt 43], n4).
Proof.
  destruct (@threaded_session_request_and_reply sample_type_index
              (no_extension DiscoThreadedMessageQueue.t) 3 1 1
              [AInt 42] [AInt 43])
    as (n1 & n2 & n3 & n4 & H1 & H2 & H3 & H4 & _).
  - lia.
  - apply sendable_int. unfold int64_range. lia.
  - apply sendable_int. unfold int64_range. lia.
  - exists n1, n2, n3, n4. auto.
Defined.

Lemma global_worker_ids_match_routing_witness :
  let worker :=
    {| worker_id := 1; num_workers := 2; num_groups := 1;
       register_file := [] |} in
  let worker' := socket_session_init_workers 2 1 1 2 worker in
  worker_id worker' = 3
  /\ num_workers worker' = 4
  /\ node_of 3 sample_controller = Ok 1
  /\ MainLoop_body [AInt 1; AInt 3; AInt 42] sample_relay
     = Continue (with_local [(1, [AInt 42])] sample_relay) None.
Proof.
  intros worker worker'.
  destruct (@global_worker_ids_match_routing sample_actions _ echo_session
              2 1 1 2 worker sample_controller sample_relay [AInt 42])
    as (Hid & _ & Hn & _ & Hnode & Hsend & _).
  - lia.
  - lia.
  - lia.
  - cbn. lia.
  - reflexivity.
  - reflexivity.
  - reflexivity.
  - reflexivity.
  - split; [exact Hid |]. split; [exact Hn |]. split; [exact Hnode |].
    exact Hsend.
Defined.

Lemma small_worker_ids_stay_local_witness :
  node_of (-1) sample_controller = Ok 0
  /\ Socket_SendPacked (-1) [AInt 42] (sample_controller, sample_world)
     = Ok (ctl_with_local [(-1, [AInt 42])] sample_controller, sample_world).
Proof.
  destruct (@small_worker_ids_stay_local sample_actions _ echo_session
              (-1) [AInt 42] sample_controller sample_world)
    as (Hnode & Hsend & _).
  - cbn. lia.
  - cbn. lia.
  - split; [exact Hnode | exact Hsend].
Defined.

Lemma commands_follow_the_handshake_witness :
  exists s w w',
    SocketSessionObj_new 3 2 1
      {| TCPSocket.sockfd := 3 |} sample_listening_world = Ok (s, w)
    /\ Socket_GetNumWorkers s = 6
    /\ Socket_SendPacked 4 [AInt 42] (s, w) = Ok (s, w')
    /\ links w' !! 9
       = Some {| to_relay := [metadata 3 2 1 2; [AInt 1; AInt 4; AInt 42]];
                 to_controller := [] |}.
Proof.
  destruct (@commands_follow_the_handshake sample_actions _ echo_session
              3 2 1 4 [AInt 42] {| TCPSocket.sockfd := 3 |}
              sample_listening_world)
    as (s & w & w' & fd & Hnew & Hn & _ & Hfd & Hsend & Hlink).
  - reflexivity.
  - apply (bool_decide_unpack _). vm_compute. exact I.
  - intros fd Hin. cbn [backlog sample_listening_world links] in *.
    apply elem_of_cons in Hin as [-> | Hin].
    + apply lookup_insert_eq.
    + apply list_elem_of_singleton in Hin as ->.
      rewrite lookup_insert_ne by lia. apply lookup_singleton_eq.
  - lia.
  - lia.
  - lia.
  - injection Hfd as <-. exists s, w, w'. auto.
Defined.

Lemma socket_broadcast_reaches_every_node_witness :
  exists w',
    Socket_BroadcastPacked [AInt 42] (sample_controller, sample_world)
    = Ok (ctl_with_local [] sample_controller, w')
    /\ links w' !! 7
       = Some {| to_relay := [[AInt 1; AInt (-1); AInt 42]];
                 to_controller := [] |}
    /\ relays (run_relay 7 w') !! 7 = Some (with_local [] sample_relay).
Proof.
  destruct (@socket_broadcast_reaches_every_node sample_actions _ echo_session
              [AInt 42] [7] [] sample_controller sample_world)
    as (w' & Hb & Hin & _ & Hrelay).
  - reflexivity.
  - apply (bool_decide_unpack _). vm_compute. exact I.
  - intros fd Hin. apply list_elem_of_singleton in Hin as ->.
    cbn [sample_world links]. rewrite lookup_singleton_eq. eauto.
  - reflexivity.
  - exists w'. split; [exact Hb |]. split.
    + apply (Hin 7 idle); [left | apply lookup_singleton_eq].
    + apply (Hrelay 7 sample_relay []);
        [left | apply lookup_singleton_eq | apply lookup_singleton_eq
         | reflexivity].
Defined.

Lemma socket_shutdown_notifies_then_closes_witness :
  exists s1 w1,
    Socket_Shutdown (sample_controller, sample_world) = Ok (s1, w1)
    /\ links w1 !! 7
       = Some {| to_relay := [[AInt 0; AInt (-1)]]; to_controller := [] |}
    /\ closed w1 = [7; 3]
    /\ finalized w1 = 1
    /\ relays (run_relay 7 w1) !! 7 = None.
Proof.
  destruct (@socket_shutdown_notifies_then_closes sample_actions _ echo_session
              [7] sample_controller sample_world)
    as (s1 & w1 & Hs & Hin & Hclosed & Hfin & Hrelay).
  - reflexivity.
  - reflexivity.
  - apply (bool_decide_unpack _). vm_compute. exact I.
  - constructor; [| constructor]. unfold TCPSocket.INVALID_SOCKET. lia.
  - intros fd Hin. apply list_elem_of_singleton in Hin as ->.
    cbn [sample_world links]. rewrite lookup_singleton_eq. eauto.
  - reflexivity.
  - exists s1, w1. split; [exact Hs |]. split.
    + apply (Hin 7 idle); [left | apply lookup_singleton_eq].
    + split; [exact Hclosed |]. split; [exact Hfin |].
      apply (Hrelay 7 sample_relay []);
        [left | apply lookup_singleton_eq | apply lookup_singleton_eq
         | reflexivity].
Defined.

Lemma sample_relay_within_int (args : list TVMFFIAny) :
  args ∈ [[AInt 1; AInt 3; AInt 42]; [AInt 2; AInt 3]; [AInt 0; AInt (-1)];
          [AInt 9; AInt 3]] ->
  within_int sample_relay args.
Proof.
  intros Hin. repeat (apply elem_of_cons in Hin as [-> | Hin]);
    [| | | | inversion Hin]; cbn; unfold int32_range; lia.
Defined.

Lemma relay_loop_ends_at_shutdown_or_invalid_action_witness :
  let first := [[AInt 1; AInt 3; AInt 42]; [AInt 2; AInt 3]] in
  MainLoop (first ++ [[AInt 0; AInt (-1)]; [AInt 1; AInt 2; AInt 5]])
    sample_relay []
  = Returned (with_local [] sample_relay) [[AInt 42]] [[AInt 1; AInt 2; AInt 5]]
  /\ MainLoop (first ++ [[AInt 9; AInt 3]; [AInt 1; AInt 2; AInt 5]])
       sample_relay []
     = Halted [[AInt 42]].
Proof.
  intros first.
  destruct (@relay_loop_ends_at_shutdown_or_invalid_action sample_actions _
              echo_session
              first [[AInt 1; AInt 2; AInt 5]] sample_relay
              (with_local [] sample_relay) [[AInt 42]])
    as (Hshut & Hbad).
  - repeat (constructor; [apply sample_relay_within_int; set_solver |]).
    constructor.
  - reflexivity.
  - split.
    + apply (Hshut (-1) [] []); [| reflexivity].
      apply sample_relay_within_int. set_solver.
    + apply (Hbad 9 3 []); [| vm_compute; discriminate ..].
      apply sample_relay_within_int. set_solver.
Defined.

Lemma relay_entry_point_runs_to_shutdown_witness :
  exists w',
    RemoteSocketSessionEntryPoint {| TCPSocket.sockfd := 7 |} 2
      sample_starting_world = Ok w'
    /\ links w' !! 7
       = Some {| to_relay := [[AInt 1; AInt 2; AInt 5]];
                 to_controller := [[AInt 42]] |}
    /\ closed w' = [7]
    /\ finalized w' = 1.
Proof.
  destruct (@relay_entry_point_runs_to_shutdown sample_actions _ echo_session
              7 2 2 2 1 1 (-1)
              [[AInt 1; AInt 3; AInt 42]; [AInt 2; AInt 3]]
              [[AInt 1; AInt 2; AInt 5]] [] [[AInt 42]] []
              (with_local [] sample_relay) [] sample_starting_world)
    as (Hrun & _).
  - apply lookup_singleton_eq.
  - unfold TCPSocket.INVALID_SOCKET. lia.
  - unfold int32_range. lia.
  - unfold int32_range. lia.
  - unfold int32_range. lia.
  - unfold int32_range. lia.
  - repeat (constructor; [cbn; unfold int32_range; lia |]). constructor.
  - reflexivity.
  - reflexivity.
  - apply Hrun. lia.
Defined.

Lemma socket_debug_get_from_remote_witness :
  exists w',
    Socket_DebugGetFromRemote (H1 := answering_session) (H2 := answering_debug)
      2 3 (sample_controller, sample_world)
    = Ok (AInt 102, (sample_controller, w'))
    /\ links w' !! 7 = Some idle.
Proof.
  destruct (@socket_debug_get_from_remote sample_actions sample_debug_actions
              _ answering_session answering_debug
              sample_controller sample_world sample_relay
              (controller_channel 7) 2 3 7 (AInt 102)
              [(1, [AInt 7; AInt 102])] [])
    as (Hget & _).
  - cbn. lia.
  - cbn. lia.
  - reflexivity.
  - reflexivity.
  - apply lookup_singleton_eq.
  - apply lookup_singleton_eq.
  - reflexivity.
  - reflexivity.
  - reflexivity.
  - reflexivity.
  - unfold int32_range. lia.
  - destruct (Hget eq_refl) as (w' & Hrun & _ & Hidle).
    exists w'. split; [exact Hrun | exact Hidle].
Defined.

Lemma count_selects_prefix_witness :
  exists s1 s2 : list byte,
    SendPackedSeq (H := sample_type_index)
      (H0 := @stream_channel _ Pipe.pipe_stream (no_extension (list byte)))
      [AInt 1; AInt 2; ANDArray 7] 2 false [] = Done tt s1
    /\ readable s1 = seq_wire false [AInt 1; AInt 2]
    /\ RecvPackedSeq (H := sample_type_index) (H1 := no_extension (list byte)) s1
       = Done (2, [AInt 1; AInt 2]) s2
    /\ readable s2 = [].
Proof.
  apply (@count_selects_prefix sample_type_index (list byte)
           Pipe.pipe_stream (no_extension (list byte)) pipe_sink pipe_source
           (@pipe_channel_laws (no_extension (list byte)))
           [AInt 1; AInt 2; ANDArray 7] 2 false []).
  - cbn. lia.
  - lia.
  - repeat (constructor; [in_range |]). constructor.
  - exact I.
  - reflexivity.
Defined.

Lemma counted_arrays_cross_by_count_witness :
  let b := {| ba_data := [Byte.x01; Byte.x02; Byte.x03]; ba_size := 2 |} in
  let arr :=
    {| data := 4096;
       device := {| device_type := 2; device_id := 0 |};
       ndim := 1;
       dtype := {| code := 2; bits := 32; lanes := 1 |};
       shape := [3; 4];
       strides := None;
       byte_offset := 16 |} in
  exists s1 s2 : list byte,
    SendPackedSeq (H := sample_type_index)
      (H0 := @stream_channel _ Pipe.pipe_stream (no_extension (list byte)))
      [AByteArrayPtr b; ADLTensorPtr arr] 2 false [] = Done tt s1
    /\ RecvPackedSeq (H := sample_type_index) (H1 := no_extension (list byte)) s1
       = Done (2, [AByteArrayPtr {| ba_data := [Byte.x01; Byte.x02];
                                   ba_size := 2 |};
                   ADLTensorPtr (counted_shape arr)]) s2
    /\ shape (counted_shape arr) = [3].
Proof.
  intros b arr.
  destruct (@counted_arrays_cross_by_count sample_type_index (list byte)
              Pipe.pipe_stream (no_extension (list byte)) pipe_sink pipe_source
              (@pipe_channel_laws (no_extension (list byte)))
              [] [] b arr false [])
    as (s1 & s2 & Hsend & Hrecv & _).
  - constructor.
  - constructor.
  - cbn. lia.
  - cbn. lia.
  - cbn. lia.
  - in_range.
  - cbn. lia.
  - exact I.
  - reflexivity.
  - exists s1, s2. split; [exact Hsend |]. split; [exact Hrecv | reflexivity].
Defined.

Lemma commands_reach_a_worker_in_order_witness :
  exists n3 m1 m2 m3,
    worker_Recv (H := sample_type_index)
      (H0 := no_extension DiscoThreadedMessageQueue.t) 1 n3 = Ok ([AInt 1], m1)
    /\ worker_Recv (H := sample_type_index)
         (H0 := no_extension DiscoThreadedMessageQueue.t) 1 m1
       = Ok ([AInt 2], m2)
    /\ worker_Recv (H := sample_type_index)
         (H0 := no_extension DiscoThreadedMessageQueue.t) 1 m2
       = Ok ([AInt 3], m3)
    /\ worker_Recv (H := sample_type_index)
         (H0 := no_extension DiscoThreadedMessageQueue.t) 1 m3 = Blocked.
Proof.
  destruct (@commands_reach_a_worker_in_order sample_type_index
              (no_extension DiscoThreadedMessageQueue.t) 3 1 1
              [AInt 1] [AInt 2] [AInt 3])
    as (n1 & n2 & n3 & _ & _ & _ & (m1 & m2 & m3 & Hr) & _).
  - lia.
  - apply sendable_int. unfold int64_range. lia.
  - apply sendable_int. unfold int64_range. lia.
  - apply sendable_int. unfold int64_range. lia.
  - exists n3, m1, m2, m3. exact Hr.
Defined.

Lemma constructor_waits_for_every_node_witness :
  SocketSessionObj_new 4 2 1 {| TCPSocket.sockfd := 3 |} sample_listening_world
  = Blocked.
Proof.
  destruct (@constructor_waits_for_every_node sample_actions _ echo_session
              4 2 1 {| TCPSocket.sockfd := 3 |} sample_listening_world)
    as (Hblock & _).
  - intros fd Hin. cbn [backlog sample_listening_world links] in *.
    apply elem_of_cons in Hin as [-> | Hin].
    + rewrite lookup_insert_eq. eauto.
    + apply list_elem_of_singleton in Hin as ->.
      rewrite lookup_insert_ne by lia. rewrite lookup_singleton_eq. eauto.
  - apply Hblock. cbn. lia.
Defined.

Lemma relay_constructor_checks_the_handshake_witness :
  exists r w',
    RemoteSocketSession_new {| TCPSocket.sockfd := 7 |} 2 sample_starting_world
    = Ok (r, w')
    /\ RemoteSocketSession.node_id_ r = 1
    /\ RemoteSocketSession.num_workers_per_node_ r = 2.
Proof.
  pose proof (@relay_constructor_checks_the_handshake sample_actions _
                echo_session 7 2 _ [] sample_starting_world
                (lookup_singleton_eq _ _)) as Hctor.
  cbv beta iota zeta in Hctor. destruct Hctor as (_ & Hctor).
  destruct (Hctor 2 2 1 1 eq_refl) as (r & w' & Hnew & _ & Hw & _ & Hn & _);
    try (unfold int32_range; lia).
  exists r, w'. auto.
Defined.

Lemma short_packet_fails_the_check_witness :
  exists q',
    DiscoThreadedMessageQueue.Recv (H := sample_type_index)
      (H0 := no_extension DiscoThreadedMessageQueue.t) sample_short_queue
    = Some (Throw CheckFailed q')
    /\ DiscoThreadedMessageQueue.ring_buffer_ q' = []
    /\ DiscoThreadedMessageQueue.msg_cnt_ q' = 0.
Proof.
  apply (@short_packet_fails_the_check sample_type_index
           (no_extension DiscoThreadedMessageQueue.t) [AInt 5] 2 []
           sample_short_queue).
  - repeat (constructor; [in_range |]). constructor.
  - cbn. lia.
  - cbn. lia.
  - vm_compute. reflexivity.
  - cbn [sample_short_queue DiscoThreadedMessageQueue.ring_buffer_].
    now rewrite app_nil_r.
Defined.
